(** * GeoGrid: geometry kernel, point discovery, construction history and
      goal evaluation

    A shallow embedding of [src/geometryUtils.ts], of the play screen of
    [src/App.tsx] and of the level editor, followed by the properties the
    specification states about them.

    Numbers.  A JavaScript [number] is an IEEE 754 binary64 value and the
    arithmetic operators round to nearest, ties to even: this is Rocq's
    primitive [float], so the arithmetic below is the arithmetic the program
    runs, NaN and infinities included.  [a ** 2] is rendered as [a * a].
    Comparisons are the JavaScript ones: [a < b] is [a <? b], [a >= b] is
    [b <=? a], and every comparison with NaN is [false]. *)

From Stdlib Require Import String.
From Stdlib Require Uint63.
From Stdlib Require Import Floats ZArith List Bool Lia.
Import ListNotations.

Set Warnings "-inexact-float".
Local Open Scope float_scope.

(** ** Data model ([src/types.ts]) *)

Inductive LineType := SEGMENT | RAY | LINE.

Definition LineType_eqb (a b : LineType) : bool :=
  match a, b with
  | SEGMENT, SEGMENT | RAY, RAY | LINE, LINE => true
  | _, _ => false
  end.

(** Identifiers are template strings in the source; the template is kept as a
    constructor and its holes as arguments.  They are never read by the
    geometry. *)
Inductive Id :=
| IdInit_p (i : nat)                      (* `init-p-${i}` *)
| IdInit_s_p1 (i : nat)                   (* `init-s-p1-${i}` *)
| IdInit_s_p2 (i : nat)                   (* `init-s-p2-${i}` *)
| IdInit_s (i : nat)                      (* `init-s-${i}` *)
| IdInt (r : float)                       (* `int-${Math.random()}` *)
| IdPotential (source : string) (n : nat) (* `potential-${source}-${points.length}` *)
| IdRevealed_s (now : Z)                  (* `revealed-s-${Date.now()}` *)
| IdRevealed_e (now : Z)                  (* `revealed-e-${Date.now()}` *)
| IdRevealed (now : Z)                    (* `revealed-${Date.now()}` *)
| IdSeg (now : Z)                         (* `seg-${Date.now()}` *)
| IdP (now : Z)                           (* `p-${Date.now()}` *)
| IdP_end (now : Z)                       (* `p-end-${Date.now()}` *)
| IdS (now : Z).                          (* `s-${Date.now()}` *)

(** The structural type [{ x: number; y: number }]. *)
Record XY := mkXY { x : float; y : float }.

(** [interface Point]; optional fields are [option]s, [None] when absent.
    A [Point] is usable wherever an [{x, y}] is expected. *)
Record Point := mkPoint {
  pt :> XY;
  id : Id;
  isIntersection : option bool;
  label : option string;
  isInitial : option bool
}.

(** The structural type [{ p1: {x,y}; p2: {x,y}; type?: LineType }] of goal
    and initial segments. *)
Record SegmentShape := mkShape { p1 : XY; p2 : XY; type : option LineType }.

(** [interface Segment]. *)
Record Segment := mkSegment {
  seg_p1 : Point;
  seg_p2 : Point;
  seg_id : Id;
  seg_isInitial : option bool;
  seg_type : option LineType
}.

Definition shape (s : Segment) : SegmentShape :=
  {| p1 := seg_p1 s; p2 := seg_p2 s; type := seg_type s |}.
Coercion shape : Segment >-> SegmentShape.

(** [t || LineType.SEGMENT]: an absent type counts as SEGMENT. *)
Definition typeOrSegment (t : option LineType) : LineType :=
  match t with Some ty => ty | None => SEGMENT end.

(** ** Geometry kernel ([src/geometryUtils.ts]) *)

Definition EPSILON : float := 0.0001.
Definition GRID_MIN : float := 0.
Definition GRID_MAX : float := 6.

Definition checkConstraint (t : float) (ty : option LineType) : bool :=
  match typeOrSegment ty with
  | SEGMENT => (- EPSILON <=? t) && (t <=? 1 + EPSILON)
  | RAY => - EPSILON <=? t
  | LINE => true
  end.

(** The coordinates [getIntersection] works with, named as in the source. *)
Section Intersection.
Variables s1 s2 : SegmentShape.

Let x1 := x (p1 s1).
Let y1 := y (p1 s1).
Let x2 := x (p2 s1).
Let y2 := y (p2 s1).
Let x3 := x (p1 s2).
Let y3 := y (p1 s2).
Let x4 := x (p2 s2).
Let y4 := y (p2 s2).

Definition denom : float := (y4 - y3) * (x2 - x1) - (x4 - x3) * (y2 - y1).
Definition param_t : float := ((x4 - x3) * (y1 - y3) - (y4 - y3) * (x1 - x3)) / denom.
Definition param_u : float := ((x2 - x1) * (y1 - y3) - (y2 - y1) * (x1 - x3)) / denom.
Definition ix : float := x1 + param_t * (x2 - x1).
Definition iy : float := y1 + param_t * (y2 - y1).

Definition withinGrid : bool :=
  (GRID_MIN - EPSILON <=? ix) && (ix <=? GRID_MAX + EPSILON) &&
  (GRID_MIN - EPSILON <=? iy) && (iy <=? GRID_MAX + EPSILON).

(** [rand] is the value [Math.random()] returns for the identifier. *)
Definition getIntersection (rand : float) : option Point :=
  if abs denom <? EPSILON then None
  else if checkConstraint param_t (type s1) && checkConstraint param_u (type s2) then
    if withinGrid then
      Some {| pt := {| x := ix; y := iy |};
              id := IdInt rand;
              isIntersection := Some true;
              label := None;
              isInitial := None |}
    else None
  else None.
End Intersection.

Definition pointsEqual (a b : XY) : bool :=
  (abs (x a - x b) <? EPSILON) && (abs (y a - y b) <? EPSILON).

Section SegmentsEqual.
Variables s1 s2 : SegmentShape.

Definition rayDot : float :=
  let v1x := x (p2 s1) - x (p1 s1) in
  let v1y := y (p2 s1) - y (p1 s1) in
  let v2x := x (p2 s2) - x (p1 s2) in
  let v2y := y (p2 s2) - y (p1 s2) in
  let mag1 := sqrt (v1x * v1x + v1y * v1y) in
  let mag2 := sqrt (v2x * v2x + v2y * v2y) in
  (v1x * v2x + v1y * v2y) / (mag1 * mag2).

Definition crossProduct : float :=
  (x (p2 s1) - x (p1 s1)) * (y (p2 s2) - y (p1 s2))
  - (y (p2 s1) - y (p1 s1)) * (x (p2 s2) - x (p1 s2)).

Definition dist : float :=
  (x (p2 s1) - x (p1 s1)) * (y (p1 s2) - y (p1 s1))
  - (y (p2 s1) - y (p1 s1)) * (x (p1 s2) - x (p1 s1)).

Definition segmentsEqual : bool :=
  let typeMatch := LineType_eqb (typeOrSegment (type s1)) (typeOrSegment (type s2)) in
  if negb typeMatch then false
  else if LineType_eqb (typeOrSegment (type s1)) SEGMENT then
    (pointsEqual (p1 s1) (p1 s2) && pointsEqual (p2 s1) (p2 s2))
    || (pointsEqual (p1 s1) (p2 s2) && pointsEqual (p2 s1) (p1 s2))
  else
    match type s1 with
    | Some RAY =>
        if negb (pointsEqual (p1 s1) (p1 s2)) then false
        else abs (rayDot - 1) <? EPSILON
    | _ =>
        if EPSILON <? abs crossProduct then false
        else abs dist <? EPSILON
    end.
End SegmentsEqual.

Definition distSq (a b : XY) : float :=
  (x a - x b) * (x a - x b) + (y a - y b) * (y a - y b).

(** *** Clipping a line to the grid ([getGridClippedLine]) *)

(** [Math.max] and [Math.min]: NaN when an argument is NaN, and +0 ranks
    above -0. *)
Definition Math_max (a b : float) : float :=
  if is_nan a || is_nan b then nan
  else if a <? b then b
  else if b <? a then a
  else if get_sign a then b else a.

Definition Math_min (a b : float) : float :=
  if is_nan a || is_nan b then nan
  else if a <? b then a
  else if b <? a then b
  else if get_sign a then a else b.

(** One turn of the loop over [p] and [q], on the pair [(tMin, tMax)];
    [None] when the turn returns [{ start: p1, end: p1 }]. *)
Definition clipStep (acc : float * float) (pq : float * float) : option (float * float) :=
  let '(tMin, tMax) := acc in
  let '(p, q) := pq in
  if abs p <? EPSILON then
    if q <? 0 then None else Some (tMin, tMax)
  else
    let t := q / p in
    if p <? 0 then Some (if tMin <? t then t else tMin, tMax)
    else Some (tMin, if t <? tMax then t else tMax).

Fixpoint clipLoop (pqs : list (float * float)) (acc : float * float)
    : option (float * float) :=
  match pqs with
  | [] => Some acc
  | pq :: rest =>
      match clipStep acc pq with
      | None => None
      | Some acc' => clipLoop rest acc'
      end
  end.

(** The coordinates of the two ends, [None] when the loop has returned. *)
Definition clippedEnds (a b : XY) (ty : LineType) : option (XY * XY) :=
  let dx := x b - x a in
  let dy := y b - y a in
  let p := [- dx; dx; - dy; dy] in
  let q := [x a - GRID_MIN; GRID_MAX - x a; y a - GRID_MIN; GRID_MAX - y a] in
  match clipLoop (combine p q) (-1e9, 1e9) with
  | None => None
  | Some (tMin, tMax) =>
      let tMin' := match ty with SEGMENT | RAY => Math_max tMin 0 | LINE => tMin end in
      let tMax' := match ty with SEGMENT => Math_min tMax 1 | _ => tMax end in
      Some ({| x := x a + tMin' * dx; y := y a + tMin' * dy |},
            {| x := x a + tMax' * dx; y := y a + tMax' * dy |})
  end.

(** The result of [getGridClippedLine]: [Collapsed p] is [{ start: p, end: p }],
    and [Clip s e] is the pair of the new points at [s] and at [e], whose
    identifiers are ['clip-start'] and ['clip-end']. *)
Inductive Clipped :=
| Collapsed (p : Point)
| Clip (start stop : XY).

(** Of [p2] the function reads the coordinates only. *)
Definition getGridClippedLine (p1 : Point) (p2 : XY) (ty : LineType) : Clipped :=
  match clippedEnds p1 p2 ty with
  | None => Collapsed p1
  | Some (s, e) => Clip s e
  end.


(** ** Discoverable points ([allDiscoverablePoints] of [src/App.tsx]) *)

Definition GRID_SIZE : float := 7.
Definition SNAP_THRESHOLD : float := 0.4.
Definition DRAG_THRESHOLD_PX : float := 8.

(** The values a counter takes in [for (let k = start; k < bound; k++)]. *)
Fixpoint countUp (fuel : nat) (k bound : float) : list float :=
  match fuel with
  | O => []
  | S fuel' => if k <? bound then k :: countUp fuel' (k + 1) bound else []
  end.

(** The counter of [for (let k = 0; k < GRID_SIZE; k++)]; eight tests are
    made, the last one fails. *)
Definition gridRange : list float := countUp 8 0 GRID_SIZE.

(** The guard at the head of [addPoint]. *)
Definition outOfGrid (px py : float) : bool :=
  (px <? - EPSILON) || (GRID_SIZE - 1 + EPSILON <? px) ||
  (py <? - EPSILON) || (GRID_SIZE - 1 + EPSILON <? py).

(** The closure [addPoint], with the array [points] it pushes to passed in
    and out. *)
Definition addPoint (px py : float) (source : string) (points : list Point) : list Point :=
  if outOfGrid px py then points
  else
    let p := {| x := px; y := py |} in
    match find (fun existing : Point => pointsEqual existing p) points with
    | Some _ => points
    | None =>
        points ++ [ {| pt := p;
                       id := IdPotential source (length points);
                       isIntersection := Some true;
                       label := None;
                       isInitial := None |} ]
    end.

(** [for x ... for y ... addPoint(x, y, 'grid')]. *)
Definition addGrid (points : list Point) : list Point :=
  fold_left (fun pts gx =>
               fold_left (fun pts' gy => addPoint gx gy "grid" pts') gridRange pts)
            gridRange points.

(** [type === SEGMENT ? (t >= -EPSILON && t <= 1 + EPSILON)
                      : (type === RAY ? t >= -EPSILON : true)]. *)
Definition validParam (ty : LineType) (t : float) : bool :=
  match ty with
  | SEGMENT => (- EPSILON <=? t) && (t <=? 1 + EPSILON)
  | RAY => - EPSILON <=? t
  | LINE => true
  end.

(** One turn of the first [k] loop: the crossing with the vertical gridline
    [x = k]. *)
Definition addVertical (s : Segment) (points : list Point) (k : float) : list Point :=
  let ty := typeOrSegment (seg_type s) in
  let dx := x (seg_p2 s) - x (seg_p1 s) in
  let dy := y (seg_p2 s) - y (seg_p1 s) in
  if EPSILON <? abs dx then
    let t := (k - x (seg_p1 s)) / dx in
    if validParam ty t then addPoint k (y (seg_p1 s) + t * dy) "seg-grid-v" points
    else points
  else points.

(** One turn of the second [k] loop: the crossing with the horizontal gridline
    [y = k]. *)
Definition addHorizontal (s : Segment) (points : list Point) (k : float) : list Point :=
  let ty := typeOrSegment (seg_type s) in
  let dx := x (seg_p2 s) - x (seg_p1 s) in
  let dy := y (seg_p2 s) - y (seg_p1 s) in
  if EPSILON <? abs dy then
    let t := (k - y (seg_p1 s)) / dy in
    if validParam ty t then addPoint (x (seg_p1 s) + t * dx) k "seg-grid-h" points
    else points
  else points.

Section Discover.
(** [rand idx j] is what [Math.random()] returns inside
    [getIntersection(segments[idx], segments[j])]. *)
Variable rand : nat -> nat -> float.

(** [for (let j = idx + 1; j < segments.length; j++)]: [later] holds
    [segments[j], segments[j+1], ...]. *)
Fixpoint addCrossings (s : Segment) (idx j : nat) (later : list Segment)
    (points : list Point) : list Point :=
  match later with
  | [] => points
  | sj :: later' =>
      let points' :=
        match getIntersection s sj (rand idx j) with
        | Some crossing => addPoint (x crossing) (y crossing) "seg-seg" points
        | None => points
        end in
      addCrossings s idx (S j) later' points'
  end.

(** The body of [segments.forEach((s, idx) => ...)]. *)
Definition visitSegment (s : Segment) (idx : nat) (later : list Segment)
    (points : list Point) : list Point :=
  let points1 := addCrossings s idx (S idx) later points in
  let points2 := fold_left (addVertical s) gridRange points1 in
  fold_left (addHorizontal s) gridRange points2.

(** [segments.forEach] from index [idx] on. *)
Fixpoint forEachSegment (idx : nat) (segs : list Segment) (points : list Point)
    : list Point :=
  match segs with
  | [] => points
  | s :: later => forEachSegment (S idx) later (visitSegment s idx later points)
  end.

Definition allDiscoverablePoints (segments : list Segment) : list Point :=
  forEachSegment 0 segments (addGrid []).
End Discover.

(** ** Levels ([interface LevelConfig]) *)

(** An initial point [{ x, y, label? }]. *)
Record InitialPoint := mkInitialPoint { ip_xy :> XY; ip_label : option string }.

Record LevelInitial := mkInitial {
  initial_points : option (list InitialPoint);
  initial_segments : option (list SegmentShape)
}.

Record LevelGoals := mkGoals {
  goals_points : option (list XY);
  goals_segments : option (list SegmentShape)
}.

(** [title] and [description] are display text and are left out.  [goals] is
    an [option] because the program tests for its absence
    ([!currentLevel?.goals]). *)
Record LevelConfig := mkLevel {
  level_id : Z;
  level_lineType : option LineType;
  initial : LevelInitial;
  goals : option LevelGoals
}.

(** ** The play screen ([src/App.tsx]) *)

Record HistoryState := mkHistoryState {
  hs_points : list Point;
  hs_segments : list Segment
}.

(** The React state of [App] that the board uses. *)
Record AppState := mkApp {
  visiblePoints : list Point;
  segments : list Segment;
  history : list HistoryState;
  historyIndex : Z;
  isLevelCleared : bool;
  clearedLevelIds : list Z;
  dragStartPoint : option Point;
  dragSnapPoint : option Point;
  currentMousePos : option XY;
  startMouseScreenPos : option XY;
  isActuallyDragging : bool
}.

(** The arguments of the [useState] calls. *)
Definition initialAppState : AppState :=
  {| visiblePoints := []; segments := [];
     history := []; historyIndex := (-1)%Z;
     isLevelCleared := false; clearedLevelIds := [];
     dragStartPoint := None; dragSnapPoint := None;
     currentMousePos := None; startMouseScreenPos := None;
     isActuallyDragging := false |}.

(** [arr[i]] for an integral [i]: [undefined] out of range. *)
Definition index {A} (arr : list A) (i : Z) : option A :=
  if (i <? 0)%Z then None else nth_error arr (Z.to_nat i).

(** [arr.slice(0, end)] for an integral [end]; a negative [end] counts from
    the end of the array. *)
Definition slice0 {A} (arr : list A) (stop : Z) : list A :=
  let len := Z.of_nat (length arr) in
  let k := if (stop <? 0)%Z then Z.max (len + stop) 0 else Z.min stop len in
  firstn (Z.to_nat k) arr.

(** [arr.map((v, i) => f(v, i))]. *)
Fixpoint mapi_from {A B} (i : nat) (f : A -> nat -> B) (arr : list A) : list B :=
  match arr with
  | [] => []
  | v :: rest => f v i :: mapi_from (S i) f rest
  end.

Definition mapi {A B} (f : A -> nat -> B) (arr : list A) : list B := mapi_from 0 f arr.

(** [opt || []]. *)
Definition orEmpty {A} (opt : option (list A)) : list A :=
  match opt with Some l => l | None => [] end.

Definition isDefined {A} (opt : option A) : bool :=
  match opt with Some _ => true | None => false end.

Definition resetInteraction (st : AppState) : AppState :=
  {| visiblePoints := visiblePoints st; segments := segments st;
     history := history st; historyIndex := historyIndex st;
     isLevelCleared := isLevelCleared st; clearedLevelIds := clearedLevelIds st;
     dragStartPoint := None; dragSnapPoint := None;
     currentMousePos := None; startMouseScreenPos := None;
     isActuallyDragging := false |}.

Definition commitToHistory (newPoints : list Point) (newSegments : list Segment)
    (st : AppState) : AppState :=
  let newState := {| hs_points := newPoints; hs_segments := newSegments |} in
  {| visiblePoints := newPoints; segments := newSegments;
     history := slice0 (history st) (historyIndex st + 1) ++ [newState];
     historyIndex := (historyIndex st + 1)%Z;
     isLevelCleared := isLevelCleared st; clearedLevelIds := clearedLevelIds st;
     dragStartPoint := dragStartPoint st; dragSnapPoint := dragSnapPoint st;
     currentMousePos := currentMousePos st;
     startMouseScreenPos := startMouseScreenPos st;
     isActuallyDragging := isActuallyDragging st |}.

(** [history[i]] is read after [setHistoryIndex(i)]; when it is [undefined]
    the read of [state.points] throws and only the index update stands. *)
Definition moveTo (i : Z) (st : AppState) (cleared : bool) : AppState :=
  match index (history st) i with
  | Some state =>
      {| visiblePoints := hs_points state; segments := hs_segments state;
         history := history st; historyIndex := i;
         isLevelCleared := cleared; clearedLevelIds := clearedLevelIds st;
         dragStartPoint := dragStartPoint st; dragSnapPoint := dragSnapPoint st;
         currentMousePos := currentMousePos st;
         startMouseScreenPos := startMouseScreenPos st;
         isActuallyDragging := isActuallyDragging st |}
  | None =>
      {| visiblePoints := visiblePoints st; segments := segments st;
         history := history st; historyIndex := i;
         isLevelCleared := isLevelCleared st; clearedLevelIds := clearedLevelIds st;
         dragStartPoint := dragStartPoint st; dragSnapPoint := dragSnapPoint st;
         currentMousePos := currentMousePos st;
         startMouseScreenPos := startMouseScreenPos st;
         isActuallyDragging := isActuallyDragging st |}
  end.

(** [undo]: the last statement of its body is [setIsLevelCleared(false)]. *)
Definition undo (st : AppState) : AppState :=
  if (0 <? historyIndex st)%Z then
    let prevIndex := (historyIndex st - 1)%Z in
    moveTo prevIndex st false
  else st.

Definition redo (st : AppState) : AppState :=
  if (historyIndex st <? Z.of_nat (length (history st)) - 1)%Z then
    let nextIndex := (historyIndex st + 1)%Z in
    moveTo nextIndex st (isLevelCleared st)
  else st.

Section App.
(** The level on the board: [allLevels[levelIndex]], a defined level since
    the board and its handlers exist only then. *)
Variable currentLevel : LevelConfig.
(** The values of [Math.random()], see [addCrossings]. *)
Variable rand : nat -> nat -> float.

Definition initPoints : list Point :=
  mapi (fun (p : InitialPoint) i =>
          {| pt := {| x := x p; y := y p |};
             id := IdInit_p i;
             isIntersection := None;
             label := ip_label p;
             isInitial := Some true |})
       (orEmpty (initial_points (initial currentLevel))).

Definition initSegments : list Segment :=
  mapi (fun (s : SegmentShape) i =>
          {| seg_p1 := {| pt := {| x := x (p1 s); y := y (p1 s) |};
                          id := IdInit_s_p1 i;
                          isIntersection := None; label := None; isInitial := None |};
             seg_p2 := {| pt := {| x := x (p2 s); y := y (p2 s) |};
                          id := IdInit_s_p2 i;
                          isIntersection := None; label := None; isInitial := None |};
             seg_id := IdInit_s i;
             seg_isInitial := Some true;
             seg_type := Some (typeOrSegment (type s)) |})
       (orEmpty (initial_segments (initial currentLevel))).

Definition startState : HistoryState :=
  {| hs_points := initPoints; hs_segments := initSegments |}.

Definition resetLevel (st : AppState) : AppState :=
  {| visiblePoints := initPoints; segments := initSegments;
     history := [startState]; historyIndex := 0%Z;
     isLevelCleared := false; clearedLevelIds := clearedLevelIds st;
     dragStartPoint := None; dragSnapPoint := None;
     currentMousePos := None; startMouseScreenPos := None;
     isActuallyDragging := false |}.

(** *** Goal evaluation (the effect on [segments], [visiblePoints], ...) *)

(** [!goals.points || goals.points.every(gp => visiblePoints.some(...))]. *)
Definition pointsCleared (g : LevelGoals) (vps : list Point) : bool :=
  match goals_points g with
  | None => true
  | Some gps => forallb (fun gp => existsb (fun vp : Point => pointsEqual vp gp) vps) gps
  end.

Definition segmentsCleared (g : LevelGoals) (segs : list Segment) : bool :=
  match goals_segments g with
  | None => true
  | Some gss => forallb (fun gs => existsb (fun s : Segment => segmentsEqual s gs) segs) gss
  end.

(** The condition of the [if] that sets the flag; an array, even an empty
    one, is truthy in [goals.points || goals.segments]. *)
Definition goalReached (g : LevelGoals) (vps : list Point) (segs : list Segment) : bool :=
  pointsCleared g vps && segmentsCleared g segs
  && (isDefined (goals_points g) || isDefined (goals_segments g)).

(** What one evaluation decides for a board, the guard on [goals] included. *)
Definition evaluateGoal (vps : list Point) (segs : list Segment) : bool :=
  match goals currentLevel with
  | None => false
  | Some g => goalReached g vps segs
  end.

Definition includes (ids : list Z) (i : Z) : bool := existsb (Z.eqb i) ids.

Definition goalEffect (st : AppState) : AppState :=
  match goals currentLevel with
  | None => st
  | Some g =>
      if isLevelCleared st then st
      else if goalReached g (visiblePoints st) (segments st) then
        {| visiblePoints := visiblePoints st; segments := segments st;
           history := history st; historyIndex := historyIndex st;
           isLevelCleared := true;
           clearedLevelIds :=
             if negb (includes (clearedLevelIds st) (level_id currentLevel))
             then clearedLevelIds st ++ [level_id currentLevel]
             else clearedLevelIds st;
           dragStartPoint := dragStartPoint st; dragSnapPoint := dragSnapPoint st;
           currentMousePos := currentMousePos st;
           startMouseScreenPos := startMouseScreenPos st;
           isActuallyDragging := isActuallyDragging st |}
      else st
  end.

(** *** Pointer handlers *)

Definition findNearestPoint (gridX gridY : float) (st : AppState) : option Point :=
  let candidates := visiblePoints st ++ allDiscoverablePoints rand (segments st) in
  fst (fold_left
         (fun (acc : option Point * float) (p : Point) =>
            let d := sqrt (distSq p {| x := gridX; y := gridY |}) in
            if d <? snd acc then (Some p, d) else acc)
         candidates (None, SNAP_THRESHOLD)).

(** [coords] is what [getGridCoords] returns for the event: the translation
    from the screen is the browser's. *)
Definition handleMouseDown (clientX clientY : float) (coords : XY) (st : AppState)
    : AppState :=
  if isLevelCleared st then st
  else
    match findNearestPoint (x coords) (y coords) st with
    | Some startPoint =>
        {| visiblePoints := visiblePoints st; segments := segments st;
           history := history st; historyIndex := historyIndex st;
           isLevelCleared := isLevelCleared st; clearedLevelIds := clearedLevelIds st;
           dragStartPoint := Some startPoint; dragSnapPoint := dragSnapPoint st;
           currentMousePos := currentMousePos st;
           startMouseScreenPos := Some {| x := clientX; y := clientY |};
           isActuallyDragging := false |}
    | None => st
    end.

Definition handleMouseMove (clientX clientY : float) (coords : XY) (st : AppState)
    : AppState :=
  let far :=
    match dragStartPoint st, startMouseScreenPos st with
    | Some _, Some start =>
        let dx := clientX - x start in
        let dy := clientY - y start in
        DRAG_THRESHOLD_PX <? sqrt (dx * dx + dy * dy)
    | _, _ => false
    end in
  {| visiblePoints := visiblePoints st; segments := segments st;
     history := history st; historyIndex := historyIndex st;
     isLevelCleared := isLevelCleared st; clearedLevelIds := clearedLevelIds st;
     dragStartPoint := dragStartPoint st;
     dragSnapPoint :=
       if far then findNearestPoint (x coords) (y coords) st else dragSnapPoint st;
     currentMousePos := Some coords;
     startMouseScreenPos := startMouseScreenPos st;
     isActuallyDragging := if far then true else isActuallyDragging st |}.

(** [{ ...p, id: newId, isIntersection: true }]. *)
Definition revealed (p : Point) (newId : Id) : Point :=
  {| pt := pt p; id := newId; isIntersection := Some true;
     label := label p; isInitial := isInitial p |}.

(** [if (!arr.find(vp => pointsEqual(vp, p))) arr.push(q)]. *)
Definition pushUnlessPresent (arr : list Point) (p q : Point) : list Point :=
  match find (fun vp : Point => pointsEqual vp p) arr with
  | Some _ => arr
  | None => arr ++ [q]
  end.

(** [now] is what [Date.now()] returns during the handler. *)
Definition handleMouseUp (coords : XY) (now : Z) (st : AppState) : AppState :=
  match dragStartPoint st with
  | None => resetInteraction st
  | Some dragStart =>
      let endPoint := findNearestPoint (x coords) (y coords) st in
      let st' :=
        if isActuallyDragging st then
          match endPoint with
          | Some endP =>
              if negb (pointsEqual dragStart endP) then
                let lineType := typeOrSegment (level_lineType currentLevel) in
                let drawn := {| p1 := dragStart; p2 := endP; type := Some lineType |} in
                if negb (existsb (fun s : Segment => segmentsEqual s drawn) (segments st)) then
                  let newPoints0 := visiblePoints st in
                  let newPoints1 :=
                    pushUnlessPresent newPoints0 dragStart (revealed dragStart (IdRevealed_s now)) in
                  let newPoints2 :=
                    pushUnlessPresent newPoints1 endP (revealed endP (IdRevealed_e now)) in
                  commitToHistory newPoints2
                    (segments st ++ [ {| seg_p1 := dragStart; seg_p2 := endP;
                                         seg_id := IdSeg now;
                                         seg_isInitial := None;
                                         seg_type := Some lineType |} ])
                    st
                else st
              else st
          | None => st
          end
        else
          match findNearestPoint (x coords) (y coords) st with
          | Some p =>
              match find (fun vp : Point => pointsEqual vp p) (visiblePoints st) with
              | None => commitToHistory (visiblePoints st ++ [revealed p (IdRevealed now)])
                                        (segments st) st
              | Some _ => st
              end
          | None => st
          end in
      resetInteraction st'
  end.

(** *** Transitions *)

Inductive Event :=
| Reset
| Undo
| Redo
| MouseDown (clientX clientY : float) (coords : XY)
| MouseMove (clientX clientY : float) (coords : XY)
| MouseUp (coords : XY) (now : Z)
| MouseLeave.

Definition handle (e : Event) (st : AppState) : AppState :=
  match e with
  | Reset => resetLevel st
  | Undo => undo st
  | Redo => redo st
  | MouseDown cx cy coords => handleMouseDown cx cy coords st
  | MouseMove cx cy coords => handleMouseMove cx cy coords st
  | MouseUp coords now => handleMouseUp coords now st
  | MouseLeave => resetInteraction st
  end.

(** An action is a user event or, for the history on its own, a commit of an
    arbitrary snapshot. *)
Inductive Action :=
| User (e : Event)
| Commit (newPoints : list Point) (newSegments : list Segment).

Definition perform (a : Action) (st : AppState) : AppState :=
  match a with
  | User e => handle e st
  | Commit newPoints newSegments => commitToHistory newPoints newSegments st
  end.

(** A handler runs, React renders, and the goal effect runs on the result. *)
Definition step (a : Action) (st : AppState) : AppState := goalEffect (perform a st).

Definition run (acts : list Action) (st : AppState) : AppState :=
  fold_left (fun s a => step a s) acts st.

(** The render in which [currentLevel] has changed runs two effects in turn,
    both on the state [st0] of that render: the one that calls [resetLevel],
    then the goal effect, whose updates are queued behind those of
    [resetLevel]. *)
Definition changeLevel (st0 : AppState) : AppState :=
  let st1 := resetLevel st0 in
  let stale := goalEffect st0 in
  if negb (isLevelCleared st0) && isLevelCleared stale then
    {| visiblePoints := visiblePoints st1; segments := segments st1;
       history := history st1; historyIndex := historyIndex st1;
       isLevelCleared := true; clearedLevelIds := clearedLevelIds stale;
       dragStartPoint := dragStartPoint st1; dragSnapPoint := dragSnapPoint st1;
       currentMousePos := currentMousePos st1;
       startMouseScreenPos := startMouseScreenPos st1;
       isActuallyDragging := isActuallyDragging st1 |}
  else st1.

(** The states a level visit goes through.  It starts when the play screen
    opens on the level ([reach_load]) or when the level on the board changes
    ([reach_change]); [allowed] restricts the actions that follow. *)
Inductive reachableBy (allowed : Action -> Prop) : AppState -> Prop :=
| reach_load (st0 : AppState) :
    reachableBy allowed (step (User Reset) st0)
| reach_change (st0 : AppState) :
    reachableBy allowed (goalEffect (changeLevel st0))
| reach_step (a : Action) (st : AppState) :
    allowed a -> reachableBy allowed st -> reachableBy allowed (step a st).

Definition isUser (a : Action) : Prop := exists e, a = User e.

(** States reached through the user interface alone. *)
Definition reachable : AppState -> Prop := reachableBy isUser.
(** States reached when commits of any snapshot are allowed as well. *)
Definition reachableAny : AppState -> Prop := reachableBy (fun _ => True).
End App.

(** ** Choosing the level to play ([startGroup] of [src/App.tsx]) *)

(** [interface LevelGroup]; [name] is display text and is left out. *)
Record LevelGroup := mkGroup { group_id : Z; group_levels : list LevelConfig }.

(** [levelGroups.flatMap(group => group.levels)]. *)
Definition allLevels (levelGroups : list LevelGroup) : list LevelConfig :=
  flat_map group_levels levelGroups.

(** [arr.findIndex(f)], counting from [i]: -1 when no element passes. *)
Fixpoint findIndex_from {A} (f : A -> bool) (i : Z) (arr : list A) : Z :=
  match arr with
  | [] => (-1)%Z
  | v :: rest => if f v then i else findIndex_from f (i + 1) rest
  end.

Definition findIndex {A} (f : A -> bool) (arr : list A) : Z := findIndex_from f 0 arr.

(** The test of the first [findIndex]: the level is one of the group, by its
    identifier, and is not cleared yet. *)
Definition unfinishedIn (group : LevelGroup) (clearedLevelIds : list Z)
    (l : LevelConfig) : bool :=
  existsb (fun gl => (level_id gl =? level_id l)%Z) (group_levels group)
  && negb (includes clearedLevelIds (level_id l)).

(** The second [findIndex] of [startGroup],
    [allLevels.findIndex(l => l.id === group.levels[0].id)].  The callback
    reads [group.levels[0].id], which throws when the group has no level:
    [None].  With no level at all the callback is never called and the result
    is -1. *)
Definition firstLevelIndex (levelGroups : list LevelGroup) (group : LevelGroup)
    : option Z :=
  match allLevels levelGroups, group_levels group with
  | [], _ => Some (-1)%Z
  | _ :: _, [] => None
  | _ :: _, first :: _ =>
      Some (findIndex (fun l => (level_id l =? level_id first)%Z)
                      (allLevels levelGroups))
  end.

(** The argument of [setLevelIndex] in [startGroup]; [None] when the
    evaluation throws. *)
Definition startGroup (levelGroups : list LevelGroup) (clearedLevelIds : list Z)
    (group : LevelGroup) : option Z :=
  let firstUnfinishedIndex :=
    findIndex (unfinishedIn group clearedLevelIds) (allLevels levelGroups) in
  if negb (firstUnfinishedIndex =? -1)%Z then Some firstUnfinishedIndex
  else firstLevelIndex levelGroups group.

(** ** The level editor *)

(** [Math.round] on binary64: the nearest integer, a tie going up; a result
    that is zero keeps the sign of the argument. *)
Definition Math_round (v : float) : float :=
  match Prim2SF v with
  | S754_finite s m e =>
      if (0 <=? e)%Z then v
      else
        let n := cond_Zopp s (Zpos m) in
        let d := Z.pow 2 (- e) in
        let r := Z.div (2 * n + d) (2 * d) in
        if (r =? 0)%Z then (if s then neg_zero else zero)
        else SF2Prim (binary_normalize prec emax r 0 false)
  | _ => v
  end.

(** [a === b] on identifiers: equality of the strings. *)
Definition Id_eqb (a b : Id) : bool :=
  match a, b with
  | IdInit_p i, IdInit_p j | IdInit_s_p1 i, IdInit_s_p1 j
  | IdInit_s_p2 i, IdInit_s_p2 j | IdInit_s i, IdInit_s j => Nat.eqb i j
  | IdInt r, IdInt r' => Leibniz.eqb r r'
  | IdPotential s n, IdPotential s' n' => String.eqb s s' && Nat.eqb n n'
  | IdRevealed_s t, IdRevealed_s t' | IdRevealed_e t, IdRevealed_e t'
  | IdRevealed t, IdRevealed t' | IdSeg t, IdSeg t'
  | IdP t, IdP t' | IdP_end t, IdP_end t' | IdS t, IdS t' => Z.eqb t t'
  | _, _ => false
  end.

Module LevelEditor.

Inductive EditLayer := initial_layer | goal_layer.
Inductive EditShape := point_shape | line_shape.
Inductive ItemKind := kind_ip | kind_is | kind_gp | kind_gs.

(** The React state of [LevelEditor]; [title] and [description] are left
    out. *)
Record EditorState := mkEditor {
  levelId : Z;
  defaultLineType : LineType;
  editLayer : EditLayer;
  editShape : EditShape;
  lineType : LineType;
  initialPoints : list Point;
  initialSegments : list Segment;
  goalPoints : list Point;
  goalSegments : list Segment;
  dragStart : option Point;
  mousePos : option XY
}.

Definition initialEditorState : EditorState :=
  {| levelId := 101; defaultLineType := SEGMENT;
     editLayer := initial_layer; editShape := point_shape; lineType := SEGMENT;
     initialPoints := []; initialSegments := [];
     goalPoints := []; goalSegments := [];
     dragStart := None; mousePos := None |}.

Definition snap (gridX gridY : float) : option XY :=
  let rx := Math_round gridX in
  let ry := Math_round gridY in
  if (abs (gridX - rx) <? SNAP_THRESHOLD) && (abs (gridY - ry) <? SNAP_THRESHOLD)
  then Some {| x := rx; y := ry |}
  else None.

Definition plainPoint (c : XY) (i : Id) : Point :=
  {| pt := c; id := i; isIntersection := None; label := None; isInitial := None |}.

Definition setContents (st : EditorState) (ips : list Point) (iss : list Segment)
    (gps : list Point) (gss : list Segment) (drag : option Point) : EditorState :=
  {| levelId := levelId st; defaultLineType := defaultLineType st;
     editLayer := editLayer st; editShape := editShape st; lineType := lineType st;
     initialPoints := ips; initialSegments := iss;
     goalPoints := gps; goalSegments := gss;
     dragStart := drag; mousePos := mousePos st |}.

Definition handleMouseDown (coords : XY) (now : Z) (st : EditorState) : EditorState :=
  match snap (x coords) (y coords) with
  | None => st
  | Some snapped =>
      let p := plainPoint snapped (IdP now) in
      match editShape st with
      | point_shape =>
          match editLayer st with
          | initial_layer =>
              match find (fun q : Point => pointsEqual q p) (initialPoints st) with
              | None => setContents st (initialPoints st ++ [p]) (initialSegments st)
                                    (goalPoints st) (goalSegments st) (dragStart st)
              | Some _ => st
              end
          | goal_layer =>
              match find (fun q : Point => pointsEqual q p) (goalPoints st) with
              | None => setContents st (initialPoints st) (initialSegments st)
                                    (goalPoints st ++ [p]) (goalSegments st) (dragStart st)
              | Some _ => st
              end
          end
      | line_shape =>
          setContents st (initialPoints st) (initialSegments st)
                      (goalPoints st) (goalSegments st) (Some p)
      end
  end.

Definition handleMouseMove (coords : XY) (st : EditorState) : EditorState :=
  {| levelId := levelId st; defaultLineType := defaultLineType st;
     editLayer := editLayer st; editShape := editShape st; lineType := lineType st;
     initialPoints := initialPoints st; initialSegments := initialSegments st;
     goalPoints := goalPoints st; goalSegments := goalSegments st;
     dragStart := dragStart st; mousePos := Some coords |}.

Definition handleMouseUp (coords : XY) (now : Z) (st : EditorState) : EditorState :=
  let st' :=
    match editShape st, dragStart st with
    | line_shape, Some start =>
        match snap (x coords) (y coords) with
        | Some snapped =>
            if negb (pointsEqual start snapped) then
              let seg := {| seg_p1 := start;
                            seg_p2 := plainPoint snapped (IdP_end now);
                            seg_id := IdS now;
                            seg_isInitial := None;
                            seg_type := Some (lineType st) |} in
              match editLayer st with
              | initial_layer =>
                  setContents st (initialPoints st) (initialSegments st ++ [seg])
                              (goalPoints st) (goalSegments st) (dragStart st)
              | goal_layer =>
                  setContents st (initialPoints st) (initialSegments st)
                              (goalPoints st) (goalSegments st ++ [seg]) (dragStart st)
              end
            else st
        | None => st
        end
    | _, _ => st
    end in
  setContents st' (initialPoints st') (initialSegments st')
              (goalPoints st') (goalSegments st') None.

Definition removeItem (kind : ItemKind) (i : Id) (st : EditorState) : EditorState :=
  let keepP := filter (fun p : Point => negb (Id_eqb (id p) i)) in
  let keepS := filter (fun s : Segment => negb (Id_eqb (seg_id s) i)) in
  setContents st
    (match kind with kind_ip => keepP (initialPoints st) | _ => initialPoints st end)
    (match kind with kind_is => keepS (initialSegments st) | _ => initialSegments st end)
    (match kind with kind_gp => keepP (goalPoints st) | _ => goalPoints st end)
    (match kind with kind_gs => keepS (goalSegments st) | _ => goalSegments st end)
    (dragStart st).

(** The controls of the side bar and of the tool bar. *)
Definition setMode (layer : EditLayer) (shp : EditShape) (ty dflt : LineType) (lid : Z)
    (st : EditorState) : EditorState :=
  {| levelId := lid; defaultLineType := dflt;
     editLayer := layer; editShape := shp; lineType := ty;
     initialPoints := initialPoints st; initialSegments := initialSegments st;
     goalPoints := goalPoints st; goalSegments := goalSegments st;
     dragStart := dragStart st; mousePos := mousePos st |}.

Definition exportSegment (s : Segment) : SegmentShape :=
  {| p1 := {| x := x (seg_p1 s); y := y (seg_p1 s) |};
     p2 := {| x := x (seg_p2 s); y := y (seg_p2 s) |};
     type := seg_type s |}.

(** The object [config] that [generatedJson] serialises. *)
Definition config (st : EditorState) : LevelConfig :=
  {| level_id := levelId st;
     level_lineType := Some (defaultLineType st);
     initial :=
       {| initial_points :=
            Some (map (fun p : Point =>
                         {| ip_xy := {| x := x p; y := y p |}; ip_label := None |})
                      (initialPoints st));
          initial_segments := Some (map exportSegment (initialSegments st)) |};
     goals :=
       Some {| goals_points := Some (map (fun p : Point => {| x := x p; y := y p |})
                                         (goalPoints st));
               goals_segments := Some (map exportSegment (goalSegments st)) |} |}.

Inductive Event :=
| MouseDown (coords : XY) (now : Z)
| MouseMove (coords : XY)
| MouseUp (coords : XY) (now : Z)
| Remove (kind : ItemKind) (i : Id)
| SetMode (layer : EditLayer) (shp : EditShape) (ty dflt : LineType) (lid : Z).

Definition handle (e : Event) (st : EditorState) : EditorState :=
  match e with
  | MouseDown coords now => handleMouseDown coords now st
  | MouseMove coords => handleMouseMove coords st
  | MouseUp coords now => handleMouseUp coords now st
  | Remove kind i => removeItem kind i st
  | SetMode layer shp ty dflt lid => setMode layer shp ty dflt lid st
  end.

Inductive reachable : EditorState -> Prop :=
| reach_init : reachable initialEditorState
| reach_step (e : Event) (st : EditorState) : reachable st -> reachable (handle e st).

End LevelEditor.

(** ** What the interface exposes, and the predicates of the properties *)

(** [disabled={historyIndex <= 0}] on the undo button and
    [disabled={historyIndex >= history.length - 1}] on the redo button. *)
Definition undoDisabled (st : AppState) : bool := (historyIndex st <=? 0)%Z.
Definition redoDisabled (st : AppState) : bool :=
  (Z.of_nat (length (history st)) - 1 <=? historyIndex st)%Z.

(** The board as a snapshot. *)
Definition board (st : AppState) : HistoryState :=
  {| hs_points := visiblePoints st; hs_segments := segments st |}.

(** The cursor is a valid index, the first snapshot is the start of the
    level, and the board shows the snapshot under the cursor. *)
Definition historyInvariant (lvl : LevelConfig) (st : AppState) : Prop :=
  (0 <= historyIndex st < Z.of_nat (length (history st)))%Z
  /\ index (history st) 0 = Some (startState lvl)
  /\ index (history st) (historyIndex st) = Some (board st).

(** A line whose two end points are not the same point. *)
Definition nonDegenerate (s : SegmentShape) : Prop :=
  pointsEqual (p1 s) (p2 s) = false.

(** Commit, undo and redo, from the user or not. *)
Definition historyAction (a : Action) : Prop :=
  match a with
  | Commit _ _ | User Undo | User Redo => True
  | _ => False
  end.

(** Every action but undo and reset. *)
Definition keepsFlag (a : Action) : Prop :=
  match a with
  | User Undo | User Reset => False
  | _ => True
  end.

(** A goal point is matched by a board point, a goal line by a board line. *)
Definition pointMatched (vps : list Point) (gp : XY) : Prop :=
  exists vp : Point, In vp vps /\ pointsEqual vp gp = true.

Definition lineMatched (segs : list Segment) (gs : SegmentShape) : Prop :=
  exists s : Segment, In s segs /\ segmentsEqual s gs = true.

(** The statement that a set flag survives every sequence of commits, undos
    and redos. *)
Definition clearedIsSticky (lvl : LevelConfig) (rand : nat -> nat -> float) : Prop :=
  forall st, reachable lvl rand st -> isLevelCleared st = true ->
  forall acts, Forall historyAction acts ->
  isLevelCleared (run lvl rand acts st) = true.

(** Every line on the board and in the history has two distinct end points. *)
Definition linesNonDegenerate (st : AppState) : Prop :=
  Forall (fun s : Segment => nonDegenerate s) (segments st)
  /\ Forall (fun h => Forall (fun s : Segment => nonDegenerate s) (hs_segments h))
            (history st).

(** The coordinates and the type a line of the board was authored with. *)
Definition authored (s : SegmentShape) : XY * XY * LineType :=
  (p1 s, p2 s, typeOrSegment (type s)).

(** ** Boards used in the examples *)

Definition noRandom : nat -> nat -> float := fun _ _ => 0.5.

Definition at_ (a b : float) : XY := {| x := a; y := b |}.

(** The level of the end-to-end example of the specification: the points
    (0,0) and (6,6) are given, the goal is the segment between them. *)
Definition levelDiagonal : LevelConfig :=
  {| level_id := 1;
     level_lineType := Some SEGMENT;
     initial := {| initial_points := Some [ {| ip_xy := at_ 0 0; ip_label := None |};
                                            {| ip_xy := at_ 6 6; ip_label := None |} ];
                   initial_segments := None |};
     goals := Some {| goals_points := None;
                      goals_segments := Some [ {| p1 := at_ 0 0; p2 := at_ 6 6;
                                                  type := Some SEGMENT |} ] |} |}.

(** A level whose goal is the point (1,1). *)
Definition levelCorner : LevelConfig :=
  {| level_id := 2;
     level_lineType := None;
     initial := {| initial_points := Some [ {| ip_xy := at_ 0 0; ip_label := None |} ];
                   initial_segments := None |};
     goals := Some {| goals_points := Some [ at_ 1 1 ]; goals_segments := None |} |}.

(** The button goes down and up at the same place. *)
Definition click (c : XY) (now : Z) : list Action :=
  [ User (MouseDown 0 0 c); User (MouseUp c now) ].

(** The button goes down at [a], the pointer moves to [b], 300 pixels away
    on the screen, and the button goes up there. *)
Definition drag (a b : XY) (now : Z) : list Action :=
  [ User (MouseDown 0 0 a); User (MouseMove 300 0 b); User (MouseUp b now) ].

(** The level is loaded and three points are revealed. *)
Definition threeReveals : AppState :=
  run levelDiagonal noRandom
      (User Reset :: click (at_ 1 1) 10 ++ click (at_ 2 2) 20 ++ click (at_ 3 3) 30)
      initialAppState.

(** Then one undo: the cursor is on index 2 of four snapshots. *)
Definition twoOfFour : AppState := step levelDiagonal noRandom (User Undo) threeReveals.

(** [levelDiagonal] with the line tool in place of the segment tool. *)
Definition levelDiagonalAsLine : LevelConfig :=
  {| level_id := 3;
     level_lineType := Some LINE;
     initial := initial levelDiagonal;
     goals := goals levelDiagonal |}.

(** A level with two given segments that cross off the grid vertices; the
    goal is their crossing, the tool is the ray. *)
Definition levelCross : LevelConfig :=
  {| level_id := 4;
     level_lineType := Some RAY;
     initial := {| initial_points := None;
                   initial_segments :=
                     Some [ {| p1 := at_ 0 0; p2 := at_ 3 6; type := Some SEGMENT |};
                            {| p1 := at_ 0 2; p2 := at_ 2 0; type := None |} ] |};
     goals := Some {| goals_points := Some [ at_ 0.66667 1.33333 ];
                      goals_segments := None |} |}.

(** The level is loaded and the diagonal is drawn from (0,0) to (6,6). *)
Definition diagonalDrawn (lvl : LevelConfig) : AppState :=
  run lvl noRandom (User Reset :: drag (at_ 0 0) (at_ 6 6) 10) initialAppState.

(** The goal point of [levelCorner] is revealed. *)
Definition cornerCleared : AppState :=
  run levelCorner noRandom (User Reset :: click (at_ 1 1) 10) initialAppState.

(** ** Grid vertices with integer coordinates, for exhaustive checks *)

Definition ofZ (z : Z) : float := of_uint63 (Uint63.of_Z z).

Definition gridZ : list Z := [0; 1; 2; 3; 4; 5; 6]%Z.

Definition gridVerticesZ : list (Z * Z) := list_prod gridZ gridZ.

Definition vertex (c : Z * Z) : XY := at_ (ofZ (fst c)) (ofZ (snd c)).

Definition rayFrom (o a : Z * Z) : SegmentShape :=
  {| p1 := vertex o; p2 := vertex a; type := Some RAY |}.


Definition vertex_eqb (a b : Z * Z) : bool :=
  ((fst a =? fst b) && (snd a =? snd b))%Z.



(** ** The enumeration as a list of candidates inserted in turn *)

(** The arguments of one call of [addPoint]. *)
Record Candidate := mkCandidate {
  cand_x : float;
  cand_y : float;
  cand_source : string
}.

Definition cand_xy (c : Candidate) : XY := {| x := cand_x c; y := cand_y c |}.

Definition insertAll (cs : list Candidate) (points : list Point) : list Point :=
  fold_left (fun pts c => addPoint (cand_x c) (cand_y c) (cand_source c) pts) cs points.

Definition optionToList {A} (o : option A) : list A :=
  match o with Some a => [a] | None => [] end.

Definition gridCandidates : list Candidate :=
  flat_map (fun gx => map (fun gy => mkCandidate gx gy "grid") gridRange) gridRange.

(** The coordinates of the point [getIntersection] returns. *)
Definition intersectionXY (A B : SegmentShape) : option XY :=
  if abs (denom A B) <? EPSILON then None
  else if checkConstraint (param_t A B) (type A) && checkConstraint (param_u A B) (type B)
       then if withinGrid A B then Some {| x := ix A B; y := iy A B |} else None
       else None.

Definition crossingCandidate (A B : SegmentShape) : option Candidate :=
  match intersectionXY A B with
  | Some c => Some (mkCandidate (x c) (y c) "seg-seg")
  | None => None
  end.

(** The crossing of [A] with the gridline [x = k], when [addVertical] hands
    one to [addPoint]. *)
Definition verticalCandidate (A : SegmentShape) (k : float) : option Candidate :=
  let dx := x (p2 A) - x (p1 A) in
  let dy := y (p2 A) - y (p1 A) in
  if EPSILON <? abs dx then
    let t := (k - x (p1 A)) / dx in
    if validParam (typeOrSegment (type A)) t
    then Some (mkCandidate k (y (p1 A) + t * dy) "seg-grid-v")
    else None
  else None.

(** The crossing of [A] with the gridline [y = k]. *)
Definition horizontalCandidate (A : SegmentShape) (k : float) : option Candidate :=
  let dx := x (p2 A) - x (p1 A) in
  let dy := y (p2 A) - y (p1 A) in
  if EPSILON <? abs dy then
    let t := (k - y (p1 A)) / dy in
    if validParam (typeOrSegment (type A)) t
    then Some (mkCandidate (x (p1 A) + t * dx) k "seg-grid-h")
    else None
  else None.

(** The candidates in the order the loops produce them. *)
Fixpoint candidates (shapes : list SegmentShape) : list Candidate :=
  match shapes with
  | [] => []
  | A :: later =>
      flat_map (fun B => optionToList (crossingCandidate A B)) later
      ++ flat_map (fun k => optionToList (verticalCandidate A k)) gridRange
      ++ flat_map (fun k => optionToList (horizontalCandidate A k)) gridRange
      ++ candidates later
  end.

Definition discover (shapes : list SegmentShape) : list Point :=
  insertAll (gridCandidates ++ candidates shapes) [].

(** [c] is in [points], as it is or as a point equal to it. *)
Definition covered (points : list Point) (c : XY) : Prop :=
  exists e : Point, In e points /\ (pt e = c \/ pointsEqual e c = true).

(** No point of the list is equal to a later one. *)
Definition distinctPoints (points : list Point) : Prop :=
  ForallOrdPairs (fun a b : Point => pointsEqual a b = false) points.

(** A drawn line with the given end points and type. *)
Definition lineOn (a b : XY) (ty : LineType) (now : Z) : Segment :=
  {| seg_p1 := {| pt := a; id := IdP now; isIntersection := None;
                  label := None; isInitial := None |};
     seg_p2 := {| pt := b; id := IdP_end now; isIntersection := None;
                  label := None; isInitial := None |};
     seg_id := IdSeg now; seg_isInitial := None; seg_type := Some ty |}.

(** Two segments that cross at the grid vertex (1,1), and two that cross
    off the grid vertices, at (2/3, 4/3). *)
Definition crossAtVertex : list Segment :=
  [ lineOn (at_ 0 0) (at_ 2 2) SEGMENT 1; lineOn (at_ 0 2) (at_ 2 0) SEGMENT 2 ].

Definition crossOffVertex : list Segment :=
  [ lineOn (at_ 0 0) (at_ 3 6) SEGMENT 1; lineOn (at_ 0 2) (at_ 2 0) SEGMENT 2 ].

(** ** Predicates on binary64 numbers *)



Definition isNaN (v : float) : Prop := Prim2SF v = S754_nan.

(** ** Predicates and boards of the further properties *)

(** [v] is a finite number: neither NaN nor an infinity. *)
Definition isFinite (v : float) : Prop :=
  match Prim2SF v with
  | S754_zero _ | S754_finite _ _ _ => True
  | _ => False
  end.

(** The order of two finite numbers of sign [s], by exponent and mantissa. *)
Definition finiteLt (s : bool) (e1 : Z) (m1 : positive) (e2 : Z) (m2 : positive) : Prop :=
  if s then (e2 < e1 \/ (e1 = e2 /\ (m2 < m1)%positive))%Z
  else (e1 < e2 \/ (e1 = e2 /\ (m1 < m2)%positive))%Z.

(** A line of type [ty'] runs at least as far as one of type [ty]. *)
Definition extendsTo (ty ty' : option LineType) : bool :=
  match typeOrSegment ty, typeOrSegment ty' with
  | SEGMENT, _ | RAY, RAY | RAY, LINE | LINE, LINE => true
  | _, _ => false
  end.

(** [c] is on the border of the grid. *)
Definition onBorder (c : XY) : bool :=
  (GRID_MIN <=? x c) && (x c <=? GRID_MAX) && (GRID_MIN <=? y c) && (y c <=? GRID_MAX)
  && ((x c =? GRID_MIN) || (x c =? GRID_MAX) || (y c =? GRID_MIN) || (y c =? GRID_MAX)).

(** The same two numbers. *)
Definition XY_eqb (a b : XY) : bool :=
  Leibniz.eqb (x a) (x b) && Leibniz.eqb (y a) (y b).

(** [e - s] points the way [b - a] does: the cross product is below
    [EPSILON] and the dot product is positive. *)
Definition sameWay (s e a b : XY) : bool :=
  (abs ((x e - x s) * (y b - y a) - (y e - y s) * (x b - x a)) <? EPSILON)
  && (0 <? (x e - x s) * (x b - x a) + (y e - y s) * (y b - y a)).

(** What clipping the line through two distinct grid vertices gives, for
    each of the three types. *)
Definition clipAgrees (ab : (Z * Z) * (Z * Z)) : bool :=
  let a := vertex (fst ab) in
  let b := vertex (snd ab) in
  vertex_eqb (fst ab) (snd ab)
  || forallb (fun ty =>
       match clippedEnds a b ty with
       | None => false
       | Some (s, e) =>
           sameWay s e a b &&
           match ty with
           | SEGMENT => XY_eqb s a && XY_eqb e b
           | RAY => XY_eqb s a && onBorder e
           | LINE => onBorder s && onBorder e
           end
       end) [SEGMENT; RAY; LINE].

(** The distance [findNearestPoint] compares. *)
Definition snapDistance (target : XY) (p : Point) : float := sqrt (distSq p target).

(** The loop of [findNearestPoint] after the candidates [seen]: [acc] holds
    [closest] and [minD]. *)
Definition nearestSoFar (target : XY) (seen : list Point) (acc : option Point * float)
    : Prop :=
  match fst acc with
  | None =>
      snd acc = SNAP_THRESHOLD
      /\ forall q, In q seen -> (snapDistance target q <? SNAP_THRESHOLD) = false
  | Some p =>
      In p seen /\ snd acc = snapDistance target p
      /\ (snapDistance target p <? SNAP_THRESHOLD) = true
      /\ forall q, In q seen -> (snapDistance target q <? snapDistance target p) = false
  end.

(** The identifier of each point names its position in the list. *)
Definition idsArePositions (points : list Point) : Prop :=
  forall n e, nth_error points n = Some e -> exists source, id e = IdPotential source n.

(** No line of the list is equal to a later one. *)
Definition distinctLines (segs : list Segment) : Prop :=
  ForallOrdPairs (fun a b : Segment => segmentsEqual a b = false) segs.

(** [P] holds of the board and of every snapshot of the history. *)
Definition everySnapshot (P : HistoryState -> Prop) (st : AppState) : Prop :=
  P (board st) /\ Forall P (history st).

(** The two end points of every line are among the points, as they are or
    as points equal to them. *)
Definition endsVisible (h : HistoryState) : Prop :=
  Forall (fun s : Segment =>
            covered (hs_points h) (seg_p1 s) /\ covered (hs_points h) (seg_p2 s))
         (hs_segments h).

(** [h'] holds the points and lines of [h], in the same order, and possibly
    more after them. *)
Definition extendsSnapshot (h h' : HistoryState) : Prop :=
  (exists more, hs_points h' = hs_points h ++ more)
  /\ (exists more, hs_segments h' = hs_segments h ++ more).

(** The events of the pointer on the board. *)
Definition pointerEvent (e : Event) : Prop :=
  match e with
  | MouseDown _ _ _ | MouseMove _ _ _ | MouseUp _ _ | MouseLeave => True
  | _ => False
  end.

(** The pointer at [(clientX, clientY)] has not left the drag threshold
    around [(startX, startY)]: the test of [handleMouseMove] fails. *)
Definition withinDragThreshold (startX startY clientX clientY : float) : Prop :=
  let dx := clientX - startX in
  let dy := clientY - startY in
  (DRAG_THRESHOLD_PX <? sqrt (dx * dx + dy * dy)) = false.

(** The button goes down at [(clientX, clientY)], the pointer moves, and the
    button goes up. *)
Definition pressMoveRelease (clientX clientY : float) (down : XY)
    (moves : list (float * float * XY)) (up : XY) (now : Z) : list Action :=
  User (MouseDown clientX clientY down)
  :: map (fun m => User (MouseMove (fst (fst m)) (snd (fst m)) (snd m))) moves
  ++ [User (MouseUp up now)].

(** A click in progress on the board of [st0]: no drag has started, and when
    the button is down it went down at [(cx, cy)]. *)
Definition clicking (cx cy : float) (st0 st : AppState) : Prop :=
  segments st = segments st0 /\ visiblePoints st = visiblePoints st0
  /\ (dragStartPoint st = None
      \/ (isActuallyDragging st = false
          /\ startMouseScreenPos st = Some {| x := cx; y := cy |})).

(** A level whose given segment ends on two of its three given points; the
    goal is a second side of the triangle. *)
Definition levelTriangle : LevelConfig :=
  {| level_id := 5;
     level_lineType := Some SEGMENT;
     initial := {| initial_points := Some [ {| ip_xy := at_ 0 0; ip_label := None |};
                                            {| ip_xy := at_ 3 6; ip_label := None |};
                                            {| ip_xy := at_ 6 0; ip_label := None |} ];
                   initial_segments :=
                     Some [ {| p1 := at_ 0 0; p2 := at_ 3 6; type := Some SEGMENT |} ] |};
     goals := Some {| goals_points := None;
                      goals_segments := Some [ {| p1 := at_ 3 6; p2 := at_ 6 0;
                                                  type := None |} ] |} |}.

(** [levelDiagonal] is loaded and the button is down on (3,3). *)
Definition pressedOnDiagonal : AppState :=
  run levelDiagonal noRandom [User Reset; User (MouseDown 0 0 (at_ 3 3))]
      initialAppState.

(** The crossing of the two segments of [crossOffVertex], as the enumeration
    holds it. *)
Definition crossingOffVertex : Point :=
  {| pt := at_ 0.66666666666666663 1.3333333333333333;
     id := IdPotential "seg-seg" 49;
     isIntersection := Some true; label := None; isInitial := None |}.

(** The editor after two clicks in the initial layer, and after a ray is
    drawn in the goal layer from (0,0) to (3,3). *)
Definition twoPointsAuthored : LevelEditor.EditorState :=
  LevelEditor.handle (LevelEditor.MouseDown (at_ 2.1 1.9) 2)
    (LevelEditor.handle (LevelEditor.MouseDown (at_ 1 1) 1)
       LevelEditor.initialEditorState).

Definition rayAuthored : LevelEditor.EditorState :=
  LevelEditor.handle (LevelEditor.MouseUp (at_ 3 3) 4)
    (LevelEditor.handle (LevelEditor.MouseDown (at_ 0 0) 3)
       (LevelEditor.handle
          (LevelEditor.SetMode LevelEditor.goal_layer LevelEditor.line_shape RAY RAY 7)
          twoPointsAuthored)).

(** Two chapters; the first level of the first chapter is cleared. *)
Definition twoChapters : list LevelGroup :=
  [ {| group_id := 1; group_levels := [levelDiagonal; levelCorner] |};
    {| group_id := 2; group_levels := [levelCross] |} ].

(** ** Lines between grid vertices, in exact integers *)

(** A line through two grid vertices. *)
Definition gridLine (a b : Z * Z) (ty : option LineType) : SegmentShape :=
  {| p1 := vertex a; p2 := vertex b; type := ty |}.



















(** ** Further boards *)


(** A level that starts with a line from (1,1) to (1,1). *)
Definition levelDot : LevelConfig :=
  {| level_id := 6;
     level_lineType := Some SEGMENT;
     initial := {| initial_points := None;
                   initial_segments :=
                     Some [ {| p1 := at_ 1 1; p2 := at_ 1 1; type := Some SEGMENT |} ] |};
     goals := Some {| goals_points := Some [ at_ 5 5 ]; goals_segments := None |} |}.

(** [levelDot] after it is loaded and the vertex (2,2) is clicked. *)
Definition dotClicked : AppState :=
  run levelDot noRandom (User Reset :: click (at_ 2 2) 10) initialAppState.

(** ** An exported level read back *)

(** The level reaches the play screen as text: [generatedJson] is
    [JSON.stringify(config, null, 2)], [App] reads [levels.json] with
    [res.json()].  A finite number is written with digits that read back as
    the same number, except that -0 is written [0]; NaN and the infinities
    are written [null], which is no number: [None]. *)
Definition jsonNumber (v : float) : option float :=
  match Prim2SF v with
  | S754_finite _ _ _ => Some v
  | S754_zero _ => Some 0
  | _ => None
  end.

Definition jsonXY (c : XY) : option XY :=
  match jsonNumber (x c), jsonNumber (y c) with
  | Some a, Some b => Some {| x := a; y := b |}
  | _, _ => None
  end.

Fixpoint allSome {A} (l : list (option A)) : option (list A) :=
  match l with
  | [] => Some []
  | Some a :: rest => match allSome rest with Some r => Some (a :: r) | None => None end
  | None :: _ => None
  end.

(** A list that may be missing: a missing list stays missing. *)
Definition jsonList {A} (f : A -> option A) (l : option (list A))
    : option (option (list A)) :=
  match l with
  | None => Some None
  | Some items => match allSome (map f items) with Some r => Some (Some r) | None => None end
  end.

Definition jsonInitialPoint (p : InitialPoint) : option InitialPoint :=
  match jsonXY p with
  | Some c => Some {| ip_xy := c; ip_label := ip_label p |}
  | None => None
  end.

Definition jsonShape (s : SegmentShape) : option SegmentShape :=
  match jsonXY (p1 s), jsonXY (p2 s) with
  | Some a, Some b => Some {| p1 := a; p2 := b; type := type s |}
  | _, _ => None
  end.

(** The level that [res.json()] yields for the text of a level object;
    [None] when a coordinate is read back as [null], the object being no
    [LevelConfig] then. *)
Definition readBack (lvl : LevelConfig) : option LevelConfig :=
  match jsonList jsonInitialPoint (initial_points (initial lvl)),
        jsonList jsonShape (initial_segments (initial lvl)),
        match goals lvl with
        | None => Some None
        | Some g =>
            match jsonList jsonXY (goals_points g), jsonList jsonShape (goals_segments g) with
            | Some gp, Some gs => Some (Some {| goals_points := gp; goals_segments := gs |})
            | _, _ => None
            end
        end with
  | Some ips, Some iss, Some g =>
      Some {| level_id := level_id lvl; level_lineType := level_lineType lvl;
              initial := {| initial_points := ips; initial_segments := iss |};
              goals := g |}
  | _, _, _ => None
  end.

(** The number [w] that a drawn number [v] is read back as: [v] itself, or
    0 for -0. *)
Definition readsBackAs (v w : float) : Prop := w = v \/ (v = - 0 /\ w = 0).

Definition readsBackAsXY (c c' : XY) : Prop :=
  readsBackAs (x c) (x c') /\ readsBackAs (y c) (y c').

(** The drawn line and the loaded one: end points and type. *)
Definition lineReadsBackAs (drawn loaded : SegmentShape) : Prop :=
  readsBackAsXY (p1 drawn) (p1 loaded) /\ readsBackAsXY (p2 drawn) (p2 loaded)
  /\ typeOrSegment (type loaded) = typeOrSegment (type drawn).

Definition finiteXY (c : XY) : Prop := isFinite (x c) /\ isFinite (y c).

(** Every coordinate the editor holds is a finite number. *)
Definition finiteEditor (st : LevelEditor.EditorState) : Prop :=
  Forall (fun p : Point => finiteXY p) (LevelEditor.initialPoints st)
  /\ Forall (fun p : Point => finiteXY p) (LevelEditor.goalPoints st)
  /\ Forall (fun s : Segment => finiteXY (seg_p1 s) /\ finiteXY (seg_p2 s))
            (LevelEditor.initialSegments st)
  /\ Forall (fun s : Segment => finiteXY (seg_p1 s) /\ finiteXY (seg_p2 s))
            (LevelEditor.goalSegments st)
  /\ (forall p : Point, LevelEditor.dragStart st = Some p -> finiteXY p).

(** The editor after a click in the padding left of the grid, at
    (-0.3, 1): [Math.round] gives -0. *)
Definition paddingClicked : LevelEditor.EditorState :=
  LevelEditor.handle (LevelEditor.MouseDown (at_ (-0.3) 1) 1)
    LevelEditor.initialEditorState.

(** * Properties *)

(** ** Arrays *)

Lemma index_nonneg {A} (arr : list A) (i : Z) :
  (0 <= i)%Z -> index arr i = nth_error arr (Z.to_nat i).
Proof.
  intros Hi. unfold index.
  destruct (Z.ltb_spec i 0) as [Hneg | _]; [lia | reflexivity].
Qed.

Lemma index_Some_bounds {A} (arr : list A) (i : Z) (v : A) :
  index arr i = Some v -> (0 <= i < Z.of_nat (length arr))%Z.
Proof.
  unfold index. destruct (Z.ltb_spec i 0) as [Hneg | Hpos]; [discriminate |].
  intros Hnth. assert (Hlt : (Z.to_nat i < length arr)%nat).
  { apply nth_error_Some. rewrite Hnth. discriminate. }
  lia.
Qed.

Lemma index_in_range {A} (arr : list A) (i : Z) :
  (0 <= i < Z.of_nat (length arr))%Z -> exists v, index arr i = Some v.
Proof.
  intros Hi. rewrite index_nonneg by lia.
  destruct (nth_error arr (Z.to_nat i)) as [v |] eqn:Hnth; [eauto |].
  apply nth_error_None in Hnth. lia.
Qed.

Lemma slice0_in_range {A} (arr : list A) (stop : Z) :
  (0 <= stop <= Z.of_nat (length arr))%Z ->
  slice0 arr stop = firstn (Z.to_nat stop) arr.
Proof.
  intros Hs. unfold slice0.
  destruct (Z.ltb_spec stop 0) as [Hneg | _]; [lia |].
  rewrite Z.min_l by lia. reflexivity.
Qed.

Lemma slice0_length {A} (arr : list A) (stop : Z) :
  (0 <= stop <= Z.of_nat (length arr))%Z ->
  length (slice0 arr stop) = Z.to_nat stop.
Proof.
  intros Hs. rewrite slice0_in_range by assumption.
  rewrite length_firstn. lia.
Qed.

Lemma index_app_last {A} (arr : list A) (v : A) :
  index (arr ++ [v]) (Z.of_nat (length arr)) = Some v.
Proof.
  rewrite index_nonneg by lia. rewrite Nat2Z.id.
  rewrite nth_error_app2 by lia. rewrite Nat.sub_diag. reflexivity.
Qed.

Lemma index_slice0_app {A} (arr : list A) (stop i : Z) (v : A) :
  (0 <= i < stop)%Z -> (stop <= Z.of_nat (length arr))%Z ->
  index (slice0 arr stop ++ [v]) i = index arr i.
Proof.
  intros Hi Hs. rewrite !index_nonneg by lia.
  rewrite nth_error_app1 by (rewrite slice0_length by lia; lia).
  rewrite slice0_in_range by lia.
  rewrite nth_error_firstn.
  destruct (Nat.ltb_spec (Z.to_nat i) (Z.to_nat stop)); [reflexivity | lia].
Qed.

(** ** Binary64 facts *)

Lemma SFcompare_antisym (X Y : spec_float) :
  SFcompare Y X = option_map CompOpp (SFcompare X Y).
Proof.
  destruct X as [sx | sx | | sx mx ex], Y as [sy | sy | | sy my ey]; simpl;
    try destruct sx; try destruct sy; try reflexivity;
    rewrite (Z.compare_antisym ex ey); destruct (ex ?= ey)%Z; simpl;
    try reflexivity;
    rewrite (Pos.compare_cont_antisym mx my Eq); simpl; reflexivity.
Qed.


(** Rounding treats a number and its opposite alike. *)
Lemma SFabs_binary_round (s : bool) (m : positive) (e : Z) :
  SFabs (binary_round prec emax s m e) = SFabs (binary_round prec emax false m e).
Proof.
  unfold binary_round, binary_round_aux.
  destruct (shl_align m e _) as [mz ez].
  destruct (shr_fexp prec emax (Z.pos mz) ez loc_Exact) as [mrs' e'].
  destruct (shr_fexp prec emax _ e' loc_Exact) as [mrs'' e''].
  destruct (shr_m mrs'') as [| q | q]; try reflexivity.
  destruct (e'' <=? emax - prec)%Z; reflexivity.
Qed.

Lemma SFabs_binary_normalize_opp (m e : Z) :
  SFabs (binary_normalize prec emax (- m) e false)
  = SFabs (binary_normalize prec emax m e false).
Proof.
  destruct m as [| q | q]; simpl; try reflexivity.
  - apply SFabs_binary_round.
  - symmetry. apply SFabs_binary_round.
Qed.

Lemma SFabs_SFsub_sym (X Y : spec_float) :
  SFabs (SF64sub X Y) = SFabs (SF64sub Y X).
Proof.
  destruct X as [sx | sx | | sx mx ex], Y as [sy | sy | | sy my ey];
    try (destruct sx, sy; reflexivity); try (destruct sx; reflexivity);
    try (destruct sy; reflexivity); try reflexivity.
  unfold SF64sub, SFsub. rewrite (Z.min_comm ey ex).
  rewrite <- SFabs_binary_normalize_opp. f_equal. f_equal. lia.
Qed.

(** [|a - b|] and [|b - a|] are the same number. *)
Lemma abs_sub_sym (a b : float) : abs (a - b) = abs (b - a).
Proof.
  apply Prim2SF_inj. rewrite !abs_spec, !sub_spec. apply SFabs_SFsub_sym.
Qed.

Lemma pointsEqual_sym (a b : XY) : pointsEqual a b = pointsEqual b a.
Proof.
  unfold pointsEqual. rewrite (abs_sub_sym (x a)), (abs_sub_sym (y a)). reflexivity.
Qed.

(** *** Commutativity, cancellation and NaN *)

Lemma SFmul_comm (X Y : spec_float) : SF64mul X Y = SF64mul Y X.
Proof.
  unfold SF64mul, SFmul.
  destruct X as [sx | sx | | sx mx ex], Y as [sy | sy | | sy my ey];
    try rewrite (xorb_comm sx sy); try reflexivity.
  rewrite (Pos.mul_comm mx my), (Z.add_comm ex ey). reflexivity.
Qed.

Lemma mul_comm (a b : float) : a * b = b * a.
Proof. apply Prim2SF_inj. rewrite !mul_spec. apply SFmul_comm. Qed.





Lemma abs_nan (a : float) : isNaN a -> isNaN (abs a).
Proof. unfold isNaN. intros Ha. rewrite abs_spec, Ha. reflexivity. Qed.

Lemma leb_nan_l (a b : float) : isNaN a -> (a <=? b) = false.
Proof. unfold isNaN. intros Ha. rewrite leb_spec, Ha. reflexivity. Qed.


Lemma ltb_nan_l (a b : float) : isNaN a -> (a <? b) = false.
Proof. unfold isNaN. intros Ha. rewrite ltb_spec, Ha. reflexivity. Qed.

(** *** Signs *)









(** *** Digits and rounding *)















(** ** Geometry kernel *)

(** The examples of the specification. *)
Example segment_equality_ignores_order :
  segmentsEqual {| p1 := at_ 0 0; p2 := at_ 3 3; type := Some SEGMENT |}
                {| p1 := at_ 3 3; p2 := at_ 0 0; type := None |} = true
  /\ segmentsEqual {| p1 := at_ 0 0; p2 := at_ 3 3; type := Some RAY |}
                   {| p1 := at_ 3 3; p2 := at_ 0 0; type := Some RAY |} = false.
Proof. split; reflexivity. Qed.

(** Two lines are equal when they are the same infinite line, whatever the
    points that define them and their order; a parallel line is not. *)
Example line_equality_ignores_end_points :
  segmentsEqual {| p1 := at_ 0 0; p2 := at_ 1 1; type := Some LINE |}
                {| p1 := at_ 5 5; p2 := at_ 2 2; type := Some LINE |} = true
  /\ segmentsEqual {| p1 := at_ 0 0; p2 := at_ 1 1; type := Some LINE |}
                   {| p1 := at_ 0 1; p2 := at_ 2 3; type := Some LINE |} = false.
Proof. split; reflexivity. Qed.

Example intersection_respects_type :
  let diag := {| p1 := at_ 0 0; p2 := at_ 2 2; type := Some SEGMENT |} in
  let anti := {| p1 := at_ 0 2; p2 := at_ 2 0; type := Some SEGMENT |} in
  let ray := {| p1 := at_ 0 0; p2 := at_ 1 1; type := Some RAY |} in
  let away := {| p1 := at_ 1.5 1.5; p2 := at_ 2.5 2.5; type := Some RAY |} in
  option_map pt (getIntersection diag anti 0) = Some (at_ 1 1)
  /\ option_map pt (getIntersection ray anti 0) = Some (at_ 1 1)
  /\ getIntersection away anti 0 = None.
Proof. cbv zeta. repeat split; reflexivity. Qed.

Example parallel_segments_do_not_intersect :
  getIntersection {| p1 := at_ 0 0; p2 := at_ 2 2; type := Some SEGMENT |}
                  {| p1 := at_ 1 1; p2 := at_ 3 3; type := Some SEGMENT |} 0 = None
  /\ getIntersection {| p1 := at_ 0 0; p2 := at_ 2 2; type := Some SEGMENT |}
                     {| p1 := at_ 0 1; p2 := at_ 2 3; type := Some SEGMENT |} 0 = None.
Proof. split; reflexivity. Qed.


(** *** Lines between grid vertices

    The coordinates of grid vertices are small integers, and so are their
    differences, the products of two differences and the determinants:
    binary64 computes them exactly.  Each operation is checked on the whole
    range of its operands. *)
















Section OnGrid.
Variables a b c d : Z * Z.
Hypothesis Ha : In a gridVerticesZ.
Hypothesis Hb : In b gridVerticesZ.
Hypothesis Hc : In c gridVerticesZ.
Hypothesis Hd : In d gridVerticesZ.
Variables ty1 ty2 : option LineType.



End OnGrid.
















(** The segment from (3,0) to (3,1) stops short of the segment from (0,3) to
    (6,3); as lines the two meet at (3,3). *)
Example segment_short_of_the_crossing :
  getIntersection (gridLine (0, 3) (6, 3) (Some SEGMENT))%Z
                  (gridLine (3, 0) (3, 1) (Some SEGMENT))%Z 0.5 = None
  /\ option_map pt (getIntersection (gridLine (0, 3) (6, 3) (Some LINE))%Z
                                    (gridLine (3, 0) (3, 1) (Some LINE))%Z 0.5)
     = Some (at_ 3 3).
Proof. split; reflexivity. Qed.








(** ** Discoverable points *)

Lemma insertAll_app (cs cs' : list Candidate) (points : list Point) :
  insertAll (cs ++ cs') points = insertAll cs' (insertAll cs points).
Proof. unfold insertAll. apply fold_left_app. Qed.

Lemma insertAll_optional {K} (g : K -> option Candidate) (ks : list K)
    (points : list Point) :
  fold_left (fun pts k =>
               match g k with
               | Some c => addPoint (cand_x c) (cand_y c) (cand_source c) pts
               | None => pts
               end) ks points
  = insertAll (flat_map (fun k => optionToList (g k)) ks) points.
Proof.
  revert points. induction ks as [| k ks IH]; intros points; simpl.
  - reflexivity.
  - rewrite insertAll_app, IH. destruct (g k); reflexivity.
Qed.

Lemma getIntersection_coords (A B : SegmentShape) (r : float) :
  getIntersection A B r
  = option_map (fun c => {| pt := c; id := IdInt r; isIntersection := Some true;
                            label := None; isInitial := None |})
               (intersectionXY A B).
Proof.
  unfold getIntersection, intersectionXY.
  destruct (abs (denom A B) <? EPSILON); [reflexivity |].
  destruct (checkConstraint _ _ && checkConstraint _ _); [| reflexivity].
  destruct (withinGrid A B); reflexivity.
Qed.

Lemma addCrossings_insertAll (rand : nat -> nat -> float) (s : Segment)
    (idx j : nat) (later : list Segment) (points : list Point) :
  addCrossings rand s idx j later points
  = insertAll (flat_map (fun B => optionToList (crossingCandidate s B))
                        (map shape later)) points.
Proof.
  revert j points. induction later as [| sj later IH]; intros j points; simpl.
  - reflexivity.
  - rewrite IH, insertAll_app. f_equal.
    rewrite getIntersection_coords. unfold crossingCandidate.
    destruct (intersectionXY s sj); reflexivity.
Qed.

Lemma addVertical_insertAll (s : Segment) (ks : list float) (points : list Point) :
  fold_left (addVertical s) ks points
  = insertAll (flat_map (fun k => optionToList (verticalCandidate s k)) ks) points.
Proof.
  rewrite <- insertAll_optional. revert points.
  induction ks as [| k ks IH]; intros points; simpl; [reflexivity |].
  rewrite IH. f_equal. unfold addVertical, verticalCandidate. simpl.
  destruct (EPSILON <? _); [| reflexivity].
  destruct (validParam _ _); reflexivity.
Qed.

Lemma addHorizontal_insertAll (s : Segment) (ks : list float) (points : list Point) :
  fold_left (addHorizontal s) ks points
  = insertAll (flat_map (fun k => optionToList (horizontalCandidate s k)) ks) points.
Proof.
  rewrite <- insertAll_optional. revert points.
  induction ks as [| k ks IH]; intros points; simpl; [reflexivity |].
  rewrite IH. f_equal. unfold addHorizontal, horizontalCandidate. simpl.
  destruct (EPSILON <? _); [| reflexivity].
  destruct (validParam _ _); reflexivity.
Qed.

Lemma forEachSegment_insertAll (rand : nat -> nat -> float) (idx : nat)
    (segs : list Segment) (points : list Point) :
  forEachSegment rand idx segs points = insertAll (candidates (map shape segs)) points.
Proof.
  revert idx points. induction segs as [| s later IH]; intros idx points;
    cbn [forEachSegment map candidates].
  - reflexivity.
  - rewrite IH. unfold visitSegment.
    rewrite addHorizontal_insertAll, addVertical_insertAll, addCrossings_insertAll.
    rewrite !insertAll_app. reflexivity.
Qed.

Lemma addGrid_insertAll (points : list Point) :
  addGrid points = insertAll gridCandidates points.
Proof.
  unfold addGrid, gridCandidates.
  generalize gridRange at 2 4. generalize gridRange. intros gys gxs. revert points.
  induction gxs as [| gx gxs IH]; intros points; cbn [fold_left flat_map].
  - reflexivity.
  - rewrite insertAll_app, IH. f_equal.
    clear IH. revert points.
    induction gys as [| gy gys IHy]; intros points; cbn [fold_left map].
    + reflexivity.
    + apply IHy.
Qed.

(** The enumeration is the insertion of the candidates, and these are
    computed from the coordinates and types of the lines alone. *)
Lemma allDiscoverablePoints_discover (rand : nat -> nat -> float)
    (segs : list Segment) :
  allDiscoverablePoints rand segs = discover (map shape segs).
Proof.
  unfold allDiscoverablePoints, discover.
  rewrite forEachSegment_insertAll, addGrid_insertAll, insertAll_app. reflexivity.
Qed.

(** *** What [addPoint] does to the list *)

Lemma addPoint_cases (px py : float) (source : string) (points : list Point) :
  (addPoint px py source points = points
   /\ (outOfGrid px py = true
       \/ exists e : Point,
            In e points /\ pointsEqual e {| x := px; y := py |} = true))
  \/ (outOfGrid px py = false
      /\ (forall e : Point, In e points ->
                            pointsEqual e {| x := px; y := py |} = false)
      /\ addPoint px py source points
         = points ++ [ {| pt := {| x := px; y := py |};
                          id := IdPotential source (length points);
                          isIntersection := Some true;
                          label := None; isInitial := None |} ]).
Proof.
  unfold addPoint. destruct (outOfGrid px py); [left; auto |].
  destruct (find _ points) as [e |] eqn:Hfind.
  - left. split; [reflexivity |]. right. apply find_some in Hfind. eauto.
  - right. split; [reflexivity |]. split; [| reflexivity].
    intros e Hin. apply (find_none _ _ Hfind e Hin).
Qed.


Lemma covered_app (points more : list Point) (c : XY) :
  covered points c -> covered (points ++ more) c.
Proof.
  intros [e [Hin Hc]]. exists e. split; [apply in_or_app; auto | exact Hc].
Qed.

Lemma distinctPoints_snoc (points : list Point) (p : Point) :
  distinctPoints points ->
  (forall e : Point, In e points -> pointsEqual e p = false) ->
  distinctPoints (points ++ [p]).
Proof.
  unfold distinctPoints. induction 1 as [| a l Ha Hl IH]; intros Hp; simpl.
  - constructor; [constructor | constructor].
  - constructor.
    + apply Forall_app. split; [exact Ha |].
      constructor; [apply Hp; left; reflexivity | constructor].
    + apply IH. intros e Hin. apply Hp. right. exact Hin.
Qed.

Lemma insertAll_extends (cs : list Candidate) (points : list Point) :
  exists more, insertAll cs points = points ++ more.
Proof.
  revert points. induction cs as [| c cs IH]; intros points; simpl.
  - exists []. rewrite app_nil_r. reflexivity.
  - destruct (IH (addPoint (cand_x c) (cand_y c) (cand_source c) points))
      as [more Hmore].
    unfold insertAll in *. simpl. rewrite Hmore.
    destruct (addPoint_cases (cand_x c) (cand_y c) (cand_source c) points)
      as [[-> _] | [_ [_ ->]]].
    + eauto.
    + rewrite <- app_assoc. eauto.
Qed.


Lemma insertAll_covers (cs : list Candidate) (points : list Point) (c : Candidate) :
  In c cs -> outOfGrid (cand_x c) (cand_y c) = false ->
  covered (insertAll cs points) (cand_xy c).
Proof.
  revert points. induction cs as [| c' cs IH]; intros points Hin Hgrid; simpl.
  - destruct Hin.
  - destruct Hin as [-> | Hin]; [| apply IH; assumption].
    destruct (insertAll_extends cs
                (addPoint (cand_x c) (cand_y c) (cand_source c) points))
      as [more Hmore].
    unfold insertAll in *. rewrite Hmore. apply covered_app.
    destruct (addPoint_cases (cand_x c) (cand_y c) (cand_source c) points)
      as [[-> [Hout | [e [He Heq]]]] | [_ [_ ->]]].
    + rewrite Hout in Hgrid. discriminate.
    + exists e. auto.
    + eexists. split; [apply in_or_app; right; left; reflexivity |].
      left. reflexivity.
Qed.

(** Every point of the result was there before or is a candidate inside the
    grid, tagged as an intersection. *)
Lemma insertAll_sound (cs : list Candidate) (points : list Point) (e : Point) :
  In e (insertAll cs points) ->
  In e points
  \/ exists c, In c cs /\ pt e = cand_xy c /\ outOfGrid (cand_x c) (cand_y c) = false
               /\ isIntersection e = Some true.
Proof.
  revert points. induction cs as [| c cs IH]; intros points Hin; simpl in Hin.
  - left. exact Hin.
  - apply IH in Hin. destruct Hin as [Hin | [c' [Hc' Hrest]]].
    + destruct (addPoint_cases (cand_x c) (cand_y c) (cand_source c) points)
        as [[Hsame _] | [Hgrid [_ Hpush]]].
      * rewrite Hsame in Hin. left. exact Hin.
      * rewrite Hpush in Hin. apply in_app_or in Hin.
        destruct Hin as [Hin | [<- | []]]; [left; exact Hin |].
        right. exists c. simpl. auto.
    + right. exists c'. simpl. auto.
Qed.


(** *** The candidates *)










Lemma discover_covers (shapes : list SegmentShape) (c : Candidate) :
  In c (gridCandidates ++ candidates shapes) ->
  outOfGrid (cand_x c) (cand_y c) = false ->
  covered (discover shapes) (cand_xy c).
Proof. intros Hin Hgrid. apply insertAll_covers; assumption. Qed.

(** Two lines that cross at a grid vertex add no point: the 49 vertices are
    all there is.  Two that cross elsewhere add their crossing. *)
Example crossing_at_vertex_not_duplicated :
  length (allDiscoverablePoints noRandom crossAtVertex) = 49%nat
  /\ map (fun e : Point => pt e) (skipn 49 (allDiscoverablePoints noRandom crossOffVertex))
     = [ at_ 0.66666666666666663 1.3333333333333333;
         at_ 0.5 1; at_ 1.5 3; at_ 2.5 5 ].
Proof. split; vm_compute; reflexivity. Qed.





(** ** Goal evaluation *)

Lemma pointsCleared_iff (g : LevelGoals) (vps : list Point) :
  pointsCleared g vps = true <->
  forall gp, In gp (orEmpty (goals_points g)) -> pointMatched vps gp.
Proof.
  unfold pointsCleared, pointMatched.
  destruct (goals_points g) as [gps |]; simpl.
  - rewrite forallb_forall. split; intros H gp Hin.
    + apply existsb_exists. auto.
    + apply existsb_exists. auto.
  - split; [intros _ gp [] | reflexivity].
Qed.

Lemma segmentsCleared_iff (g : LevelGoals) (segs : list Segment) :
  segmentsCleared g segs = true <->
  forall gs, In gs (orEmpty (goals_segments g)) -> lineMatched segs gs.
Proof.
  unfold segmentsCleared, lineMatched.
  destruct (goals_segments g) as [gss |]; simpl.
  - rewrite forallb_forall. split; intros H gs Hin.
    + apply existsb_exists. auto.
    + apply existsb_exists. auto.
  - split; [intros _ gs [] | reflexivity].
Qed.

(** What the evaluation decides: every goal point and every goal line is
    matched, and one of the two lists is present (it may be empty). *)
Lemma goalReached_iff (g : LevelGoals) (vps : list Point) (segs : list Segment) :
  goalReached g vps segs = true <->
  (forall gp, In gp (orEmpty (goals_points g)) -> pointMatched vps gp)
  /\ (forall gs, In gs (orEmpty (goals_segments g)) -> lineMatched segs gs)
  /\ (goals_points g <> None \/ goals_segments g <> None).
Proof.
  unfold goalReached. rewrite !andb_true_iff, orb_true_iff.
  rewrite pointsCleared_iff, segmentsCleared_iff.
  assert (Hdef : forall A (o : option A), isDefined o = true <-> o <> None).
  { intros A [a |]; simpl; split; congruence. }
  rewrite !Hdef. tauto.
Qed.

Lemma evaluateGoal_iff (lvl : LevelConfig) (vps : list Point) (segs : list Segment) :
  evaluateGoal lvl vps segs = true <->
  exists g, goals lvl = Some g /\ goalReached g vps segs = true.
Proof.
  unfold evaluateGoal. destruct (goals lvl) as [g |].
  - split; [eauto | intros [g' [[= <-] H]]; exact H].
  - split; [discriminate | intros [g' [[=] _]]].
Qed.

Lemma pointMatched_incl (vps vps' : list Point) (gp : XY) :
  incl vps vps' -> pointMatched vps gp -> pointMatched vps' gp.
Proof. intros Hincl [vp [Hin Heq]]. exists vp. auto. Qed.

Lemma lineMatched_incl (segs segs' : list Segment) (gs : SegmentShape) :
  incl segs segs' -> lineMatched segs gs -> lineMatched segs' gs.
Proof. intros Hincl [s [Hin Heq]]. exists s. auto. Qed.

(** C9.  Goal clearing is monotonic in the snapshot: when the evaluation
    clears a board, it clears every board that has the same points and lines
    and possibly more. *)
Theorem goal_clearing_monotonic (lvl : LevelConfig)
    (vps vps' : list Point) (segs segs' : list Segment) :
  incl vps vps' -> incl segs segs' ->
  evaluateGoal lvl vps segs = true ->
  evaluateGoal lvl vps' segs' = true.
Proof.
  intros Hp Hs. rewrite !evaluateGoal_iff.
  intros [g [Hg Hreached]]. exists g. split; [exact Hg |].
  apply goalReached_iff in Hreached. apply goalReached_iff.
  destruct Hreached as [Hpts [Hlines Hpresent]].
  repeat split.
  - intros gp Hin. eapply pointMatched_incl; eauto.
  - intros gs Hin. eapply lineMatched_incl; eauto.
  - exact Hpresent.
Qed.

(** The goal effect changes nothing but the flag and the list of cleared
    levels. *)
Lemma goalEffect_board (lvl : LevelConfig) (st : AppState) :
  visiblePoints (goalEffect lvl st) = visiblePoints st
  /\ segments (goalEffect lvl st) = segments st
  /\ history (goalEffect lvl st) = history st
  /\ historyIndex (goalEffect lvl st) = historyIndex st
  /\ dragStartPoint (goalEffect lvl st) = dragStartPoint st
  /\ isActuallyDragging (goalEffect lvl st) = isActuallyDragging st.
Proof.
  unfold goalEffect. destruct (goals lvl) as [g |]; [| tauto].
  destruct (isLevelCleared st); [tauto |].
  destruct (goalReached g (visiblePoints st) (segments st)); simpl; tauto.
Qed.

(** After the effect the flag is set when it was set before or when the
    board reaches the goal. *)
Lemma goalEffect_cleared (lvl : LevelConfig) (st : AppState) :
  isLevelCleared (goalEffect lvl st)
  = isLevelCleared st || evaluateGoal lvl (visiblePoints st) (segments st).
Proof.
  unfold goalEffect, evaluateGoal. destruct (goals lvl) as [g |].
  - destruct (isLevelCleared st) eqn:Hflag; [rewrite Hflag; reflexivity |].
    destruct (goalReached g (visiblePoints st) (segments st));
      simpl; try rewrite Hflag; reflexivity.
  - rewrite orb_false_r. reflexivity.
Qed.

(** C1.  The evaluation at a goal whose two lists are present and empty, the
    goal the level editor exports before any goal is drawn: it clears every
    board, and the level is cleared as soon as it is loaded. *)
Theorem empty_goal_lists_clear :
  let lvl := LevelEditor.config LevelEditor.initialEditorState in
  goals lvl = Some {| goals_points := Some []; goals_segments := Some [] |}
  /\ (forall vps segs, evaluateGoal lvl vps segs = true)
  /\ (forall rand st0, isLevelCleared (step lvl rand (User Reset) st0) = true).
Proof.
  cbv zeta. split; [reflexivity |]. split.
  - intros vps segs. reflexivity.
  - intros rand st0. unfold step. rewrite goalEffect_cleared.
    apply orb_true_iff. right. reflexivity.
Qed.

(** So does a goal with one list empty and the other missing. *)
Example empty_goal_list_alone_clears (vps : list Point) (segs : list Segment) :
  goalReached {| goals_points := Some []; goals_segments := None |} vps segs = true
  /\ goalReached {| goals_points := None; goals_segments := Some [] |} vps segs = true.
Proof. split; reflexivity. Qed.

(** ** History *)

Lemma historyInvariant_same (lvl : LevelConfig) (st st' : AppState) :
  visiblePoints st' = visiblePoints st -> segments st' = segments st ->
  history st' = history st -> historyIndex st' = historyIndex st ->
  historyInvariant lvl st -> historyInvariant lvl st'.
Proof.
  unfold historyInvariant, board. intros -> -> -> ->. tauto.
Qed.

Lemma resetLevel_invariant (lvl : LevelConfig) (st : AppState) :
  historyInvariant lvl (resetLevel lvl st).
Proof.
  unfold historyInvariant, board. simpl. repeat split; lia.
Qed.

Lemma changeLevel_invariant (lvl : LevelConfig) (st : AppState) :
  historyInvariant lvl (changeLevel lvl st).
Proof.
  unfold changeLevel.
  destruct (negb (isLevelCleared st) && isLevelCleared (goalEffect lvl st)).
  - unfold historyInvariant, board. simpl. repeat split; lia.
  - apply resetLevel_invariant.
Qed.

Lemma commitToHistory_invariant (lvl : LevelConfig) (st : AppState)
    (newPoints : list Point) (newSegments : list Segment) :
  historyInvariant lvl st ->
  historyInvariant lvl (commitToHistory newPoints newSegments st).
Proof.
  intros [Hidx [Hfirst Hcur]].
  assert (Hlen : length (slice0 (history st) (historyIndex st + 1))
                 = Z.to_nat (historyIndex st + 1))
    by (apply slice0_length; lia).
  unfold historyInvariant, board. simpl. repeat split.
  - lia.
  - rewrite length_app, Hlen. simpl. lia.
  - rewrite index_slice0_app by lia. exact Hfirst.
  - replace (historyIndex st + 1)%Z
      with (Z.of_nat (length (slice0 (history st) (historyIndex st + 1)))) at 2
      by (rewrite Hlen; lia).
    apply index_app_last.
Qed.

Lemma moveTo_invariant (lvl : LevelConfig) (st : AppState) (i : Z) (flag : bool) :
  (0 <= i < Z.of_nat (length (history st)))%Z ->
  historyInvariant lvl st -> historyInvariant lvl (moveTo i st flag).
Proof.
  intros Hi [Hidx [Hfirst Hcur]].
  destruct (index_in_range (history st) i Hi) as [state Hstate].
  unfold moveTo. rewrite Hstate.
  unfold historyInvariant, board. simpl. repeat split; try lia; try assumption.
  rewrite Hstate. destruct state; reflexivity.
Qed.

Lemma undo_invariant (lvl : LevelConfig) (st : AppState) :
  historyInvariant lvl st -> historyInvariant lvl (undo st).
Proof.
  intros Hinv. unfold undo.
  destruct (Z.ltb_spec 0 (historyIndex st)); [| exact Hinv].
  apply moveTo_invariant; [| exact Hinv].
  destruct Hinv as [Hidx _]. lia.
Qed.

Lemma redo_invariant (lvl : LevelConfig) (st : AppState) :
  historyInvariant lvl st -> historyInvariant lvl (redo st).
Proof.
  intros Hinv. unfold redo.
  destruct (Z.ltb_spec (historyIndex st) (Z.of_nat (length (history st)) - 1));
    [| exact Hinv].
  apply moveTo_invariant; [| exact Hinv].
  destruct Hinv as [Hidx _]. lia.
Qed.

Lemma goalEffect_invariant (lvl : LevelConfig) (st : AppState) :
  historyInvariant lvl st -> historyInvariant lvl (goalEffect lvl st).
Proof.
  destruct (goalEffect_board lvl st) as [Hp [Hs [Hh [Hi _]]]].
  apply historyInvariant_same; assumption.
Qed.

(** What releasing the button does to the history: nothing, the commit of
    one more point, or the commit of one more line, whose end points are then
    not the same point. *)
Lemma handleMouseUp_cases (lvl : LevelConfig) (rand : nat -> nat -> float)
    (coords : XY) (now : Z) (st : AppState) :
  handleMouseUp lvl rand coords now st = resetInteraction st
  \/ (exists newPoints,
        handleMouseUp lvl rand coords now st
        = resetInteraction (commitToHistory newPoints (segments st) st))
  \/ (exists newPoints (seg : Segment),
        nonDegenerate seg
        /\ handleMouseUp lvl rand coords now st
           = resetInteraction (commitToHistory newPoints (segments st ++ [seg]) st)).
Proof.
  unfold handleMouseUp.
  destruct (dragStartPoint st) as [dragStart |]; [| left; reflexivity].
  destruct (isActuallyDragging st).
  - destruct (findNearestPoint rand (x coords) (y coords) st) as [endP |];
      [| left; reflexivity].
    destruct (pointsEqual dragStart endP) eqn:Hsame; simpl; [left; reflexivity |].
    destruct (existsb _ (segments st)); simpl; [left; reflexivity |].
    right. right. eexists. eexists. split; [| reflexivity].
    exact Hsame.
  - destruct (findNearestPoint rand (x coords) (y coords) st) as [p |];
      [| left; reflexivity].
    destruct (find _ (visiblePoints st)); [left; reflexivity |].
    right. left. eexists. reflexivity.
Qed.

Lemma resetInteraction_invariant (lvl : LevelConfig) (st : AppState) :
  historyInvariant lvl st -> historyInvariant lvl (resetInteraction st).
Proof. apply historyInvariant_same; reflexivity. Qed.

Lemma handle_invariant (lvl : LevelConfig) (rand : nat -> nat -> float)
    (e : Event) (st : AppState) :
  historyInvariant lvl st -> historyInvariant lvl (handle lvl rand e st).
Proof.
  intros Hinv. destruct e as [| | | cx cy coords | cx cy coords | coords now |]; simpl.
  - apply resetLevel_invariant.
  - apply undo_invariant, Hinv.
  - apply redo_invariant, Hinv.
  - unfold handleMouseDown. destruct (isLevelCleared st); [exact Hinv |].
    destruct (findNearestPoint rand (x coords) (y coords) st); [| exact Hinv].
    revert Hinv. apply historyInvariant_same; reflexivity.
  - revert Hinv. apply historyInvariant_same; reflexivity.
  - destruct (handleMouseUp_cases lvl rand coords now st)
      as [-> | [[ps ->] | [ps [seg [_ ->]]]]];
      apply resetInteraction_invariant;
      [exact Hinv | apply commitToHistory_invariant, Hinv
                  | apply commitToHistory_invariant, Hinv].
  - apply resetInteraction_invariant, Hinv.
Qed.

Lemma step_invariant (lvl : LevelConfig) (rand : nat -> nat -> float)
    (a : Action) (st : AppState) :
  historyInvariant lvl st -> historyInvariant lvl (step lvl rand a st).
Proof.
  intros Hinv. unfold step. apply goalEffect_invariant.
  destruct a as [e | ps ss]; simpl.
  - apply handle_invariant, Hinv.
  - apply commitToHistory_invariant, Hinv.
Qed.

Lemma reachableBy_invariant (lvl : LevelConfig) (rand : nat -> nat -> float)
    (allowed : Action -> Prop) (st : AppState) :
  reachableBy lvl rand allowed st -> historyInvariant lvl st.
Proof.
  induction 1 as [st0 | st0 | a st Hallowed Hreach IH].
  - unfold step. apply goalEffect_invariant. simpl. apply resetLevel_invariant.
  - apply goalEffect_invariant, changeLevel_invariant.
  - apply step_invariant, IH.
Qed.

Lemma reachable_reachableAny (lvl : LevelConfig) (rand : nat -> nat -> float)
    (st : AppState) :
  reachable lvl rand st -> reachableAny lvl rand st.
Proof.
  induction 1 as [st0 | st0 | a st Hallowed Hreach IH].
  - apply reach_load.
  - apply reach_change.
  - apply reach_step; [exact I | exact IH].
Qed.

Lemma XY_eta (c : XY) : {| x := x c; y := y c |} = c.
Proof. destruct c; reflexivity. Qed.

Lemma map_mapi_from {A B C} (f : B -> C) (g : A -> nat -> B) (h : A -> C)
    (arr : list A) (i : nat) :
  (forall v k, f (g v k) = h v) ->
  map f (mapi_from i g arr) = map h arr.
Proof.
  intros Hfg. revert i. induction arr as [| v rest IH]; intros i; simpl.
  - reflexivity.
  - rewrite Hfg, IH. reflexivity.
Qed.

(** The first snapshot holds the points and lines of the level as they were
    authored. *)
Lemma startState_as_authored (lvl : LevelConfig) :
  map (fun p : Point => pt p) (hs_points (startState lvl))
  = map ip_xy (orEmpty (initial_points (initial lvl)))
  /\ map (fun s : Segment => authored s) (hs_segments (startState lvl))
     = map authored (orEmpty (initial_segments (initial lvl))).
Proof.
  split; simpl; unfold initPoints, initSegments, mapi; apply map_mapi_from.
  - intros p k. simpl. apply XY_eta.
  - intros s k. unfold authored. simpl. rewrite !XY_eta.
    destruct (type s); reflexivity.
Qed.

(** C7.  The history invariant.  Reset establishes it; commit, undo and redo
    preserve it; so in every state of a level visit the cursor is a valid
    index into a history that is not empty, and the snapshot at index 0 is
    the initial configuration of the level, with the coordinates and types it
    was authored with. *)
Theorem history_invariant_preserved (lvl : LevelConfig) (rand : nat -> nat -> float) :
  (forall st, historyInvariant lvl (resetLevel lvl st))
  /\ (forall st newPoints newSegments,
        historyInvariant lvl st ->
        historyInvariant lvl (commitToHistory newPoints newSegments st))
  /\ (forall st, historyInvariant lvl st -> historyInvariant lvl (undo st))
  /\ (forall st, historyInvariant lvl st -> historyInvariant lvl (redo st))
  /\ (forall st, reachableAny lvl rand st ->
        (0 <= historyIndex st < Z.of_nat (length (history st)))%Z
        /\ history st <> []
        /\ index (history st) 0 = Some (startState lvl))
  /\ map (fun p : Point => pt p) (hs_points (startState lvl))
     = map ip_xy (orEmpty (initial_points (initial lvl)))
  /\ map (fun s : Segment => authored s) (hs_segments (startState lvl))
     = map authored (orEmpty (initial_segments (initial lvl))).
Proof.
  split; [apply resetLevel_invariant |].
  split; [intros st ps ss; apply commitToHistory_invariant |].
  split; [apply undo_invariant |].
  split; [apply redo_invariant |].
  split; [| apply startState_as_authored].
  intros st Hreach.
  destruct (reachableBy_invariant lvl rand _ st Hreach) as [Hidx [Hfirst _]].
  repeat split; try lia; try assumption.
  intros Hnil. rewrite Hnil in Hidx. simpl in Hidx. lia.
Qed.

(** *** Commit *)

Lemma commitToHistory_length (st : AppState)
    (newPoints : list Point) (newSegments : list Segment) :
  (0 <= historyIndex st < Z.of_nat (length (history st)))%Z ->
  length (history (commitToHistory newPoints newSegments st))
  = (Z.to_nat (historyIndex st) + 2)%nat.
Proof.
  intros Hidx. unfold commitToHistory. cbn [history].
  rewrite length_app, slice0_length by lia. cbn [length]. lia.
Qed.

(** C2 (as amended).  With the cursor on a snapshot, commit keeps the
    snapshots up to the cursor, appends the new one and moves the cursor to
    it, the last index, so that redo is unavailable and does nothing.  From
    index 2 of four snapshots it leaves four snapshots: 0, 1, 2 and the new
    one. *)
Theorem commit_truncates_redo (st : AppState)
    (newPoints : list Point) (newSegments : list Segment) :
  (0 <= historyIndex st < Z.of_nat (length (history st)))%Z ->
  let st' := commitToHistory newPoints newSegments st in
  let newState := {| hs_points := newPoints; hs_segments := newSegments |} in
  history st' = firstn (Z.to_nat (historyIndex st) + 1) (history st) ++ [newState]
  /\ length (history st') = (Z.to_nat (historyIndex st) + 2)%nat
  /\ historyIndex st' = (historyIndex st + 1)%Z
  /\ historyIndex st' = (Z.of_nat (length (history st')) - 1)%Z
  /\ board st' = newState
  /\ redoDisabled st' = true
  /\ redo st' = st'
  /\ (forall h0 h1 h2 h3,
        history st = [h0; h1; h2; h3] -> historyIndex st = 2%Z ->
        history st' = [h0; h1; h2; newState]).
Proof.
  intros Hidx st' newState.
  assert (Hhist : history st'
                  = firstn (Z.to_nat (historyIndex st) + 1) (history st) ++ [newState]).
  { unfold st', commitToHistory. simpl.
    rewrite slice0_in_range by lia.
    replace (Z.to_nat (historyIndex st + 1)) with (Z.to_nat (historyIndex st) + 1)%nat
      by lia.
    reflexivity. }
  assert (Hlen : length (history st') = (Z.to_nat (historyIndex st) + 2)%nat).
  { rewrite Hhist, length_app, length_firstn. simpl. lia. }
  assert (Hcur : historyIndex st' = (historyIndex st + 1)%Z) by reflexivity.
  assert (Hlast : historyIndex st' = (Z.of_nat (length (history st')) - 1)%Z)
    by (rewrite Hcur, Hlen; lia).
  repeat split; try assumption.
  - unfold redoDisabled. apply Z.leb_le. lia.
  - unfold redo.
    destruct (Z.ltb_spec (historyIndex st') (Z.of_nat (length (history st')) - 1));
      [lia | reflexivity].
  - intros h0 h1 h2 h3 Hfour Htwo. rewrite Hhist, Hfour, Htwo. reflexivity.
Qed.

(** *** Reachability of the example boards *)

Lemma reachable_run (lvl : LevelConfig) (rand : nat -> nat -> float)
    (allowed : Action -> Prop) (acts : list Action) (st : AppState) :
  Forall allowed acts -> reachableBy lvl rand allowed st ->
  reachableBy lvl rand allowed (run lvl rand acts st).
Proof.
  unfold run. revert st. induction acts as [| a acts IH]; intros st Hall Hreach; simpl.
  - exact Hreach.
  - inversion Hall as [| a' acts' Ha Hacts]; subst.
    apply IH; [exact Hacts |]. apply reach_step; assumption.
Qed.

Lemma reachable_from_load (lvl : LevelConfig) (rand : nat -> nat -> float)
    (allowed : Action -> Prop) (acts : list Action) (st0 : AppState) :
  Forall allowed acts ->
  reachableBy lvl rand allowed (run lvl rand (User Reset :: acts) st0).
Proof.
  intros Hall. change (run lvl rand (User Reset :: acts) st0)
    with (run lvl rand acts (step lvl rand (User Reset) st0)).
  apply reachable_run; [exact Hall | apply reach_load].
Qed.

Lemma isUser_User (e : Event) : isUser (User e).
Proof. exists e. reflexivity. Qed.

Lemma threeReveals_reachable : reachable levelDiagonal noRandom threeReveals.
Proof.
  apply reachable_from_load. repeat constructor; apply isUser_User.
Qed.

Lemma twoOfFour_reachable : reachable levelDiagonal noRandom twoOfFour.
Proof.
  apply reach_step; [apply isUser_User | apply threeReveals_reachable].
Qed.

Lemma cornerCleared_reachable : reachable levelCorner noRandom cornerCleared.
Proof.
  apply reachable_from_load. repeat constructor; apply isUser_User.
Qed.

Lemma twoOfFour_cursor :
  historyIndex twoOfFour = 2%Z /\ length (history twoOfFour) = 4%nat.
Proof. vm_compute. split; reflexivity. Qed.

(** C2, the count as the specification gives it.  From index 2 of four
    snapshots, a board that the interface reaches, commit leaves four
    snapshots, not three. *)
Lemma commit_from_2_of_4_leaves_four :
  historyIndex twoOfFour = 2%Z
  /\ length (history twoOfFour) = 4%nat
  /\ forall newPoints newSegments,
       length (history (commitToHistory newPoints newSegments twoOfFour)) <> 3%nat.
Proof.
  destruct twoOfFour_cursor as [Hcur Hlen].
  split; [exact Hcur |]. split; [exact Hlen |].
  intros newPoints newSegments.
  rewrite commitToHistory_length by (rewrite Hcur, Hlen; lia).
  rewrite Hcur. discriminate.
Qed.

Lemma commit_truncates_redo_witness :
  length (history (commitToHistory [] [] twoOfFour)) = 4%nat.
Proof.
  assert (Hidx : (0 <= historyIndex twoOfFour
                  < Z.of_nat (length (history twoOfFour)))%Z)
    by (vm_compute; split; [discriminate | reflexivity]).
  destruct (commit_truncates_redo twoOfFour [] [] Hidx) as [_ [Hlen _]].
  rewrite Hlen. vm_compute. reflexivity.
Defined.

Lemma history_invariant_preserved_witness :
  index (history twoOfFour) 0 = Some (startState levelDiagonal).
Proof.
  destruct (history_invariant_preserved levelDiagonal noRandom)
    as [_ [_ [_ [_ [Hreach _]]]]].
  apply Hreach. apply reachable_reachableAny. apply twoOfFour_reachable.
Defined.

Lemma goal_clearing_monotonic_witness :
  evaluateGoal levelCorner
    (visiblePoints cornerCleared ++ visiblePoints twoOfFour) (segments twoOfFour) = true.
Proof.
  apply (goal_clearing_monotonic levelCorner
           (visiblePoints cornerCleared)
           (visiblePoints cornerCleared ++ visiblePoints twoOfFour)
           [] (segments twoOfFour)).
  - apply incl_appl, incl_refl.
  - intros s [].
  - vm_compute. reflexivity.
Defined.

(** *** Undo and redo *)

Lemma undo_at_start (st : AppState) :
  (historyIndex st <= 0)%Z -> undo st = st.
Proof.
  intros Hidx. unfold undo.
  destruct (Z.ltb_spec 0 (historyIndex st)); [lia | reflexivity].
Qed.

Lemma redo_at_end (st : AppState) :
  (Z.of_nat (length (history st)) - 1 <= historyIndex st)%Z -> redo st = st.
Proof.
  intros Hidx. unfold redo.
  destruct (Z.ltb_spec (historyIndex st) (Z.of_nat (length (history st)) - 1));
    [lia | reflexivity].
Qed.

Lemma undo_moves_back (lvl : LevelConfig) (st : AppState) :
  historyInvariant lvl st -> (0 < historyIndex st)%Z ->
  history (undo st) = history st
  /\ historyIndex (undo st) = (historyIndex st - 1)%Z
  /\ index (history st) (historyIndex st - 1) = Some (board (undo st)).
Proof.
  intros [Hidx _] Hpos. unfold undo.
  destruct (Z.ltb_spec 0 (historyIndex st)); [| lia].
  destruct (index_in_range (history st) (historyIndex st - 1)) as [state Hstate];
    [lia |].
  unfold moveTo. rewrite Hstate. unfold board. simpl.
  destruct state; auto.
Qed.

(** Redo on a board whose cursor is one step behind that of [st], in the
    history of [st], shows the board of [st] again. *)
Lemma redo_returns (lvl : LevelConfig) (st st1 : AppState) :
  historyInvariant lvl st -> (0 < historyIndex st)%Z ->
  history st1 = history st -> historyIndex st1 = (historyIndex st - 1)%Z ->
  board (redo st1) = board st
  /\ history (redo st1) = history st
  /\ historyIndex (redo st1) = historyIndex st.
Proof.
  intros [Hidx [_ Hcur]] Hpos Hhist Hback. unfold redo.
  rewrite Hhist, Hback.
  destruct (Z.ltb_spec (historyIndex st - 1) (Z.of_nat (length (history st)) - 1));
    [| lia].
  unfold moveTo. rewrite Hhist.
  replace (historyIndex st - 1 + 1)%Z with (historyIndex st) by lia.
  rewrite Hcur. unfold board. simpl. auto.
Qed.

Lemma board_eq (st st' : AppState) :
  board st' = board st ->
  visiblePoints st' = visiblePoints st /\ segments st' = segments st.
Proof. unfold board. intros [= Hp Hs]. auto. Qed.

(** C8.  In a level visit, undo does nothing when the cursor is 0 and redo
    does nothing when the cursor is on the last index (their buttons are
    disabled then); from any cursor above 0 undo followed by redo shows the
    same points and lines again and leaves the history and the cursor as
    they were, whether or not the goal is evaluated in between. *)
Theorem undo_redo_inverse (lvl : LevelConfig) (rand : nat -> nat -> float)
    (st : AppState) :
  reachableAny lvl rand st ->
  (historyIndex st = 0%Z -> undoDisabled st = true /\ undo st = st)
  /\ (historyIndex st = (Z.of_nat (length (history st)) - 1)%Z ->
      redoDisabled st = true /\ redo st = st)
  /\ ((0 < historyIndex st)%Z ->
      (visiblePoints (redo (undo st)) = visiblePoints st
       /\ segments (redo (undo st)) = segments st
       /\ history (redo (undo st)) = history st
       /\ historyIndex (redo (undo st)) = historyIndex st)
      /\ (let st' := step lvl rand (User Redo) (step lvl rand (User Undo) st) in
          visiblePoints st' = visiblePoints st
          /\ segments st' = segments st
          /\ history st' = history st
          /\ historyIndex st' = historyIndex st)).
Proof.
  intros Hreach.
  pose proof (reachableBy_invariant lvl rand _ st Hreach) as Hinv.
  split.
  { intros H0. split; [unfold undoDisabled; apply Z.leb_le; lia |].
    apply undo_at_start. lia. }
  split.
  { intros Hlast. split; [unfold redoDisabled; apply Z.leb_le; lia |].
    apply redo_at_end. lia. }
  intros Hpos.
  destruct (undo_moves_back lvl st Hinv Hpos) as [Hh [Hi _]].
  split.
  - destruct (redo_returns lvl st (undo st) Hinv Hpos Hh Hi) as [Hb [Hh' Hi']].
    destruct (board_eq _ _ Hb) as [Hp Hs]. auto.
  - cbv zeta.
    change (step lvl rand (User Undo) st) with (goalEffect lvl (undo st)).
    change (step lvl rand (User Redo) (goalEffect lvl (undo st)))
      with (goalEffect lvl (redo (goalEffect lvl (undo st)))).
    destruct (goalEffect_board lvl (undo st)) as [_ [_ [Hgh [Hgi _]]]].
    destruct (redo_returns lvl st (goalEffect lvl (undo st)) Hinv Hpos)
      as [Hb [Hh' Hi']]; [congruence | congruence |].
    destruct (board_eq _ _ Hb) as [Hp Hs].
    destruct (goalEffect_board lvl (redo (goalEffect lvl (undo st))))
      as [Hp' [Hs' [Hh'' [Hi'' _]]]].
    repeat split; congruence.
Qed.

Lemma undo_redo_inverse_witness :
  visiblePoints (redo (undo threeReveals)) = visiblePoints threeReveals.
Proof.
  assert (Hpos : (0 < historyIndex threeReveals)%Z) by (vm_compute; reflexivity).
  destruct (undo_redo_inverse levelDiagonal noRandom threeReveals) as [_ [_ Hback]].
  - apply reachable_reachableAny, threeReveals_reachable.
  - destruct (Hback Hpos) as [[Hpoints _] _]. exact Hpoints.
Defined.

(** *** The cleared flag *)

Lemma resetInteraction_flag (st : AppState) :
  isLevelCleared (resetInteraction st) = isLevelCleared st.
Proof. reflexivity. Qed.

Lemma moveTo_keeps_flag (i : Z) (st : AppState) :
  isLevelCleared (moveTo i st (isLevelCleared st)) = isLevelCleared st.
Proof. unfold moveTo. destruct (index (history st) i); reflexivity. Qed.

Lemma perform_keeps_flag (lvl : LevelConfig) (rand : nat -> nat -> float)
    (a : Action) (st : AppState) :
  keepsFlag a -> isLevelCleared (perform lvl rand a st) = isLevelCleared st.
Proof.
  destruct a as [[| | | cx cy coords | cx cy coords | coords now |] | ps ss];
    simpl; intros Hkeep; try contradiction; try reflexivity.
  - unfold redo. destruct (_ <? _)%Z; [apply moveTo_keeps_flag | reflexivity].
  - unfold handleMouseDown. destruct (isLevelCleared st) eqn:Hflag; [exact Hflag |].
    destruct (findNearestPoint rand (x coords) (y coords) st);
      simpl; rewrite ?Hflag; reflexivity.
  - destruct (handleMouseUp_cases lvl rand coords now st)
      as [-> | [[newPoints ->] | [newPoints [seg [_ ->]]]]]; reflexivity.
Qed.

Lemma step_keeps_flag (lvl : LevelConfig) (rand : nat -> nat -> float)
    (a : Action) (st : AppState) :
  keepsFlag a -> isLevelCleared st = true ->
  isLevelCleared (step lvl rand a st) = true.
Proof.
  intros Hkeep Hflag. unfold step. rewrite goalEffect_cleared.
  rewrite (perform_keeps_flag lvl rand a st Hkeep), Hflag. reflexivity.
Qed.

(** C3 (as amended).  A set flag survives every sequence of actions without
    undo and reset: commits, redos and pointer events.  Undo from a cursor
    above 0 resets the flag, and the evaluation that follows sets it again
    exactly when the snapshot undo returns to reaches the goal; undo at
    cursor 0 leaves it set.  Reset clears it likewise, up to the evaluation
    of the initial board. *)
Theorem cleared_flag_survives_all_but_undo_and_reset
    (lvl : LevelConfig) (rand : nat -> nat -> float) (st : AppState) :
  isLevelCleared st = true ->
  (forall acts, Forall keepsFlag acts -> isLevelCleared (run lvl rand acts st) = true)
  /\ (forall state,
        (0 < historyIndex st)%Z ->
        index (history st) (historyIndex st - 1) = Some state ->
        isLevelCleared (undo st) = false
        /\ isLevelCleared (step lvl rand (User Undo) st)
           = evaluateGoal lvl (hs_points state) (hs_segments state))
  /\ ((historyIndex st <= 0)%Z -> isLevelCleared (step lvl rand (User Undo) st) = true)
  /\ isLevelCleared (step lvl rand (User Reset) st)
     = evaluateGoal lvl (initPoints lvl) (initSegments lvl).
Proof.
  intros Hflag. split; [| split; [| split]].
  - intros acts. revert st Hflag. unfold run.
    induction acts as [| a acts IH]; intros st Hflag Hall; simpl.
    + exact Hflag.
    + inversion Hall as [| a' acts' Ha Hacts]; subst.
      apply IH; [| exact Hacts]. apply step_keeps_flag; assumption.
  - intros state Hpos Hstate.
    change (step lvl rand (User Undo) st) with (goalEffect lvl (undo st)).
    rewrite goalEffect_cleared. unfold undo.
    destruct (Z.ltb_spec 0 (historyIndex st)); [| lia].
    unfold moveTo. rewrite Hstate. simpl. auto.
  - intros Hidx.
    change (step lvl rand (User Undo) st) with (goalEffect lvl (undo st)).
    rewrite undo_at_start by exact Hidx.
    rewrite goalEffect_cleared, Hflag. reflexivity.
  - unfold step. rewrite goalEffect_cleared. reflexivity.
Qed.

(** C3, as the specification words it.  On [levelCorner] the interface
    reaches a cleared board (the goal point is revealed), and one undo, a
    history action, leaves the flag unset. *)
Lemma cleared_flag_not_sticky_under_undo :
  ~ (forall lvl rand, clearedIsSticky lvl rand).
Proof.
  intros Hsticky.
  specialize (Hsticky levelCorner noRandom cornerCleared cornerCleared_reachable).
  assert (Hflag : isLevelCleared cornerCleared = true) by (vm_compute; reflexivity).
  specialize (Hsticky Hflag [User Undo]).
  assert (Hacts : Forall historyAction [User Undo]) by (repeat constructor).
  specialize (Hsticky Hacts).
  assert (Hafter : isLevelCleared (run levelCorner noRandom [User Undo] cornerCleared)
                   = false) by (vm_compute; reflexivity).
  congruence.
Qed.

Lemma cleared_flag_survives_witness :
  isLevelCleared
    (run levelCorner noRandom
         [User Redo; Commit [] []; User (MouseDown 0 0 (at_ 2 2)); User (MouseUp (at_ 2 2) 5)]
         cornerCleared) = true.
Proof.
  assert (Hflag : isLevelCleared cornerCleared = true) by (vm_compute; reflexivity).
  destruct (cleared_flag_survives_all_but_undo_and_reset
              levelCorner noRandom cornerCleared Hflag) as [Hkeep _].
  apply Hkeep. repeat constructor.
Defined.

(** *** No line of length zero *)

Lemma Forall_slice0 {A} (P : A -> Prop) (arr : list A) (stop : Z) :
  Forall P arr -> Forall P (slice0 arr stop).
Proof.
  intros Hall. unfold slice0.
  rewrite <- (firstn_skipn (Z.to_nat
    (if (stop <? 0)%Z then Z.max (Z.of_nat (length arr) + stop) 0
     else Z.min stop (Z.of_nat (length arr)))) arr) in Hall.
  apply Forall_app in Hall. tauto.
Qed.

Lemma Forall_index {A} (P : A -> Prop) (arr : list A) (i : Z) (v : A) :
  Forall P arr -> index arr i = Some v -> P v.
Proof.
  intros Hall. unfold index. destruct (i <? 0)%Z; [discriminate |].
  intros Hnth. apply nth_error_In in Hnth.
  rewrite Forall_forall in Hall. auto.
Qed.

Lemma initSegments_nonDegenerate (lvl : LevelConfig) :
  Forall nonDegenerate (orEmpty (initial_segments (initial lvl))) ->
  Forall (fun s : Segment => nonDegenerate s) (initSegments lvl).
Proof.
  unfold initSegments, mapi. generalize 0%nat.
  induction (orEmpty (initial_segments (initial lvl))) as [| s rest IH];
    intros i Hall; simpl.
  - constructor.
  - inversion Hall as [| s' rest' Hs Hrest]; subst.
    constructor; [| apply IH; exact Hrest].
    exact Hs.
Qed.

Lemma commitToHistory_lines (st : AppState)
    (newPoints : list Point) (newSegments : list Segment) :
  Forall (fun s : Segment => nonDegenerate s) newSegments ->
  linesNonDegenerate st ->
  linesNonDegenerate (commitToHistory newPoints newSegments st).
Proof.
  intros Hnew [Hboard Hhist]. split; simpl.
  - exact Hnew.
  - apply Forall_app. split; [apply Forall_slice0, Hhist |].
    constructor; [exact Hnew | constructor].
Qed.

Lemma moveTo_lines (i : Z) (st : AppState) (flag : bool) :
  linesNonDegenerate st -> linesNonDegenerate (moveTo i st flag).
Proof.
  intros [Hboard Hhist]. unfold moveTo.
  destruct (index (history st) i) as [state |] eqn:Hstate; split; simpl;
    try assumption.
  apply (Forall_index _ _ _ _ Hhist Hstate).
Qed.

Lemma goalEffect_lines (lvl : LevelConfig) (st : AppState) :
  linesNonDegenerate st -> linesNonDegenerate (goalEffect lvl st).
Proof.
  destruct (goalEffect_board lvl st) as [_ [Hs [Hh _]]].
  unfold linesNonDegenerate. rewrite Hs, Hh. tauto.
Qed.

Lemma resetLevel_lines (lvl : LevelConfig) (st : AppState) :
  Forall nonDegenerate (orEmpty (initial_segments (initial lvl))) ->
  linesNonDegenerate (resetLevel lvl st).
Proof.
  intros Hinit. apply initSegments_nonDegenerate in Hinit.
  split; simpl; [exact Hinit |]. constructor; [exact Hinit | constructor].
Qed.

Lemma changeLevel_lines (lvl : LevelConfig) (st : AppState) :
  Forall nonDegenerate (orEmpty (initial_segments (initial lvl))) ->
  linesNonDegenerate (changeLevel lvl st).
Proof.
  intros Hinit. unfold changeLevel.
  destruct (negb (isLevelCleared st) && isLevelCleared (goalEffect lvl st));
    [| apply resetLevel_lines, Hinit].
  apply (resetLevel_lines lvl st) in Hinit. exact Hinit.
Qed.

Lemma handle_lines (lvl : LevelConfig) (rand : nat -> nat -> float)
    (e : Event) (st : AppState) :
  Forall nonDegenerate (orEmpty (initial_segments (initial lvl))) ->
  linesNonDegenerate st -> linesNonDegenerate (handle lvl rand e st).
Proof.
  intros Hinit Hlines.
  destruct e as [| | | cx cy coords | cx cy coords | coords now |]; simpl.
  - apply resetLevel_lines, Hinit.
  - unfold undo. destruct (_ <? _)%Z; [apply moveTo_lines |]; exact Hlines.
  - unfold redo. destruct (_ <? _)%Z; [apply moveTo_lines |]; exact Hlines.
  - unfold handleMouseDown. destruct (isLevelCleared st); [exact Hlines |].
    destruct (findNearestPoint rand (x coords) (y coords) st); exact Hlines.
  - exact Hlines.
  - assert (Hreset : forall s, linesNonDegenerate s ->
                               linesNonDegenerate (resetInteraction s))
      by (intros s Hs; exact Hs).
    destruct (handleMouseUp_cases lvl rand coords now st)
      as [-> | [[newPoints ->] | [newPoints [seg [Hseg ->]]]]]; apply Hreset.
    + exact Hlines.
    + apply commitToHistory_lines; [apply Hlines | exact Hlines].
    + apply commitToHistory_lines; [| exact Hlines].
      apply Forall_app. split; [apply Hlines |].
      constructor; [exact Hseg | constructor].
  - exact Hlines.
Qed.

(** A draw whose two end points are the same point commits nothing: only the
    interaction state is reset. *)
Lemma handleMouseUp_rejects_zero_length (lvl : LevelConfig)
    (rand : nat -> nat -> float) (coords : XY) (now : Z) (st : AppState)
    (a b : Point) :
  dragStartPoint st = Some a -> isActuallyDragging st = true ->
  findNearestPoint rand (x coords) (y coords) st = Some b ->
  pointsEqual a b = true ->
  handleMouseUp lvl rand coords now st = resetInteraction st.
Proof.
  intros Hstart Hdrag Hend Hsame. unfold handleMouseUp.
  rewrite Hstart, Hdrag, Hend, Hsame. reflexivity.
Qed.

(** C10.  On a level whose own lines have two distinct end points, every
    line of every board and of every snapshot of the history of a level visit
    has two end points that are not [pointsEqual]: a draw that ends on the
    point it started from is rejected and commits nothing. *)
Theorem no_zero_length_line (lvl : LevelConfig) (rand : nat -> nat -> float)
    (st : AppState) :
  Forall nonDegenerate (orEmpty (initial_segments (initial lvl))) ->
  reachable lvl rand st ->
  Forall (fun s : Segment => pointsEqual (seg_p1 s) (seg_p2 s) = false) (segments st)
  /\ (forall snapshot (s : Segment),
        In snapshot (history st) -> In s (hs_segments snapshot) ->
        pointsEqual (seg_p1 s) (seg_p2 s) = false)
  /\ (forall coords now (a b : Point),
        dragStartPoint st = Some a -> isActuallyDragging st = true ->
        findNearestPoint rand (x coords) (y coords) st = Some b ->
        pointsEqual a b = true ->
        perform lvl rand (User (MouseUp coords now)) st = resetInteraction st).
Proof.
  intros Hinit Hreach.
  assert (Hlines : linesNonDegenerate st).
  { induction Hreach as [st0 | st0 | a st [e ->] Hreach IH].
    - apply goalEffect_lines. simpl. apply resetLevel_lines, Hinit.
    - apply goalEffect_lines, changeLevel_lines, Hinit.
    - apply goalEffect_lines. simpl. apply handle_lines; assumption. }
  destruct Hlines as [Hboard Hhist]. split; [exact Hboard |]. split.
  - intros snapshot s Hsnap Hs.
    rewrite Forall_forall in Hhist. specialize (Hhist snapshot Hsnap).
    rewrite Forall_forall in Hhist. apply (Hhist s Hs).
  - intros coords now a b. simpl. apply handleMouseUp_rejects_zero_length.
Qed.

(** The levels the editor exports have lines with two distinct end points,
    initial lines and goal lines alike. *)
Lemma editor_lines_nonDegenerate (st : LevelEditor.EditorState) :
  LevelEditor.reachable st ->
  Forall nonDegenerate (orEmpty (initial_segments (initial (LevelEditor.config st))))
  /\ (forall g, goals (LevelEditor.config st) = Some g ->
                Forall nonDegenerate (orEmpty (goals_segments g))).
Proof.
  intros Hreach.
  assert (Hinv : Forall (fun s : Segment => nonDegenerate s) (LevelEditor.initialSegments st)
                 /\ Forall (fun s : Segment => nonDegenerate s) (LevelEditor.goalSegments st)).
  { induction Hreach as [| e st Hreach [IHi IHg]].
    - split; constructor.
    - destruct e as [coords now | coords | coords now | kind i | layer shp ty dflt lid];
        simpl.
      + unfold LevelEditor.handleMouseDown.
        destruct (LevelEditor.snap (x coords) (y coords)); [| auto].
        destruct (LevelEditor.editShape st); [| simpl; auto].
        destruct (LevelEditor.editLayer st);
          match goal with |- context [find ?f ?l] => destruct (find f l) end;
          simpl; auto.
      + auto.
      + unfold LevelEditor.handleMouseUp.
        destruct (LevelEditor.editShape st); [simpl; auto |].
        destruct (LevelEditor.dragStart st) as [start |]; [| simpl; auto].
        destruct (LevelEditor.snap (x coords) (y coords)) as [snapped |];
          [| simpl; auto].
        destruct (pointsEqual start snapped) eqn:Hsame; [simpl; auto |].
        destruct (LevelEditor.editLayer st); simpl; split; auto;
          apply Forall_app; (split; [assumption |]);
          (constructor; [exact Hsame | constructor]).
      + unfold LevelEditor.removeItem. simpl. split.
        * destruct kind; auto. apply Forall_forall. intros s Hin.
          apply filter_In in Hin. rewrite Forall_forall in IHi. apply IHi, Hin.
        * destruct kind; auto. apply Forall_forall. intros s Hin.
          apply filter_In in Hin. rewrite Forall_forall in IHg. apply IHg, Hin.
      + auto. }
  assert (Hexport : forall segs,
            Forall (fun s : Segment => nonDegenerate s) segs ->
            Forall nonDegenerate (map LevelEditor.exportSegment segs)).
  { intros segs Hall. apply Forall_map.
    eapply Forall_impl; [| exact Hall]. intros s Hs. exact Hs. }
  destruct Hinv as [Hi Hg]. split.
  - simpl. apply Hexport, Hi.
  - intros g [= <-]. simpl. apply Hexport, Hg.
Qed.

Lemma diagonalDrawn_reachable (lvl : LevelConfig) :
  reachable lvl noRandom (diagonalDrawn lvl).
Proof.
  apply reachable_from_load. repeat constructor; apply isUser_User.
Qed.

(** The end-to-end example of the specification: drawing the segment from
    (0,0) to (6,6) commits a second snapshot and clears the level; drawn with
    the line tool, the same two points do not clear it. *)
Example diagonal_clears_as_segment_only :
  (length (history (diagonalDrawn levelDiagonal)) = 2%nat
   /\ map (fun s : Segment => authored s) (segments (diagonalDrawn levelDiagonal))
      = [ (at_ 0 0, at_ 6 6, SEGMENT) ]
   /\ isLevelCleared (diagonalDrawn levelDiagonal) = true)
  /\ (map (fun s : Segment => authored s) (segments (diagonalDrawn levelDiagonalAsLine))
      = [ (at_ 0 0, at_ 6 6, LINE) ]
      /\ isLevelCleared (diagonalDrawn levelDiagonalAsLine) = false).
Proof. vm_compute. repeat split; reflexivity. Qed.

(** On [levelCross] a click near the crossing of the two given segments
    reveals it, which clears the level; a ray drawn along the diagonal is
    added to the two segments. *)
Example crossing_revealed_by_click :
  let st := run levelCross noRandom (User Reset :: click (at_ 0.7 1.3) 10)
                initialAppState in
  map (fun p : Point => pt p) (visiblePoints st)
  = [ at_ 0.66666666666666663 1.3333333333333333 ]
  /\ isLevelCleared st = true
  /\ map (fun s : Segment => authored s) (segments (diagonalDrawn levelCross))
     = [ (at_ 0 0, at_ 3 6, SEGMENT); (at_ 0 2, at_ 2 0, SEGMENT);
         (at_ 0 0, at_ 6 6, RAY) ].
Proof. vm_compute. repeat split; reflexivity. Qed.

Lemma no_zero_length_line_witness :
  Forall (fun s : Segment => pointsEqual (seg_p1 s) (seg_p2 s) = false)
         (segments (diagonalDrawn levelCross)).
Proof.
  assert (Hinit : Forall nonDegenerate
                    (orEmpty (initial_segments (initial levelCross))))
    by (repeat (constructor; [reflexivity |]); constructor).
  destruct (no_zero_length_line levelCross noRandom (diagonalDrawn levelCross)
              Hinit (diagonalDrawn_reachable levelCross)) as [Hboard _].
  exact Hboard.
Defined.

(** The condition on the level matters.  [levelDot] starts with a line from
    (1,1) to (1,1); a click on the vertex (2,2) commits a snapshot, and the
    line is on the board and in both snapshots of the history. *)
Lemma zero_length_line_of_the_level_is_committed :
  reachable levelDot noRandom dotClicked
  /\ historyIndex dotClicked = 1%Z
  /\ length (history dotClicked) = 2%nat
  /\ Forall (fun h => exists s : Segment,
                        In s (hs_segments h)
                        /\ pointsEqual (seg_p1 s) (seg_p2 s) = true)
            (history dotClicked)
  /\ exists s : Segment,
       In s (segments dotClicked) /\ pointsEqual (seg_p1 s) (seg_p2 s) = true.
Proof.
  split; [apply reachable_from_load; repeat constructor; apply isUser_User |].
  split; [vm_compute; reflexivity |]. split; [vm_compute; reflexivity |].
  split.
  - assert (Hall : forallb (fun h => existsb (fun s : Segment =>
                                pointsEqual (seg_p1 s) (seg_p2 s)) (hs_segments h))
                           (history dotClicked) = true)
      by (vm_compute; reflexivity).
    rewrite forallb_forall in Hall. apply Forall_forall. intros h Hh.
    specialize (Hall h Hh). apply existsb_exists in Hall. exact Hall.
  - apply existsb_exists. vm_compute. reflexivity.
Qed.

(** ** Further properties of the geometry kernel *)

(** *** The order of binary64 numbers *)

Lemma SFcompare_finite_Lt (s : bool) (m1 : positive) (e1 : Z) (m2 : positive) (e2 : Z) :
  SFcompare (S754_finite s m1 e1) (S754_finite s m2 e2) = Some Lt
  <-> finiteLt s e1 m1 e2 m2.
Proof.
  unfold finiteLt. simpl.
  change (Pos.compare_cont Eq m1 m2) with (m1 ?= m2)%positive.
  destruct s; destruct (Z.compare_spec e1 e2) as [He | He | He];
    destruct (Pos.compare_spec m1 m2) as [Hm | Hm | Hm]; simpl;
    split; intros H; try reflexivity; try discriminate; try lia.
Qed.

Lemma SFltb_trans (X Y Z : spec_float) :
  SFltb X Y = true -> SFltb Y Z = true -> SFltb X Z = true.
Proof.
  unfold SFltb.
  destruct (SFcompare X Y) as [[| |] |] eqn:Hxy; try discriminate.
  destruct (SFcompare Y Z) as [[| |] |] eqn:Hyz; try discriminate.
  intros _ _.
  assert (Hxz : SFcompare X Z = Some Lt); [| rewrite Hxz; reflexivity].
  destruct X as [sx | sx | | sx mx ex], Y as [sy | sy | | sy my ey],
    Z as [sz | sz | | sz mz ez];
    try discriminate;
    try (destruct sx; try discriminate);
    try (destruct sy; try discriminate);
    try (destruct sz; try discriminate);
    try reflexivity.
  - apply SFcompare_finite_Lt. apply SFcompare_finite_Lt in Hxy, Hyz.
    unfold finiteLt in *. lia.
  - apply SFcompare_finite_Lt. apply SFcompare_finite_Lt in Hxy, Hyz.
    unfold finiteLt in *. lia.
Qed.

Lemma ltb_trans (a b c : float) :
  (a <? b) = true -> (b <? c) = true -> (a <? c) = true.
Proof. rewrite !ltb_spec. apply SFltb_trans. Qed.

Lemma ltb_irrefl (a : float) : (a <? a) = false.
Proof.
  rewrite ltb_spec. unfold SFltb.
  pose proof (SFcompare_antisym (Prim2SF a) (Prim2SF a)) as H.
  destruct (SFcompare (Prim2SF a) (Prim2SF a)) as [[| |] |]; try reflexivity.
  discriminate.
Qed.

(** [c] is not below [b] and [a] is: then [c] is not below [a]. *)
Lemma ltb_false_below (a b c : float) :
  (c <? b) = false -> (a <? b) = true -> (c <? a) = false.
Proof.
  intros Hcb Hab. destruct (c <? a) eqn:Hca; [| reflexivity].
  rewrite (ltb_trans c a b Hca Hab) in Hcb. discriminate.
Qed.

(** *** Equality of points and of lines *)

Lemma sub_self_finite (v : float) : isFinite v -> v - v = 0.
Proof.
  unfold isFinite. intros Hfin. apply Prim2SF_inj. rewrite sub_spec.
  destruct (Prim2SF v) as [s | s | | s m e]; try contradiction.
  - destruct s; reflexivity.
  - unfold SF64sub, SFsub. rewrite Z.sub_diag. reflexivity.
Qed.

Lemma sub_self_not_finite (v : float) : ~ isFinite v -> isNaN (v - v).
Proof.
  unfold isFinite, isNaN. intros Hfin. rewrite sub_spec.
  destruct (Prim2SF v) as [s | s | | s m e]; try (exfalso; apply Hfin; exact I).
  - destruct s; reflexivity.
  - reflexivity.
Qed.

Lemma near_self (v : float) : (abs (v - v) <? EPSILON) = true <-> isFinite v.
Proof.
  split.
  - intros Hnear. destruct (Prim2SF v) as [s | s | | s m e] eqn:Hv;
      unfold isFinite; rewrite Hv; try exact I; exfalso.
    + assert (Hnan : isNaN (v - v))
        by (apply sub_self_not_finite; unfold isFinite; rewrite Hv; auto).
      rewrite (ltb_nan_l _ _ (abs_nan _ Hnan)) in Hnear. discriminate.
    + assert (Hnan : isNaN (v - v))
        by (apply sub_self_not_finite; unfold isFinite; rewrite Hv; auto).
      rewrite (ltb_nan_l _ _ (abs_nan _ Hnan)) in Hnear. discriminate.
  - intros Hfin. rewrite (sub_self_finite v Hfin). reflexivity.
Qed.

(** X1.  [pointsEqual] is a tolerance, not an equivalence: it does not
    depend on the order of its arguments, a point is equal to itself exactly
    when its two coordinates are finite numbers (a point with a NaN or an
    infinite coordinate is not equal to itself), and it is not transitive:
    (0,0) equals (0.00006,0), which equals (0.00012,0), which (0,0) does not
    equal. *)
Theorem pointsEqual_is_a_tolerance :
  (forall a b, pointsEqual a b = pointsEqual b a)
  /\ (forall a, pointsEqual a a = true <-> isFinite (x a) /\ isFinite (y a))
  /\ (exists a b c, pointsEqual a b = true /\ pointsEqual b c = true
                    /\ pointsEqual a c = false).
Proof.
  split; [exact pointsEqual_sym |]. split.
  - intros a. unfold pointsEqual. rewrite andb_true_iff, !near_self. tauto.
  - exists (at_ 0 0), (at_ 0.00006 0), (at_ 0.00012 0).
    repeat split; reflexivity.
Qed.

Lemma LineType_eqb_sym (a b : LineType) : LineType_eqb a b = LineType_eqb b a.
Proof. destruct a, b; reflexivity. Qed.

Lemma rayDot_sym (A B : SegmentShape) : rayDot A B = rayDot B A.
Proof.
  unfold rayDot. cbv zeta.
  rewrite (mul_comm (x (p2 A) - x (p1 A)) (x (p2 B) - x (p1 B))).
  rewrite (mul_comm (y (p2 A) - y (p1 A)) (y (p2 B) - y (p1 B))).
  rewrite (mul_comm (sqrt _) (sqrt _)). reflexivity.
Qed.

(** X2.  For segments and for rays [segmentsEqual] does not depend on the
    order of its two arguments, whatever the numbers.  For lines it does:
    the distance of the first point of the second line is measured in units
    of the length of the first line, so a short line can equal a long one
    that does not equal it. *)
Theorem segmentsEqual_symmetry :
  (forall A B, typeOrSegment (type A) <> LINE ->
               segmentsEqual A B = segmentsEqual B A)
  /\ (exists A B, type A = Some LINE /\ type B = Some LINE
                  /\ segmentsEqual A B = true /\ segmentsEqual B A = false).
Proof.
  split.
  - intros A B Hty. unfold segmentsEqual. cbv zeta.
    rewrite (LineType_eqb_sym (typeOrSegment (type B))), (rayDot_sym B A).
    rewrite (pointsEqual_sym (p1 B) (p1 A)), (pointsEqual_sym (p2 B) (p2 A)).
    rewrite (pointsEqual_sym (p1 B) (p2 A)), (pointsEqual_sym (p2 B) (p1 A)).
    rewrite (andb_comm (pointsEqual (p2 A) (p1 B))).
    destruct (type A) as [[| |] |], (type B) as [[| |] |];
      cbn [typeOrSegment LineType_eqb negb] in *;
      try reflexivity; congruence.
  - exists {| p1 := at_ 0 0; p2 := at_ 1 0; type := Some LINE |},
           {| p1 := at_ 0 0.00005; p2 := at_ 6 0.00005; type := Some LINE |}.
    repeat split; reflexivity.
Qed.

Lemma segmentsEqual_symmetry_witness :
  segmentsEqual (rayFrom (0, 0)%Z (1, 1)%Z) (rayFrom (0, 0)%Z (2, 2)%Z)
  = segmentsEqual (rayFrom (0, 0)%Z (2, 2)%Z) (rayFrom (0, 0)%Z (1, 1)%Z).
Proof.
  apply (proj1 segmentsEqual_symmetry). simpl. discriminate.
Defined.

Lemma SFmul_abs (X : spec_float) : SF64mul X X = SF64mul (SFabs X) (SFabs X).
Proof.
  unfold SF64mul, SFmul. destruct X as [s | s | | s m e]; simpl;
    try destruct s; reflexivity.
Qed.

Lemma square_abs (v : float) : v * v = abs v * abs v.
Proof. apply Prim2SF_inj. rewrite !mul_spec, !abs_spec. apply SFmul_abs. Qed.

Lemma square_sub_sym (a b : float) : (a - b) * (a - b) = (b - a) * (b - a).
Proof.
  rewrite (square_abs (a - b)), (square_abs (b - a)), (abs_sub_sym a b). reflexivity.
Qed.

(** X3.  [distSq] gives the same number for [(a, b)] and for [(b, a)],
    rounding, NaN and infinities included. *)
Theorem distSq_symmetric (a b : XY) : distSq a b = distSq b a.
Proof.
  unfold distSq. rewrite (square_sub_sym (x a)), (square_sub_sym (y a)). reflexivity.
Qed.

Lemma checkConstraint_extends (t : float) (ty ty' : option LineType) :
  extendsTo ty ty' = true -> checkConstraint t ty = true -> checkConstraint t ty' = true.
Proof.
  unfold extendsTo, checkConstraint.
  destruct (typeOrSegment ty), (typeOrSegment ty'); try discriminate; try tauto;
    intros _ H; try reflexivity.
  apply andb_true_iff in H. tauto.
Qed.

(** X4.  Extending a line keeps its intersections: when two lines intersect,
    the lines through the same points whose types reach at least as far (a
    segment made a ray or a line, a ray made a line) intersect in the very
    same point. *)
Theorem extending_keeps_intersection (A B A' B' : SegmentShape) (r : float) (c : Point) :
  p1 A' = p1 A -> p2 A' = p2 A -> p1 B' = p1 B -> p2 B' = p2 B ->
  extendsTo (type A) (type A') = true -> extendsTo (type B) (type B') = true ->
  getIntersection A B r = Some c -> getIntersection A' B' r = Some c.
Proof.
  intros HA1 HA2 HB1 HB2 HA HB. unfold getIntersection.
  unfold withinGrid, ix, iy, param_t, param_u, denom.
  rewrite HA1, HA2, HB1, HB2.
  destruct (abs _ <? EPSILON); [discriminate |].
  destruct (checkConstraint _ (type A)) eqn:Ht; [| discriminate].
  destruct (checkConstraint _ (type B)) eqn:Hu; [| discriminate].
  rewrite (checkConstraint_extends _ _ _ HA Ht), (checkConstraint_extends _ _ _ HB Hu).
  simpl. auto.
Qed.

Lemma extending_keeps_intersection_witness :
  getIntersection {| p1 := at_ 0 0; p2 := at_ 3 3; type := Some RAY |}
                  {| p1 := at_ 0 4; p2 := at_ 4 0; type := Some LINE |} 0.5
  = Some {| pt := at_ 2 2; id := IdInt 0.5; isIntersection := Some true;
            label := None; isInitial := None |}.
Proof.
  apply (extending_keeps_intersection
           {| p1 := at_ 0 0; p2 := at_ 3 3; type := Some SEGMENT |}
           {| p1 := at_ 0 4; p2 := at_ 4 0; type := None |});
    reflexivity.
Defined.

(** ** Clipping a line to the grid *)

Lemma clipOnGridAgrees :
  forallb clipAgrees (list_prod gridVerticesZ gridVerticesZ) = true.
Proof. vm_compute. reflexivity. Qed.

Lemma abs_opp (v : float) : abs (- v) = abs v.
Proof.
  apply Prim2SF_inj. rewrite !abs_spec, opp_spec.
  destruct (Prim2SF v); reflexivity.
Qed.

Lemma clipStep_cases (acc : float * float) (p q : float) :
  if (abs p <? EPSILON) && (q <? 0) then clipStep acc (p, q) = None
  else exists acc', clipStep acc (p, q) = Some acc'.
Proof.
  unfold clipStep. destruct acc as [tMin tMax].
  destruct (abs p <? EPSILON); cbn [andb].
  - destruct (q <? 0); eauto.
  - destruct (p <? 0); eauto.
Qed.

(** X5.  When [getGridClippedLine] gives up: the line is collapsed to its
    first point exactly when it runs along a side of the grid ([|dx|] or
    [|dy|] below [EPSILON]) and its first point is beyond the grid in the
    other direction; in every other case two new points are computed,
    whatever the numbers. *)
Theorem clip_collapses (p1 : Point) (p2 : XY) (ty : LineType) :
  let dx := x p2 - x p1 in
  let dy := y p2 - y p1 in
  let besideX :=
    (abs dx <? EPSILON) && ((x p1 - GRID_MIN <? 0) || (GRID_MAX - x p1 <? 0)) in
  let besideY :=
    (abs dy <? EPSILON) && ((y p1 - GRID_MIN <? 0) || (GRID_MAX - y p1 <? 0)) in
  if besideX || besideY
  then getGridClippedLine p1 p2 ty = Collapsed p1
  else exists s e, getGridClippedLine p1 p2 ty = Clip s e.
Proof.
  cbv zeta. unfold getGridClippedLine, clippedEnds. cbv zeta.
  cbn [combine clipLoop].
  pose proof (fun acc => clipStep_cases acc (- (x p2 - x p1)) (x p1 - GRID_MIN)) as H0.
  pose proof (fun acc => clipStep_cases acc (x p2 - x p1) (GRID_MAX - x p1)) as H1.
  pose proof (fun acc => clipStep_cases acc (- (y p2 - y p1)) (y p1 - GRID_MIN)) as H2.
  pose proof (fun acc => clipStep_cases acc (y p2 - y p1) (GRID_MAX - y p1)) as H3.
  rewrite abs_opp in H0, H2. cbv beta in *.
  destruct (abs (x p2 - x p1) <? EPSILON); destruct (abs (y p2 - y p1) <? EPSILON);
    destruct (x p1 - GRID_MIN <? 0); destruct (GRID_MAX - x p1 <? 0);
    destruct (y p1 - GRID_MIN <? 0); destruct (GRID_MAX - y p1 <? 0);
    cbn [andb orb] in *;
    repeat first
      [ rewrite H0; cbv beta iota | rewrite H1; cbv beta iota
      | rewrite H2; cbv beta iota | rewrite H3; cbv beta iota
      | match goal with
        | H : forall acc, exists acc', clipStep acc ?pq = Some acc'
          |- context [clipStep ?a ?pq] =>
            let acc' := fresh "acc" in
            let E := fresh "E" in
            destruct (H a) as [acc' E]; rewrite E; clear H; cbv beta iota
        end ];
    try reflexivity;
    match goal with
    | |- context [let (_, _) := ?a in _] => destruct a
    end;
    eexists; eexists; reflexivity.
Qed.

Lemma vertex_eqb_false (a b : Z * Z) : a <> b -> vertex_eqb a b = false.
Proof.
  destruct a as [ax ay], b as [bx by_]. unfold vertex_eqb. simpl. intros Hne.
  destruct (Z.eqb_spec ax bx); [| reflexivity].
  destruct (Z.eqb_spec ay by_); [| reflexivity].
  subst. contradiction.
Qed.

(** X6.  Between two distinct vertices [a] and [b] of the grid the clipped
    line is never collapsed and runs the way [a] to [b] does; for a segment
    it is the segment from [a] to [b], for a ray it starts at [a] and ends
    on the border of the grid, and for a line both its ends are on the
    border.  The coordinates are exact. *)
Theorem clip_between_grid_vertices (p1 : Point) (a b : Z * Z) (ty : LineType) :
  In a gridVerticesZ -> In b gridVerticesZ -> a <> b -> pt p1 = vertex a ->
  exists s e,
    getGridClippedLine p1 (vertex b) ty = Clip s e
    /\ sameWay s e (vertex a) (vertex b) = true
    /\ match ty with
       | SEGMENT => s = vertex a /\ e = vertex b
       | RAY => s = vertex a /\ onBorder e = true
       | LINE => onBorder s = true /\ onBorder e = true
       end.
Proof.
  intros Ha Hb Hne Hpt.
  pose proof clipOnGridAgrees as Hall. rewrite forallb_forall in Hall.
  specialize (Hall (a, b) (proj2 (in_prod_iff _ _ a b) (conj Ha Hb))).
  unfold clipAgrees in Hall. cbn [fst snd] in Hall.
  rewrite (vertex_eqb_false a b Hne) in Hall. cbn [orb] in Hall.
  rewrite forallb_forall in Hall.
  assert (Hty : In ty [SEGMENT; RAY; LINE]) by (destruct ty; simpl; auto).
  specialize (Hall ty Hty).
  unfold getGridClippedLine. rewrite Hpt.
  destruct (clippedEnds (vertex a) (vertex b) ty) as [[s e] |]; [| discriminate].
  exists s, e. split; [reflexivity |].
  apply andb_true_iff in Hall. destruct Hall as [Hway Hends].
  split; [exact Hway |].
  assert (Heq : forall u v : XY, XY_eqb u v = true -> u = v).
  { intros [ux uy] [vx vy]. unfold XY_eqb. simpl. intros H.
    apply andb_true_iff in H. destruct H as [Hx Hy].
    apply Leibniz.eqb_spec in Hx, Hy. subst. reflexivity. }
  destruct ty; apply andb_true_iff in Hends; destruct Hends as [H1 H2]; auto.
Qed.

Lemma clip_between_grid_vertices_witness :
  exists s e,
    getGridClippedLine (LevelEditor.plainPoint (vertex (0, 1)%Z) (IdP 0))
                       (vertex (3, 2)%Z) LINE = Clip s e
    /\ sameWay s e (vertex (0, 1)%Z) (vertex (3, 2)%Z) = true
    /\ (onBorder s = true /\ onBorder e = true).
Proof.
  apply (clip_between_grid_vertices
           (LevelEditor.plainPoint (vertex (0, 1)%Z) (IdP 0)) (0, 1)%Z (3, 2)%Z LINE).
  - apply in_prod; simpl; tauto.
  - apply in_prod; simpl; tauto.
  - discriminate.
  - reflexivity.
Defined.

(** ** Snapping to the nearest point *)

Lemma nearest_fold (target : XY) (more seen : list Point) (acc : option Point * float) :
  nearestSoFar target seen acc ->
  nearestSoFar target (seen ++ more)
    (fold_left (fun (acc : option Point * float) (p : Point) =>
                  let d := sqrt (distSq p target) in
                  if d <? snd acc then (Some p, d) else acc)
               more acc).
Proof.
  revert seen acc. induction more as [| p more IH]; intros seen acc Hinv.
  - rewrite app_nil_r. exact Hinv.
  - replace (seen ++ p :: more) with ((seen ++ [p]) ++ more)
      by (rewrite <- app_assoc; reflexivity).
    cbn [fold_left]. apply IH. clear IH.
    change (sqrt (distSq p target)) with (snapDistance target p).
    destruct acc as [[c |] m]; unfold nearestSoFar in *; cbn [fst snd] in *.
    + destruct Hinv as [Hin [-> [Hnear Hall]]].
      destruct (snapDistance target p <? snapDistance target c) eqn:Hlt; cbn [fst snd].
      * split; [apply in_or_app; right; left; reflexivity |].
        split; [reflexivity |].
        split; [apply (ltb_trans _ _ _ Hlt Hnear) |].
        intros q Hq. apply in_app_or in Hq. destruct Hq as [Hq | [<- | []]].
        -- apply (ltb_false_below _ _ _ (Hall q Hq) Hlt).
        -- apply ltb_irrefl.
      * split; [apply in_or_app; left; exact Hin |].
        split; [reflexivity |]. split; [exact Hnear |].
        intros q Hq. apply in_app_or in Hq. destruct Hq as [Hq | [<- | []]].
        -- apply Hall, Hq.
        -- exact Hlt.
    + destruct Hinv as [-> Hall].
      destruct (snapDistance target p <? SNAP_THRESHOLD) eqn:Hlt; cbn [fst snd].
      * split; [apply in_or_app; right; left; reflexivity |].
        split; [reflexivity |]. split; [exact Hlt |].
        intros q Hq. apply in_app_or in Hq. destruct Hq as [Hq | [<- | []]].
        -- apply (ltb_false_below _ _ _ (Hall q Hq) Hlt).
        -- apply ltb_irrefl.
      * split; [reflexivity |].
        intros q Hq. apply in_app_or in Hq. destruct Hq as [Hq | [<- | []]].
        -- apply Hall, Hq.
        -- exact Hlt.
Qed.

(** X7.  [findNearestPoint] returns a visible or discoverable point that is
    nearer to the pointer than [SNAP_THRESHOLD] and than which no visible or
    discoverable point is nearer; it returns nothing exactly when no such
    point is nearer than the threshold.  A point at a distance that is NaN
    is never returned. *)
Theorem findNearestPoint_nearest (rand : nat -> nat -> float) (gridX gridY : float)
    (st : AppState) :
  let candidates := visiblePoints st ++ allDiscoverablePoints rand (segments st) in
  let d := snapDistance {| x := gridX; y := gridY |} in
  match findNearestPoint rand gridX gridY st with
  | Some p =>
      In p candidates /\ (d p <? SNAP_THRESHOLD) = true
      /\ forall q, In q candidates -> (d q <? d p) = false
  | None => forall q, In q candidates -> (d q <? SNAP_THRESHOLD) = false
  end.
Proof.
  cbv zeta. unfold findNearestPoint.
  pose proof (nearest_fold {| x := gridX; y := gridY |}
                (visiblePoints st ++ allDiscoverablePoints rand (segments st)) []
                (None, SNAP_THRESHOLD)) as H.
  cbn [app] in H.
  match type of H with _ -> nearestSoFar _ _ ?r => destruct r as [[p |] m] end;
    unfold nearestSoFar in H; cbn [fst snd] in *.
  - destruct H as [Hin [_ [Hnear Hall]]]; [| auto].
    split; [reflexivity | intros q []].
  - apply H. split; [reflexivity | intros q []].
Qed.

(** ** Identifiers and growth of the discoverable points *)

Lemma insertAll_ids (cs : list Candidate) (points : list Point) :
  idsArePositions points -> idsArePositions (insertAll cs points).
Proof.
  revert points. induction cs as [| c cs IH]; intros points Hids; simpl.
  - exact Hids.
  - apply IH.
    destruct (addPoint_cases (cand_x c) (cand_y c) (cand_source c) points)
      as [[-> _] | [_ [_ ->]]]; [exact Hids |].
    intros n e Hn.
    destruct (Nat.lt_ge_cases n (length points)) as [Hlt | Hge].
    + rewrite nth_error_app1 in Hn by exact Hlt. apply (Hids n e Hn).
    + rewrite nth_error_app2 in Hn by exact Hge.
      destruct (n - length points)%nat as [| k] eqn:Hk; simpl in Hn.
      * injection Hn as <-. simpl. exists (cand_source c).
        f_equal. lia.
      * destruct k; discriminate.
Qed.

Lemma idsArePositions_NoDup (points : list Point) :
  idsArePositions points -> NoDup (map id points).
Proof.
  intros Hids. apply NoDup_nth_error. intros i j Hi Heq.
  rewrite length_map in Hi.
  rewrite !nth_error_map in Heq.
  destruct (nth_error points i) as [a |] eqn:Ha;
    [| apply nth_error_None in Ha; lia].
  destruct (nth_error points j) as [b |] eqn:Hb; [| discriminate].
  destruct (Hids i a Ha) as [sa Hsa]. destruct (Hids j b Hb) as [sb Hsb].
  simpl in Heq. injection Heq as Heq. congruence.
Qed.

(** X8.  The identifier of a discoverable point ends in the position of the
    point in the list, so no two discoverable points have the same
    identifier (they are the keys of the circles the board draws). *)
Theorem discoverable_ids_are_positions (rand : nat -> nat -> float)
    (segs : list Segment) :
  (forall n e, nth_error (allDiscoverablePoints rand segs) n = Some e ->
               exists source, id e = IdPotential source n)
  /\ NoDup (map id (allDiscoverablePoints rand segs)).
Proof.
  assert (Hids : idsArePositions (allDiscoverablePoints rand segs)).
  { rewrite allDiscoverablePoints_discover. apply insertAll_ids.
    intros n e Hn. destruct n; discriminate. }
  split; [exact Hids | apply idsArePositions_NoDup, Hids].
Qed.

Lemma candidates_app (shapes more : list SegmentShape) (c : Candidate) :
  In c (candidates shapes) -> In c (candidates (shapes ++ more)).
Proof.
  induction shapes as [| A later IH]; intros Hin; [destruct Hin |].
  cbn [candidates app] in *.
  apply in_app_or in Hin. destruct Hin as [Hin | Hin].
  - apply in_or_app. left. rewrite flat_map_app. apply in_or_app. left. exact Hin.
  - apply in_or_app. right.
    apply in_app_or in Hin. destruct Hin as [Hin | Hin];
      [apply in_or_app; left; exact Hin | apply in_or_app; right].
    apply in_app_or in Hin. destruct Hin as [Hin | Hin];
      [apply in_or_app; left; exact Hin | apply in_or_app; right].
    apply IH, Hin.
Qed.

(** X9.  Drawing keeps the discoverable points: a point that can be
    discovered on a board can still be discovered, as it is or as a point
    equal to it, after any lines are added to the board. *)
Theorem drawing_keeps_discoverable_points (rand rand' : nat -> nat -> float)
    (segs more : list Segment) (e : Point) :
  In e (allDiscoverablePoints rand segs) ->
  covered (allDiscoverablePoints rand' (segs ++ more)) e.
Proof.
  rewrite !allDiscoverablePoints_discover. unfold discover at 1. intros Hin.
  apply insertAll_sound in Hin. destruct Hin as [[] | [c [Hc [Hpt [Hgrid _]]]]].
  rewrite Hpt. apply discover_covers; [| exact Hgrid].
  apply in_app_or in Hc. apply in_or_app.
  destruct Hc as [Hc | Hc]; [left; exact Hc | right].
  rewrite map_app. apply candidates_app, Hc.
Qed.

Lemma drawing_keeps_discoverable_points_witness :
  covered (allDiscoverablePoints noRandom
             (crossOffVertex ++ [lineOn (at_ 0 0) (at_ 6 6) RAY 3]))
          crossingOffVertex.
Proof.
  apply (drawing_keeps_discoverable_points noRandom noRandom crossOffVertex).
  apply (nth_error_In _ 49). vm_compute. reflexivity.
Defined.

(** ** Boards and histories of a level visit *)

Lemma ForallOrdPairs_snoc {A} (R : A -> A -> Prop) (l : list A) (p : A) :
  ForallOrdPairs R l -> (forall e, In e l -> R e p) -> ForallOrdPairs R (l ++ [p]).
Proof.
  induction 1 as [| a l Ha Hl IH]; intros Hp; simpl.
  - constructor; [constructor | constructor].
  - constructor.
    + apply Forall_app. split; [exact Ha |].
      constructor; [apply Hp; left; reflexivity | constructor].
    + apply IH. intros e Hin. apply Hp. right. exact Hin.
Qed.

Lemma ForallOrdPairs_firstn {A} (R : A -> A -> Prop) (n : nat) (l : list A) :
  ForallOrdPairs R l -> ForallOrdPairs R (firstn n l).
Proof.
  intros Hl. revert n. induction Hl as [| a l Ha Hl IH]; intros n.
  - rewrite firstn_nil. constructor.
  - destruct n as [| n]; simpl; [constructor |].
    constructor; [| apply IH].
    rewrite <- (firstn_skipn n l) in Ha. apply Forall_app in Ha. tauto.
Qed.

Lemma ForallOrdPairs_filter {A} (R : A -> A -> Prop) (f : A -> bool) (l : list A) :
  ForallOrdPairs R l -> ForallOrdPairs R (filter f l).
Proof.
  induction 1 as [| a l Ha Hl IH]; simpl; [constructor |].
  destruct (f a); [| exact IH].
  constructor; [| exact IH].
  apply Forall_forall. intros e Hin. apply filter_In in Hin.
  rewrite Forall_forall in Ha. apply Ha, Hin.
Qed.

Lemma ForallOrdPairs_nth {A} (R : A -> A -> Prop) (l : list A) (i j : nat) (a b : A) :
  ForallOrdPairs R l -> (i < j)%nat ->
  nth_error l i = Some a -> nth_error l j = Some b -> R a b.
Proof.
  intros Hl. revert i j. induction Hl as [| c l Hc Hl IH]; intros i j Hij Ha Hb.
  - destruct i; discriminate.
  - destruct j as [| j]; [lia |]. simpl in Hb. destruct i as [| i]; simpl in Ha.
    + injection Ha as <-. rewrite Forall_forall in Hc.
      apply Hc. apply (nth_error_In _ _ Hb).
    + apply (IH i j); [lia | assumption | assumption].
Qed.

(** What releasing the button commits: nothing; the board with one more
    point, which was not on it; or the board with one more line, which was
    not on it and whose end points differ, and with its end points. *)
Lemma handleMouseUp_commits (lvl : LevelConfig) (rand : nat -> nat -> float)
    (coords : XY) (now : Z) (st : AppState) :
  handleMouseUp lvl rand coords now st = resetInteraction st
  \/ (exists p : Point,
        find (fun vp : Point => pointsEqual vp p) (visiblePoints st) = None
        /\ handleMouseUp lvl rand coords now st
           = resetInteraction
               (commitToHistory (visiblePoints st ++ [revealed p (IdRevealed now)])
                                (segments st) st))
  \/ (exists a b : Point,
        pointsEqual a b = false
        /\ existsb (fun s : Segment =>
                      segmentsEqual s {| p1 := a; p2 := b;
                                         type := Some (typeOrSegment (level_lineType lvl)) |})
                   (segments st) = false
        /\ handleMouseUp lvl rand coords now st
           = resetInteraction
               (commitToHistory
                  (pushUnlessPresent
                     (pushUnlessPresent (visiblePoints st) a (revealed a (IdRevealed_s now)))
                     b (revealed b (IdRevealed_e now)))
                  (segments st
                   ++ [ {| seg_p1 := a; seg_p2 := b; seg_id := IdSeg now;
                           seg_isInitial := None;
                           seg_type := Some (typeOrSegment (level_lineType lvl)) |} ])
                  st)).
Proof.
  unfold handleMouseUp.
  destruct (dragStartPoint st) as [dragStart |]; [| left; reflexivity].
  destruct (isActuallyDragging st).
  - destruct (findNearestPoint rand (x coords) (y coords) st) as [endP |];
      [| left; reflexivity].
    destruct (pointsEqual dragStart endP) eqn:Hsame; cbn [negb]; [left; reflexivity |].
    destruct (existsb _ (segments st)) eqn:Hdup; cbn [negb]; [left; reflexivity |].
    right. right. exists dragStart, endP. auto.
  - destruct (findNearestPoint rand (x coords) (y coords) st) as [p |];
      [| left; reflexivity].
    destruct (find _ (visiblePoints st)) eqn:Hfind; [left; reflexivity |].
    right. left. exists p. auto.
Qed.

Lemma pushUnlessPresent_extends (arr : list Point) (p q : Point) :
  exists more, pushUnlessPresent arr p q = arr ++ more /\ (length more <= 1)%nat.
Proof.
  unfold pushUnlessPresent. destruct (find _ arr).
  - exists []. rewrite app_nil_r. auto.
  - exists [q]. auto.
Qed.

Lemma pushUnlessPresent_distinct (arr : list Point) (p q : Point) :
  pt q = pt p -> distinctPoints arr -> distinctPoints (pushUnlessPresent arr p q).
Proof.
  intros Hpt Hd. unfold pushUnlessPresent.
  destruct (find _ arr) eqn:Hfind; [exact Hd |].
  apply distinctPoints_snoc; [exact Hd |].
  intros e Hin. rewrite Hpt. apply (find_none _ _ Hfind e Hin).
Qed.

Lemma pushUnlessPresent_covers (arr : list Point) (p q : Point) :
  pt q = pt p -> covered (pushUnlessPresent arr p q) p.
Proof.
  intros Hpt. unfold pushUnlessPresent.
  destruct (find _ arr) as [e |] eqn:Hfind.
  - apply find_some in Hfind. exists e. tauto.
  - exists q. split; [apply in_or_app; right; left; reflexivity | left; exact Hpt].
Qed.

(** X10.  Releasing the button only adds: the points and the lines of the
    board are kept, in their order, and at most two points and one line
    come after them.  Either nothing is added, and the history and its
    cursor are as before; or something is, and the new board is committed
    as the snapshot after the cursor.  The same board is never committed
    twice in a row. *)
Theorem mouse_up_only_adds (lvl : LevelConfig) (rand : nat -> nat -> float)
    (coords : XY) (now : Z) (st : AppState) :
  let st' := handleMouseUp lvl rand coords now st in
  exists morePoints moreSegments,
    visiblePoints st' = visiblePoints st ++ morePoints
    /\ segments st' = segments st ++ moreSegments
    /\ (length morePoints <= 2)%nat /\ (length moreSegments <= 1)%nat
    /\ ((morePoints = [] /\ moreSegments = []
         /\ history st' = history st /\ historyIndex st' = historyIndex st)
        \/ ((morePoints <> [] \/ moreSegments <> [])
            /\ history st'
               = slice0 (history st) (historyIndex st + 1) ++ [board st']
            /\ historyIndex st' = (historyIndex st + 1)%Z)).
Proof.
  cbv zeta.
  destruct (handleMouseUp_commits lvl rand coords now st)
    as [-> | [[p [Hnew ->]] | [a [b [_ [_ ->]]]]]];
    cbn [resetInteraction commitToHistory visiblePoints segments history
         historyIndex board].
  - exists [], []. rewrite !app_nil_r. simpl. repeat split; auto.
  - exists [revealed p (IdRevealed now)], []. rewrite app_nil_r. simpl.
    repeat split; auto. right. repeat split; auto. left. discriminate.
  - destruct (pushUnlessPresent_extends (visiblePoints st) a (revealed a (IdRevealed_s now)))
      as [more1 [Hmore1 Hlen1]].
    destruct (pushUnlessPresent_extends
                (pushUnlessPresent (visiblePoints st) a (revealed a (IdRevealed_s now)))
                b (revealed b (IdRevealed_e now))) as [more2 [Hmore2 Hlen2]].
    eexists (more1 ++ more2), _. split; [| split; [reflexivity |]].
    + rewrite Hmore2, Hmore1, app_assoc. reflexivity.
    + rewrite length_app. simpl. repeat split; try lia.
      right. repeat split; auto. right. discriminate.
Qed.

(** *** Clicks *)

Lemma goalEffect_interaction (lvl : LevelConfig) (st : AppState) :
  dragStartPoint (goalEffect lvl st) = dragStartPoint st
  /\ startMouseScreenPos (goalEffect lvl st) = startMouseScreenPos st
  /\ isActuallyDragging (goalEffect lvl st) = isActuallyDragging st
  /\ segments (goalEffect lvl st) = segments st
  /\ visiblePoints (goalEffect lvl st) = visiblePoints st.
Proof.
  unfold goalEffect. destruct (goals lvl) as [g |]; [| auto].
  destruct (isLevelCleared st); [auto |].
  destruct (goalReached g (visiblePoints st) (segments st)); cbn; auto.
Qed.

Lemma clicking_move (lvl : LevelConfig) (rand : nat -> nat -> float)
    (cx cy mx my : float) (coords : XY) (st0 st : AppState) :
  withinDragThreshold cx cy mx my -> clicking cx cy st0 st ->
  clicking cx cy st0 (step lvl rand (User (MouseMove mx my coords)) st).
Proof.
  intros Hnear [Hs [Hp Hstate]]. unfold step, clicking.
  destruct (goalEffect_interaction lvl
              (perform lvl rand (User (MouseMove mx my coords)) st))
    as [-> [-> [-> [-> ->]]]].
  cbn [perform handle]. unfold handleMouseMove.
  cbn [segments visiblePoints dragStartPoint startMouseScreenPos isActuallyDragging].
  split; [exact Hs |]. split; [exact Hp |].
  destruct Hstate as [Hnone | [Hdrag Hstart]]; [left; exact Hnone |].
  right. split; [| exact Hstart].
  rewrite Hstart, Hdrag. destruct (dragStartPoint st); [| reflexivity].
  cbn [x y]. unfold withinDragThreshold in Hnear. cbv zeta in Hnear.
  rewrite Hnear. reflexivity.
Qed.

(** X11.  A click draws no line.  When no drag is in progress, the button
    goes down, the pointer stays within [DRAG_THRESHOLD_PX] of that place on
    the screen and the button goes up, then the lines of the board are the
    ones before, and at most one point has been added after the points
    before. *)
Theorem click_draws_no_line (lvl : LevelConfig) (rand : nat -> nat -> float)
    (cx cy : float) (down up : XY) (moves : list (float * float * XY)) (now : Z)
    (st : AppState) :
  dragStartPoint st = None ->
  Forall (fun m => withinDragThreshold cx cy (fst (fst m)) (snd (fst m))) moves ->
  let st' := run lvl rand (pressMoveRelease cx cy down moves up now) st in
  segments st' = segments st
  /\ exists more, visiblePoints st' = visiblePoints st ++ more /\ (length more <= 1)%nat.
Proof.
  intros Hidle Hmoves. cbv zeta. unfold pressMoveRelease, run.
  cbn [fold_left]. rewrite fold_left_app. cbn [fold_left].
  set (st1 := step lvl rand (User (MouseDown cx cy down)) st).
  assert (H1 : clicking cx cy st st1).
  { unfold st1, step, clicking.
    destruct (goalEffect_interaction lvl
                (perform lvl rand (User (MouseDown cx cy down)) st))
      as [-> [-> [-> [-> ->]]]].
    cbn [perform handle]. unfold handleMouseDown.
    destruct (isLevelCleared st); [auto |].
    destruct (findNearestPoint rand (x down) (y down) st); cbn; auto. }
  clearbody st1.
  assert (H2 : clicking cx cy st
                 (fold_left (fun s a => step lvl rand a s)
                    (map (fun m => User (MouseMove (fst (fst m)) (snd (fst m)) (snd m)))
                         moves) st1)).
  { revert st1 H1. induction Hmoves as [| m moves Hm Hmoves IH]; intros st1 H1;
      cbn [map fold_left]; [exact H1 |].
    apply IH. apply clicking_move; assumption. }
  set (st2 := fold_left _ _ st1) in *. clearbody st2.
  destruct H2 as [Hs [Hp Hstate]]. unfold step.
  destruct (goalEffect_interaction lvl (perform lvl rand (User (MouseUp up now)) st2))
    as [_ [_ [_ [-> ->]]]].
  cbn [perform handle]. rewrite <- Hs, <- Hp. unfold handleMouseUp.
  destruct (dragStartPoint st2) as [dragStart |] eqn:Hdrag;
    [| cbn; split; [reflexivity | exists []; rewrite app_nil_r; auto]].
  destruct Hstate as [Hnone | [Hnot _]]; [discriminate |].
  rewrite Hnot.
  destruct (findNearestPoint rand (x up) (y up) st2) as [p |];
    [| cbn; split; [reflexivity | exists []; rewrite app_nil_r; auto]].
  destruct (find _ (visiblePoints st2));
    cbn; split; try reflexivity;
    [exists []; rewrite app_nil_r; auto | eexists; split; [reflexivity | auto]].
Qed.

Lemma click_draws_no_line_witness :
  segments (run levelCorner noRandom
              (pressMoveRelease 0 0 (at_ 1 1) [(3, 4, at_ 1 1)] (at_ 1 1) 10)
              (step levelCorner noRandom (User Reset) initialAppState))
  = segments (step levelCorner noRandom (User Reset) initialAppState)
  /\ exists more,
       visiblePoints (run levelCorner noRandom
                        (pressMoveRelease 0 0 (at_ 1 1) [(3, 4, at_ 1 1)] (at_ 1 1) 10)
                        (step levelCorner noRandom (User Reset) initialAppState))
       = visiblePoints (step levelCorner noRandom (User Reset) initialAppState) ++ more
       /\ (length more <= 1)%nat.
Proof.
  apply (click_draws_no_line levelCorner noRandom 0 0 (at_ 1 1) (at_ 1 1)
           [(3, 4, at_ 1 1)] 10
           (step levelCorner noRandom (User Reset) initialAppState)).
  - reflexivity.
  - constructor; [reflexivity | constructor].
Defined.

(** *** Properties of every snapshot *)

Lemma everySnapshot_same (P : HistoryState -> Prop) (st st' : AppState) :
  visiblePoints st' = visiblePoints st -> segments st' = segments st ->
  history st' = history st ->
  everySnapshot P st -> everySnapshot P st'.
Proof. unfold everySnapshot, board. intros -> -> ->. tauto. Qed.

Lemma everySnapshot_commit (P : HistoryState -> Prop) (st : AppState)
    (newPoints : list Point) (newSegments : list Segment) :
  P {| hs_points := newPoints; hs_segments := newSegments |} ->
  everySnapshot P st ->
  everySnapshot P (commitToHistory newPoints newSegments st).
Proof.
  intros Hnew [_ Hhist]. split; [exact Hnew |].
  cbn [history commitToHistory]. apply Forall_app.
  split; [apply Forall_slice0, Hhist | constructor; [exact Hnew | constructor]].
Qed.

Lemma everySnapshot_moveTo (P : HistoryState -> Prop) (i : Z) (st : AppState)
    (flag : bool) :
  everySnapshot P st -> everySnapshot P (moveTo i st flag).
Proof.
  intros [Hboard Hhist]. unfold moveTo.
  destruct (index (history st) i) as [state |] eqn:Hstate; split;
    try assumption.
  unfold board. cbn [visiblePoints segments].
  pose proof (Forall_index _ _ _ _ Hhist Hstate) as Hs.
  destruct state; exact Hs.
Qed.

Lemma everySnapshot_goalEffect (P : HistoryState -> Prop) (lvl : LevelConfig)
    (st : AppState) :
  everySnapshot P st -> everySnapshot P (goalEffect lvl st).
Proof.
  destruct (goalEffect_board lvl st) as [Hp [Hs [Hh _]]].
  apply everySnapshot_same; assumption.
Qed.

Lemma everySnapshot_reset (P : HistoryState -> Prop) (lvl : LevelConfig)
    (st : AppState) :
  P (startState lvl) -> everySnapshot P (resetLevel lvl st).
Proof.
  intros Hstart. split; [exact Hstart |]. constructor; [exact Hstart | constructor].
Qed.

Lemma everySnapshot_changeLevel (P : HistoryState -> Prop) (lvl : LevelConfig)
    (st : AppState) :
  P (startState lvl) -> everySnapshot P (changeLevel lvl st).
Proof.
  intros Hstart. unfold changeLevel.
  destruct (negb (isLevelCleared st) && isLevelCleared (goalEffect lvl st));
    [| apply everySnapshot_reset, Hstart].
  split; [exact Hstart |]. constructor; [exact Hstart | constructor].
Qed.

(** A property of snapshots that the start of the level has and that
    releasing the button preserves holds of the board and of the whole
    history, all through the visit. *)
Lemma everySnapshot_reachable (P : HistoryState -> Prop) (lvl : LevelConfig)
    (rand : nat -> nat -> float) :
  P (startState lvl) ->
  (forall st coords now,
      P (board st) -> P (board (handleMouseUp lvl rand coords now st))) ->
  forall st, reachable lvl rand st -> everySnapshot P st.
Proof.
  intros Hstart Hup st Hreach.
  induction Hreach as [st0 | st0 | a st [e ->] Hreach IH].
  - apply everySnapshot_goalEffect. apply everySnapshot_reset, Hstart.
  - apply everySnapshot_goalEffect, everySnapshot_changeLevel, Hstart.
  - apply everySnapshot_goalEffect. cbn [perform].
    destruct e as [| | | cx cy coords | cx cy coords | coords now |]; cbn [handle].
    + apply everySnapshot_reset, Hstart.
    + unfold undo. destruct (_ <? _)%Z; [apply everySnapshot_moveTo |]; exact IH.
    + unfold redo. destruct (_ <? _)%Z; [apply everySnapshot_moveTo |]; exact IH.
    + unfold handleMouseDown. destruct (isLevelCleared st); [exact IH |].
      destruct (findNearestPoint rand (x coords) (y coords) st); [| exact IH].
      revert IH. apply everySnapshot_same; reflexivity.
    + revert IH. apply everySnapshot_same; reflexivity.
    + specialize (Hup st coords now (proj1 IH)).
      destruct (handleMouseUp_cases lvl rand coords now st)
        as [-> | [[ps Heq] | [ps [seg [_ Heq]]]]].
      * revert IH. apply everySnapshot_same; reflexivity.
      * rewrite Heq in *.
        apply (everySnapshot_same P (commitToHistory ps (segments st) st));
          try reflexivity.
        apply everySnapshot_commit; [exact Hup | exact IH].
      * rewrite Heq in *.
        apply (everySnapshot_same P (commitToHistory ps (segments st ++ [seg]) st));
          try reflexivity.
        apply everySnapshot_commit; [exact Hup | exact IH].
    + revert IH. apply everySnapshot_same; reflexivity.
Qed.

(** X12.  On a level whose own points are distinct, no board and no
    snapshot of the history holds two points that are [pointsEqual]: a point
    is revealed, or added as the end of a line, only when no point of the
    board is equal to it. *)
Theorem visible_points_stay_distinct (lvl : LevelConfig) (rand : nat -> nat -> float)
    (st : AppState) :
  distinctPoints (initPoints lvl) -> reachable lvl rand st ->
  distinctPoints (visiblePoints st)
  /\ Forall (fun h => distinctPoints (hs_points h)) (history st).
Proof.
  intros Hinit Hreach.
  apply (everySnapshot_reachable (fun h => distinctPoints (hs_points h)) lvl rand);
    [exact Hinit | | exact Hreach].
  clear st Hreach. intros st coords now Hd. cbn [board hs_points] in Hd.
  destruct (handleMouseUp_commits lvl rand coords now st)
    as [-> | [[p [Hnew ->]] | [a [b [_ [_ ->]]]]]]; cbn [board hs_points].
  - exact Hd.
  - apply distinctPoints_snoc; [exact Hd |].
    intros e Hin. apply (find_none _ _ Hnew e Hin).
  - apply pushUnlessPresent_distinct; [reflexivity |].
    apply pushUnlessPresent_distinct; [reflexivity | exact Hd].
Qed.

Lemma visible_points_stay_distinct_witness :
  distinctPoints (visiblePoints (diagonalDrawn levelDiagonal))
  /\ Forall (fun h => distinctPoints (hs_points h))
            (history (diagonalDrawn levelDiagonal)).
Proof.
  assert (Hinit : distinctPoints (initPoints levelDiagonal))
    by (repeat constructor).
  exact (visible_points_stay_distinct levelDiagonal noRandom
           (diagonalDrawn levelDiagonal) Hinit (diagonalDrawn_reachable levelDiagonal)).
Defined.

(** X13.  On a level whose own lines are distinct, no board and no snapshot
    of the history holds a line that is [segmentsEqual] to a later one: a
    draw that repeats a line of the board commits nothing. *)
Theorem lines_stay_distinct (lvl : LevelConfig) (rand : nat -> nat -> float)
    (st : AppState) :
  distinctLines (initSegments lvl) -> reachable lvl rand st ->
  distinctLines (segments st)
  /\ Forall (fun h => distinctLines (hs_segments h)) (history st).
Proof.
  intros Hinit Hreach.
  apply (everySnapshot_reachable (fun h => distinctLines (hs_segments h)) lvl rand);
    [exact Hinit | | exact Hreach].
  clear st Hreach. intros st coords now Hd. cbn [board hs_segments] in Hd.
  destruct (handleMouseUp_commits lvl rand coords now st)
    as [-> | [[p [Hnew ->]] | [a [b [_ [Hdup ->]]]]]]; cbn [board hs_segments].
  - exact Hd.
  - exact Hd.
  - apply ForallOrdPairs_snoc; [exact Hd |].
    intros s Hin.
    destruct (segmentsEqual s _) eqn:Heq; [| reflexivity].
    rewrite <- Hdup. symmetry. apply existsb_exists. exists s. split; [exact Hin |].
    exact Heq.
Qed.

Lemma lines_stay_distinct_witness :
  distinctLines (segments (diagonalDrawn levelCross))
  /\ Forall (fun h => distinctLines (hs_segments h)) (history (diagonalDrawn levelCross)).
Proof.
  assert (Hinit : distinctLines (initSegments levelCross))
    by (repeat constructor).
  exact (lines_stay_distinct levelCross noRandom (diagonalDrawn levelCross)
           Hinit (diagonalDrawn_reachable levelCross)).
Defined.

(** X14.  On a level whose own lines end on its own points, every line of
    every board and of every snapshot ends on points of that board, as they
    are or as points equal to them: a draw adds the two ends of its line to
    the visible points unless equal points are there already. *)
Theorem line_ends_are_visible (lvl : LevelConfig) (rand : nat -> nat -> float)
    (st : AppState) :
  endsVisible (startState lvl) -> reachable lvl rand st ->
  Forall (fun s : Segment =>
            covered (visiblePoints st) (seg_p1 s) /\ covered (visiblePoints st) (seg_p2 s))
         (segments st)
  /\ Forall endsVisible (history st).
Proof.
  intros Hinit Hreach.
  apply (everySnapshot_reachable endsVisible lvl rand); [exact Hinit | | exact Hreach].
  clear st Hreach. intros st coords now Hd.
  unfold endsVisible in *. cbn [board hs_points hs_segments] in Hd.
  destruct (handleMouseUp_commits lvl rand coords now st)
    as [-> | [[p [Hnew ->]] | [a [b [_ [_ ->]]]]]]; cbn [board hs_points hs_segments].
  - exact Hd.
  - eapply Forall_impl; [| exact Hd]. cbv beta.
    intros s [H1 H2]. split; apply covered_app; assumption.
  - destruct (pushUnlessPresent_extends (visiblePoints st) a (revealed a (IdRevealed_s now)))
      as [more1 [Hmore1 _]].
    destruct (pushUnlessPresent_extends
                (pushUnlessPresent (visiblePoints st) a (revealed a (IdRevealed_s now)))
                b (revealed b (IdRevealed_e now))) as [more2 [Hmore2 _]].
    apply Forall_app. split.
    + eapply Forall_impl; [| exact Hd]. cbv beta.
      intros s [H1 H2]. rewrite Hmore2, Hmore1.
      split; apply covered_app, covered_app; assumption.
    + constructor; [| constructor]. cbn [seg_p1 seg_p2]. split.
      * rewrite Hmore2. apply covered_app.
        apply pushUnlessPresent_covers. reflexivity.
      * apply pushUnlessPresent_covers. reflexivity.
Qed.

Lemma line_ends_are_visible_witness :
  Forall (fun s : Segment =>
            covered (visiblePoints (diagonalDrawn levelTriangle)) (seg_p1 s)
            /\ covered (visiblePoints (diagonalDrawn levelTriangle)) (seg_p2 s))
         (segments (diagonalDrawn levelTriangle))
  /\ Forall endsVisible (history (diagonalDrawn levelTriangle)).
Proof.
  assert (Hinit : endsVisible (startState levelTriangle)).
  { constructor; [| constructor]. split.
    - eexists. split; [left; reflexivity | left; reflexivity].
    - eexists. split; [right; left; reflexivity | left; reflexivity]. }
  exact (line_ends_are_visible levelTriangle noRandom (diagonalDrawn levelTriangle)
           Hinit (diagonalDrawn_reachable levelTriangle)).
Defined.

(** *** The history as a chain *)

Lemma extendsSnapshot_refl (h : HistoryState) : extendsSnapshot h h.
Proof. split; exists []; rewrite app_nil_r; reflexivity. Qed.

Lemma extendsSnapshot_trans (h1 h2 h3 : HistoryState) :
  extendsSnapshot h1 h2 -> extendsSnapshot h2 h3 -> extendsSnapshot h1 h3.
Proof.
  intros [[mp Hp] [ms Hs]] [[mp' Hp'] [ms' Hs']]. split.
  - exists (mp ++ mp'). rewrite Hp', Hp, app_assoc. reflexivity.
  - exists (ms ++ ms'). rewrite Hs', Hs, app_assoc. reflexivity.
Qed.

Lemma extendsSnapshot_incl (h h' : HistoryState) :
  extendsSnapshot h h' ->
  incl (hs_points h) (hs_points h') /\ incl (hs_segments h) (hs_segments h').
Proof.
  intros [[mp Hp] [ms Hs]]. rewrite Hp, Hs. split; apply incl_appl, incl_refl.
Qed.

Lemma handleMouseUp_extends (lvl : LevelConfig) (rand : nat -> nat -> float)
    (coords : XY) (now : Z) (st : AppState) :
  extendsSnapshot (board st) (board (handleMouseUp lvl rand coords now st)).
Proof.
  destruct (handleMouseUp_commits lvl rand coords now st)
    as [-> | [[p [Hnew ->]] | [a [b [_ [_ ->]]]]]].
  - apply extendsSnapshot_refl.
  - split; cbn; [eauto | exists []; rewrite app_nil_r; reflexivity].
  - split; cbn; [| eauto].
    destruct (pushUnlessPresent_extends (visiblePoints st) a (revealed a (IdRevealed_s now)))
      as [more1 [Hmore1 _]].
    destruct (pushUnlessPresent_extends
                (pushUnlessPresent (visiblePoints st) a (revealed a (IdRevealed_s now)))
                b (revealed b (IdRevealed_e now))) as [more2 [Hmore2 _]].
    exists (more1 ++ more2). rewrite Hmore2, Hmore1, app_assoc. reflexivity.
Qed.

Lemma In_slice0 {A} (arr : list A) (stop : Z) (v : A) :
  (0 <= stop)%Z -> In v (slice0 arr stop) ->
  exists i, (i < Z.to_nat stop)%nat /\ nth_error arr i = Some v.
Proof.
  intros Hstop Hin. unfold slice0 in Hin.
  destruct (Z.ltb_spec stop 0); [lia |].
  apply In_nth_error in Hin. destruct Hin as [i Hi].
  assert (Hlt : (i < length (firstn (Z.to_nat (Z.min stop (Z.of_nat (length arr)))) arr))%nat)
    by (apply nth_error_Some; congruence).
  rewrite length_firstn in Hlt.
  exists i. split; [lia |].
  rewrite <- Hi. symmetry.
  rewrite nth_error_firstn.
  destruct (Nat.ltb_spec i (Z.to_nat (Z.min stop (Z.of_nat (length arr)))));
    [reflexivity | lia].
Qed.

Lemma chain_commit (lvl : LevelConfig) (st : AppState)
    (newPoints : list Point) (newSegments : list Segment) :
  historyInvariant lvl st ->
  ForallOrdPairs extendsSnapshot (history st) ->
  extendsSnapshot (board st) {| hs_points := newPoints; hs_segments := newSegments |} ->
  ForallOrdPairs extendsSnapshot (history (commitToHistory newPoints newSegments st)).
Proof.
  intros [Hidx [_ Hcur]] Hchain Hnew. cbn [history commitToHistory].
  apply ForallOrdPairs_snoc.
  - unfold slice0. apply ForallOrdPairs_firstn, Hchain.
  - intros h Hin. apply In_slice0 in Hin; [| lia].
    destruct Hin as [i [Hi Hh]].
    apply (extendsSnapshot_trans h (board st)); [| exact Hnew].
    unfold index in Hcur. destruct (Z.ltb_spec (historyIndex st) 0); [lia |].
    destruct (Nat.eq_dec i (Z.to_nat (historyIndex st))) as [-> | Hne].
    + rewrite Hh in Hcur. injection Hcur as ->. apply extendsSnapshot_refl.
    + apply (ForallOrdPairs_nth _ _ i (Z.to_nat (historyIndex st)) _ _ Hchain);
        [lia | exact Hh | exact Hcur].
Qed.

Lemma reachable_chain (lvl : LevelConfig) (rand : nat -> nat -> float)
    (st : AppState) :
  reachable lvl rand st -> ForallOrdPairs extendsSnapshot (history st).
Proof.
  intros Hreach.
  induction Hreach as [st0 | st0 | a st [e ->] Hreach IH]; unfold step.
  - rewrite (proj1 (proj2 (proj2 (goalEffect_board lvl _)))).
    cbn. constructor; constructor.
  - rewrite (proj1 (proj2 (proj2 (goalEffect_board lvl _)))).
    unfold changeLevel.
    destruct (negb (isLevelCleared st0) && isLevelCleared (goalEffect lvl st0));
      cbn; constructor; constructor.
  - rewrite (proj1 (proj2 (proj2 (goalEffect_board lvl _)))).
    pose proof (reachableBy_invariant lvl rand _ st Hreach) as Hinv.
    cbn [perform].
    destruct e as [| | | cx cy coords | cx cy coords | coords now |]; cbn [handle].
    + cbn. constructor; constructor.
    + unfold undo. destruct (_ <? _)%Z; [| exact IH].
      unfold moveTo. destruct (index _ _); exact IH.
    + unfold redo. destruct (_ <? _)%Z; [| exact IH].
      unfold moveTo. destruct (index _ _); exact IH.
    + unfold handleMouseDown. destruct (isLevelCleared st); [exact IH |].
      destruct (findNearestPoint rand (x coords) (y coords) st); exact IH.
    + exact IH.
    + pose proof (handleMouseUp_extends lvl rand coords now st) as Hext.
      destruct (handleMouseUp_cases lvl rand coords now st)
        as [-> | [[ps Heq] | [ps [seg [_ Heq]]]]].
      * exact IH.
      * rewrite Heq in *. apply (chain_commit lvl); assumption.
      * rewrite Heq in *. apply (chain_commit lvl); assumption.
    + exact IH.
Qed.

(** X15.  The history of a level visit is a chain: a snapshot holds the
    points and lines of every snapshot at a lower index, in the same order,
    and possibly more after them.  So undo only ever takes away what was
    added last, and redo only adds. *)
Theorem history_snapshots_grow (lvl : LevelConfig) (rand : nat -> nat -> float)
    (st : AppState) (i j : Z) (hi hj : HistoryState) :
  reachable lvl rand st -> (i <= j)%Z ->
  index (history st) i = Some hi -> index (history st) j = Some hj ->
  extendsSnapshot hi hj.
Proof.
  intros Hreach Hij Hi Hj.
  pose proof (reachable_chain lvl rand st Hreach) as Hchain.
  unfold index in Hi, Hj.
  destruct (Z.ltb_spec i 0); [discriminate |].
  destruct (Z.ltb_spec j 0); [discriminate |].
  destruct (Z.eq_dec i j) as [-> | Hne].
  - rewrite Hi in Hj. injection Hj as ->. apply extendsSnapshot_refl.
  - apply (ForallOrdPairs_nth _ _ (Z.to_nat i) (Z.to_nat j) _ _ Hchain);
      [lia | exact Hi | exact Hj].
Qed.

Lemma history_snapshots_grow_witness :
  exists hi hj,
    index (history threeReveals) 1 = Some hi
    /\ index (history threeReveals) 3 = Some hj
    /\ extendsSnapshot hi hj.
Proof.
  destruct (index (history threeReveals) 1) as [hi |] eqn:Hi;
    [| vm_compute in Hi; discriminate].
  destruct (index (history threeReveals) 3) as [hj |] eqn:Hj;
    [| vm_compute in Hj; discriminate].
  exists hi, hj. split; [reflexivity |]. split; [reflexivity |].
  apply (history_snapshots_grow levelDiagonal noRandom threeReveals 1 3 hi hj
           threeReveals_reachable); [lia | exact Hi | exact Hj].
Defined.

(** *** Undo after a step forward *)

Lemma perform_forward (lvl : LevelConfig) (rand : nat -> nat -> float)
    (a : Action) (st : AppState) :
  historyInvariant lvl st ->
  historyIndex (perform lvl rand a st) = (historyIndex st + 1)%Z ->
  index (history (perform lvl rand a st)) (historyIndex st) = Some (board st).
Proof.
  intros [Hidx [_ Hcur]].
  assert (Hcommit : forall ps ss,
            index (history (commitToHistory ps ss st)) (historyIndex st)
            = Some (board st)).
  { intros ps ss. cbn [history commitToHistory].
    rewrite index_slice0_app by lia. exact Hcur. }
  destruct a as [[| | | cx cy coords | cx cy coords | coords now |] | ps ss];
    cbn [perform handle].
  - cbn. lia.
  - unfold undo. destruct (_ <? _)%Z; [| lia].
    unfold moveTo. destruct (index (history st) (historyIndex st - 1)); cbn; lia.
  - unfold redo. destruct (_ <? _)%Z; [| lia].
    unfold moveTo. destruct (index (history st) (historyIndex st + 1)); cbn;
      intros _; exact Hcur.
  - unfold handleMouseDown. destruct (isLevelCleared st); [lia |].
    destruct (findNearestPoint rand (x coords) (y coords) st); cbn; lia.
  - cbn. lia.
  - destruct (handleMouseUp_cases lvl rand coords now st)
      as [-> | [[newPoints ->] | [newPoints [seg [_ ->]]]]].
    + cbn. lia.
    + intros _. apply Hcommit.
    + intros _. apply Hcommit.
  - cbn. lia.
  - intros _. apply Hcommit.
Qed.

(** X16.  Undo takes back the step before it.  When an action has moved the
    cursor forward (a commit, from a draw or a reveal, or a redo), undo
    shows the points and the lines that were on the board before the action
    and puts the cursor back; the history keeps the snapshot, for redo. *)
Theorem undo_takes_back_the_last_step (lvl : LevelConfig) (rand : nat -> nat -> float)
    (a : Action) (st : AppState) :
  reachableAny lvl rand st ->
  historyIndex (step lvl rand a st) = (historyIndex st + 1)%Z ->
  let st' := step lvl rand (User Undo) (step lvl rand a st) in
  visiblePoints st' = visiblePoints st /\ segments st' = segments st
  /\ historyIndex st' = historyIndex st
  /\ history st' = history (step lvl rand a st).
Proof.
  intros Hreach Hforward. cbv zeta.
  pose proof (reachableBy_invariant lvl rand _ st Hreach) as Hinv.
  unfold step in *. cbn [perform handle].
  destruct (goalEffect_board lvl (perform lvl rand a st)) as [_ [_ [Hh1 [Hi1 _]]]].
  destruct (goalEffect_board lvl (undo (goalEffect lvl (perform lvl rand a st))))
    as [Hp2 [Hs2 [Hh2 [Hi2 _]]]].
  rewrite Hp2, Hs2, Hh2, Hi2. rewrite Hi1 in Hforward.
  pose proof (perform_forward lvl rand a st Hinv Hforward) as Hback.
  unfold undo. rewrite Hi1, Hforward.
  destruct (Z.ltb_spec 0 (historyIndex st + 1));
    [| destruct Hinv as [Hidx _]; lia].
  unfold moveTo. rewrite Hh1.
  replace (historyIndex st + 1 - 1)%Z with (historyIndex st) by lia.
  rewrite Hback. cbn. auto.
Qed.

Lemma pressedOnDiagonal_reachable : reachable levelDiagonal noRandom pressedOnDiagonal.
Proof.
  apply reachable_from_load. repeat constructor; apply isUser_User.
Qed.

Lemma undo_takes_back_the_last_step_witness :
  visiblePoints
    (step levelDiagonal noRandom (User Undo)
       (step levelDiagonal noRandom (User (MouseUp (at_ 3 3) 30)) pressedOnDiagonal))
  = visiblePoints pressedOnDiagonal
  /\ segments
       (step levelDiagonal noRandom (User Undo)
          (step levelDiagonal noRandom (User (MouseUp (at_ 3 3) 30)) pressedOnDiagonal))
     = segments pressedOnDiagonal
  /\ historyIndex
       (step levelDiagonal noRandom (User Undo)
          (step levelDiagonal noRandom (User (MouseUp (at_ 3 3) 30)) pressedOnDiagonal))
     = historyIndex pressedOnDiagonal
  /\ history
       (step levelDiagonal noRandom (User Undo)
          (step levelDiagonal noRandom (User (MouseUp (at_ 3 3) 30)) pressedOnDiagonal))
     = history
         (step levelDiagonal noRandom (User (MouseUp (at_ 3 3) 30)) pressedOnDiagonal).
Proof.
  assert (Hforward :
            historyIndex (step levelDiagonal noRandom (User (MouseUp (at_ 3 3) 30))
                            pressedOnDiagonal)
            = (historyIndex pressedOnDiagonal + 1)%Z)
    by (vm_compute; reflexivity).
  exact (undo_takes_back_the_last_step levelDiagonal noRandom
           (User (MouseUp (at_ 3 3) 30)) pressedOnDiagonal
           (reachable_reachableAny _ _ _ pressedOnDiagonal_reachable) Hforward).
Defined.

(** ** The cleared flag and the list of cleared levels *)

Lemma goalEffect_when_cleared (lvl : LevelConfig) (st : AppState) :
  isLevelCleared st = true -> goalEffect lvl st = st.
Proof.
  intros Hflag. unfold goalEffect. destruct (goals lvl); [| reflexivity].
  rewrite Hflag. reflexivity.
Qed.

Lemma pointer_on_cleared (lvl : LevelConfig) (rand : nat -> nat -> float)
    (e : Event) (st : AppState) :
  pointerEvent e -> isLevelCleared st = true -> dragStartPoint st = None ->
  let st' := step lvl rand (User e) st in
  board st' = board st /\ history st' = history st
  /\ historyIndex st' = historyIndex st
  /\ clearedLevelIds st' = clearedLevelIds st
  /\ isLevelCleared st' = true /\ dragStartPoint st' = None.
Proof.
  intros He Hflag Hdrag. cbv zeta. unfold step.
  destruct e as [| | | cx cy coords | cx cy coords | coords now |];
    try contradiction; cbn [perform handle].
  - unfold handleMouseDown. rewrite Hflag.
    rewrite (goalEffect_when_cleared lvl st Hflag). auto 10.
  - rewrite goalEffect_when_cleared by exact Hflag.
    unfold handleMouseMove, board. cbn. auto 10.
  - unfold handleMouseUp. rewrite Hdrag.
    rewrite goalEffect_when_cleared by exact Hflag.
    unfold board. cbn. auto 10.
  - rewrite goalEffect_when_cleared by exact Hflag.
    unfold board. cbn. auto 10.
Qed.

(** X17.  Nothing is constructed on a cleared board: when the flag is set
    and no drag is in progress, no sequence of pointer events changes the
    points, the lines, the history, its cursor, the flag or the list of
    cleared levels. *)
Theorem cleared_board_ignores_pointer (lvl : LevelConfig) (rand : nat -> nat -> float)
    (events : list Event) (st : AppState) :
  isLevelCleared st = true -> dragStartPoint st = None ->
  Forall pointerEvent events ->
  let st' := run lvl rand (map User events) st in
  visiblePoints st' = visiblePoints st /\ segments st' = segments st
  /\ history st' = history st /\ historyIndex st' = historyIndex st
  /\ clearedLevelIds st' = clearedLevelIds st /\ isLevelCleared st' = true.
Proof.
  intros Hflag Hdrag Hall. cbv zeta. unfold run.
  revert st Hflag Hdrag. induction Hall as [| e events He Hevents IH];
    intros st Hflag Hdrag; cbn [map fold_left].
  - auto 10.
  - destruct (pointer_on_cleared lvl rand e st He Hflag Hdrag)
      as [Hb [Hh [Hi [Hc [Hf Hd]]]]].
    destruct (IH _ Hf Hd) as [Hp' [Hs' [Hh' [Hi' [Hc' Hf']]]]].
    apply board_eq in Hb. destruct Hb as [Hp Hs].
    rewrite Hp', Hs', Hh', Hi', Hc', Hf'. auto 10.
Qed.

Lemma cleared_board_ignores_pointer_witness :
  visiblePoints (run levelCorner noRandom (drag (at_ 2 2) (at_ 3 3) 20) cornerCleared)
  = visiblePoints cornerCleared
  /\ segments (run levelCorner noRandom (drag (at_ 2 2) (at_ 3 3) 20) cornerCleared)
     = segments cornerCleared
  /\ history (run levelCorner noRandom (drag (at_ 2 2) (at_ 3 3) 20) cornerCleared)
     = history cornerCleared
  /\ historyIndex (run levelCorner noRandom (drag (at_ 2 2) (at_ 3 3) 20) cornerCleared)
     = historyIndex cornerCleared
  /\ clearedLevelIds (run levelCorner noRandom (drag (at_ 2 2) (at_ 3 3) 20) cornerCleared)
     = clearedLevelIds cornerCleared
  /\ isLevelCleared (run levelCorner noRandom (drag (at_ 2 2) (at_ 3 3) 20) cornerCleared)
     = true.
Proof.
  assert (Hflag : isLevelCleared cornerCleared = true) by (vm_compute; reflexivity).
  assert (Hidle : dragStartPoint cornerCleared = None) by (vm_compute; reflexivity).
  assert (Hpointer : Forall pointerEvent
                       [ MouseDown 0 0 (at_ 2 2); MouseMove 300 0 (at_ 3 3);
                         MouseUp (at_ 3 3) 20 ])
    by (repeat constructor).
  exact (cleared_board_ignores_pointer levelCorner noRandom
           [ MouseDown 0 0 (at_ 2 2); MouseMove 300 0 (at_ 3 3); MouseUp (at_ 3 3) 20 ]
           cornerCleared Hflag Hidle Hpointer).
Defined.

(** *** The list of cleared levels *)

Lemma perform_cleared_ids (lvl : LevelConfig) (rand : nat -> nat -> float)
    (a : Action) (st : AppState) :
  clearedLevelIds (perform lvl rand a st) = clearedLevelIds st
  /\ (isLevelCleared (perform lvl rand a st) = true -> isLevelCleared st = true).
Proof.
  destruct a as [[| | | cx cy coords | cx cy coords | coords now |] | ps ss];
    cbn [perform handle].
  - split; [reflexivity | discriminate].
  - unfold undo. destruct (_ <? _)%Z; [| auto].
    unfold moveTo. destruct (index _ _); cbn; auto. split; [reflexivity | discriminate].
  - unfold redo. destruct (_ <? _)%Z; [| auto].
    unfold moveTo. destruct (index _ _); cbn; auto.
  - unfold handleMouseDown. destruct (isLevelCleared st) eqn:Hflag; [auto |].
    destruct (findNearestPoint rand (x coords) (y coords) st); cbn;
      rewrite ?Hflag; auto.
  - cbn. auto.
  - destruct (handleMouseUp_cases lvl rand coords now st)
      as [-> | [[newPoints ->] | [newPoints [seg [_ ->]]]]]; cbn; auto.
  - cbn. auto.
  - cbn. auto.
Qed.

Lemma includes_In (ids : list Z) (i : Z) : includes ids i = true <-> In i ids.
Proof.
  unfold includes. rewrite existsb_exists. split.
  - intros [j [Hin Heq]]. apply Z.eqb_eq in Heq. subst. exact Hin.
  - intros Hin. exists i. split; [exact Hin | apply Z.eqb_refl].
Qed.

Lemma goalEffect_cleared_ids (lvl : LevelConfig) (st : AppState) :
  (clearedLevelIds (goalEffect lvl st) = clearedLevelIds st
   \/ (~ In (level_id lvl) (clearedLevelIds st)
       /\ clearedLevelIds (goalEffect lvl st) = clearedLevelIds st ++ [level_id lvl]))
  /\ (isLevelCleared st = false -> isLevelCleared (goalEffect lvl st) = true ->
      In (level_id lvl) (clearedLevelIds (goalEffect lvl st))).
Proof.
  unfold goalEffect. destruct (goals lvl) as [g |]; [| split; [auto | congruence]].
  destruct (isLevelCleared st) eqn:Hflag; [split; [auto | congruence] |].
  destruct (goalReached g (visiblePoints st) (segments st));
    [| split; [auto | congruence]].
  cbn [clearedLevelIds isLevelCleared].
  destruct (includes (clearedLevelIds st) (level_id lvl)) eqn:Hin; cbn [negb].
  - split; [auto |]. intros _ _. apply includes_In, Hin.
  - split.
    + right. split; [| reflexivity]. intros Habs. apply includes_In in Habs. congruence.
    + intros _ _. apply in_or_app. right. left. reflexivity.
Qed.

(** X18.  Progress is never lost: an action followed by the evaluation of
    the goal leaves the list of cleared levels as it is or appends the
    identifier of the level on the board, which was not in the list; a list
    without duplicates stays without duplicates.  Reset and undo take
    nothing from it. *)
Theorem cleared_levels_only_grow (lvl : LevelConfig) (rand : nat -> nat -> float)
    (a : Action) (st : AppState) :
  (clearedLevelIds (step lvl rand a st) = clearedLevelIds st
   \/ (~ In (level_id lvl) (clearedLevelIds st)
       /\ clearedLevelIds (step lvl rand a st) = clearedLevelIds st ++ [level_id lvl]))
  /\ (NoDup (clearedLevelIds st) -> NoDup (clearedLevelIds (step lvl rand a st))).
Proof.
  unfold step.
  destruct (perform_cleared_ids lvl rand a st) as [Hids _].
  destruct (goalEffect_cleared_ids lvl (perform lvl rand a st)) as [Hcases _].
  rewrite Hids in Hcases. split; [exact Hcases |].
  intros Hnodup. destruct Hcases as [-> | [Hnew ->]]; [exact Hnodup |].
  apply NoDup_app; [exact Hnodup | repeat constructor; intros [] |].
  intros i Hi [<- | []]. contradiction.
Qed.

(** X19.  A cleared level is recorded: in every state of a level visit in
    which the flag is set, the identifier of the level is in the list of
    cleared levels. *)
Theorem cleared_level_is_recorded (lvl : LevelConfig) (rand : nat -> nat -> float)
    (st : AppState) :
  reachableAny lvl rand st -> isLevelCleared st = true ->
  In (level_id lvl) (clearedLevelIds st).
Proof.
  assert (Heffect : forall s,
            (isLevelCleared s = true -> In (level_id lvl) (clearedLevelIds s)) ->
            isLevelCleared (goalEffect lvl s) = true ->
            In (level_id lvl) (clearedLevelIds (goalEffect lvl s))).
  { intros s Hs Hflag. destruct (isLevelCleared s) eqn:Hbefore.
    - rewrite goalEffect_when_cleared by exact Hbefore. auto.
    - apply (proj2 (goalEffect_cleared_ids lvl s)); assumption. }
  induction 1 as [st0 | st0 | a st _ Hreach IH]; unfold step.
  - apply Heffect. cbn. discriminate.
  - apply Heffect. unfold changeLevel.
    destruct (isLevelCleared st0) eqn:Hbefore; cbn [negb andb]; [cbn; discriminate |].
    destruct (isLevelCleared (goalEffect lvl st0)) eqn:Hstale; [| cbn; discriminate].
    cbn [isLevelCleared clearedLevelIds]. intros _.
    apply (proj2 (goalEffect_cleared_ids lvl st0)); assumption.
  - apply Heffect. destruct (perform_cleared_ids lvl rand a st) as [-> Hflag].
    intros Hset. apply IH, Hflag, Hset.
Qed.

Lemma cleared_level_is_recorded_witness :
  In (level_id levelCorner) (clearedLevelIds cornerCleared).
Proof.
  assert (Hflag : isLevelCleared cornerCleared = true) by (vm_compute; reflexivity).
  exact (cleared_level_is_recorded levelCorner noRandom cornerCleared
           (reachable_reachableAny _ _ _ cornerCleared_reachable) Hflag).
Defined.

(** *** The flag and the goal *)

Lemma evaluateGoal_extends (lvl : LevelConfig) (h h' : HistoryState) :
  extendsSnapshot h h' ->
  evaluateGoal lvl (hs_points h) (hs_segments h) = true ->
  evaluateGoal lvl (hs_points h') (hs_segments h') = true.
Proof.
  intros Hext. apply extendsSnapshot_incl in Hext. destruct Hext as [Hp Hs].
  rewrite !evaluateGoal_iff. intros [g [Hg Hreached]]. exists g. split; [exact Hg |].
  apply goalReached_iff in Hreached. apply goalReached_iff.
  destruct Hreached as [Hpts [Hlines Hpresent]]. repeat split.
  - intros gp Hin. apply (pointMatched_incl _ _ _ Hp), Hpts, Hin.
  - intros gs Hin. apply (lineMatched_incl _ _ _ Hs), Hlines, Hin.
  - exact Hpresent.
Qed.

(** An event resets the flag or leaves a board that extends the one before. *)
Lemma handle_unflags_or_extends (lvl : LevelConfig) (rand : nat -> nat -> float)
    (e : Event) (st : AppState) :
  historyInvariant lvl st -> ForallOrdPairs extendsSnapshot (history st) ->
  isLevelCleared (handle lvl rand e st) = false
  \/ extendsSnapshot (board st) (board (handle lvl rand e st)).
Proof.
  intros [Hidx [_ Hcur]] Hchain.
  destruct e as [| | | cx cy coords | cx cy coords | coords now |]; cbn [handle].
  - left. reflexivity.
  - unfold undo. destruct (_ <? _)%Z; [| right; apply extendsSnapshot_refl].
    unfold moveTo.
    destruct (index (history st) (historyIndex st - 1)); [left; reflexivity |].
    right. apply extendsSnapshot_refl.
  - right. unfold redo.
    destruct (Z.ltb_spec (historyIndex st) (Z.of_nat (length (history st)) - 1));
      [| apply extendsSnapshot_refl].
    unfold moveTo.
    destruct (index (history st) (historyIndex st + 1)) as [state |] eqn:Hstate;
      [| apply extendsSnapshot_refl].
    unfold index in Hcur, Hstate.
    destruct (Z.ltb_spec (historyIndex st) 0); [lia |].
    destruct (Z.ltb_spec (historyIndex st + 1) 0); [lia |].
    pose proof (ForallOrdPairs_nth _ _ (Z.to_nat (historyIndex st))
                  (Z.to_nat (historyIndex st + 1)) _ _ Hchain
                  ltac:(lia) Hcur Hstate) as Hext.
    unfold board at 2. cbn [visiblePoints segments]. destruct state; exact Hext.
  - right. unfold handleMouseDown. destruct (isLevelCleared st);
      [apply extendsSnapshot_refl |].
    destruct (findNearestPoint rand (x coords) (y coords) st);
      apply extendsSnapshot_refl.
  - right. apply extendsSnapshot_refl.
  - right. apply handleMouseUp_extends.
  - right. apply extendsSnapshot_refl.
Qed.

(** X20.  After a level is loaded, and through every sequence of events of
    the user (reset, undo, redo and the pointer), the flag [isLevelCleared]
    tells whether the board that is shown meets the goal: it is set exactly
    when the evaluation of the goal on the visible points and lines
    succeeds. *)
Theorem flag_reflects_goal (lvl : LevelConfig) (rand : nat -> nat -> float)
    (events : list Event) (st0 : AppState) :
  let st := run lvl rand (map User events) (step lvl rand (User Reset) st0) in
  isLevelCleared st = evaluateGoal lvl (visiblePoints st) (segments st).
Proof.
  cbv zeta. induction events as [| e events IH] using rev_ind.
  - cbn [map run fold_left]. unfold step. rewrite goalEffect_cleared.
    destruct (goalEffect_board lvl (perform lvl rand (User Reset) st0))
      as [-> [-> _]].
    reflexivity.
  - rewrite map_app. unfold run in *. rewrite fold_left_app. cbn [map fold_left].
    set (st := fold_left (fun s a => step lvl rand a s) (map User events)
                 (step lvl rand (User Reset) st0)) in *.
    assert (Hreach : reachable lvl rand st).
    { apply (reachable_run lvl rand isUser (map User events));
        [| apply reach_load].
      apply Forall_forall. intros a Ha. apply in_map_iff in Ha.
      destruct Ha as [e' [<- _]]. apply isUser_User. }
    pose proof (reachableBy_invariant lvl rand _ st Hreach) as Hinv.
    pose proof (reachable_chain lvl rand st Hreach) as Hchain.
    unfold step. rewrite goalEffect_cleared.
    destruct (goalEffect_board lvl (perform lvl rand (User e) st)) as [-> [-> _]].
    cbn [perform].
    destruct (isLevelCleared (handle lvl rand e st)) eqn:Hflag; [| reflexivity].
    symmetry. cbn [orb].
    destruct (handle_unflags_or_extends lvl rand e st Hinv Hchain) as [Hno | Hext];
      [congruence |].
    apply (evaluateGoal_extends lvl _ _ Hext). cbn [board hs_points hs_segments].
    rewrite <- IH.
    apply (proj2 (perform_cleared_ids lvl rand (User e) st)). exact Hflag.
Qed.

(** The load matters.  When the level on the board changes while the flag is
    not set, the evaluation of that render judges the board of the level
    that is left by the goal of the level that comes: here the point (1,1),
    revealed on [levelDiagonal], meets the goal of [levelCorner], which is
    flagged and recorded as cleared although its own board, the point (0,0),
    does not meet its goal. *)
Example level_change_can_flag_an_unmet_goal :
  let left := run levelDiagonal noRandom (User Reset :: click (at_ 1 1) 10)
                  initialAppState in
  let st := goalEffect levelCorner (changeLevel levelCorner left) in
  isLevelCleared left = false
  /\ map (fun p : Point => pt p) (visiblePoints st) = [ at_ 0 0 ]
  /\ isLevelCleared st = true
  /\ clearedLevelIds st = [ level_id levelCorner ]
  /\ evaluateGoal levelCorner (visiblePoints st) (segments st) = false.
Proof. vm_compute. repeat split; reflexivity. Qed.

(** ** From the editor to the board *)

(** The coordinates decide whether the points of a list are distinct. *)
Lemma distinctPoints_coordinates (points points' : list Point) :
  map (fun p : Point => pt p) points' = map (fun p : Point => pt p) points ->
  distinctPoints points -> distinctPoints points'.
Proof.
  unfold distinctPoints. intros Hmap Hd. revert points' Hmap.
  induction Hd as [| a l Ha Hl IH]; intros points' Hmap.
  - destruct points'; [constructor | discriminate].
  - destruct points' as [| a' l']; [discriminate |].
    simpl in Hmap. injection Hmap as Ha' Hl'.
    constructor; [| apply IH, Hl'].
    apply Forall_forall. intros b' Hb'.
    apply (in_map (fun p : Point => pt p)) in Hb'. rewrite Hl' in Hb'.
    apply in_map_iff in Hb'. destruct Hb' as [b [Hbpt Hb]].
    rewrite Forall_forall in Ha. specialize (Ha b Hb).
    cbv beta in Hbpt. rewrite Ha', <- Hbpt. exact Ha.
Qed.

Lemma exportSegment_shape (s : Segment) : LevelEditor.exportSegment s = shape s.
Proof. unfold LevelEditor.exportSegment, shape. rewrite !XY_eta. reflexivity. Qed.

Lemma editor_initPoints (est : LevelEditor.EditorState) :
  map (fun p : Point => pt p) (initPoints (LevelEditor.config est))
  = map (fun p : Point => pt p) (LevelEditor.initialPoints est).
Proof.
  unfold initPoints, mapi. cbn [LevelEditor.config initial initial_points orEmpty].
  rewrite (map_mapi_from (fun p : Point => pt p) _ ip_xy)
    by (intros p k; cbn; apply XY_eta).
  rewrite map_map. apply map_ext. intros p. cbn. apply XY_eta.
Qed.

(** *** The exported level read back *)

(** A click snaps when it is within [SNAP_THRESHOLD] of the rounded
    coordinates, which are finite numbers then. *)
Lemma near_is_finite (v r T : float) : (abs (v - r) <? T) = true -> isFinite r.
Proof.
  rewrite ltb_spec, abs_spec, sub_spec. unfold isFinite.
  destruct (Prim2SF r) as [s | s | | s m e]; try (intros _; exact I);
    destruct (Prim2SF v) as [s' | s' | | s' m' e']; simpl;
    try destruct s; try destruct s'; simpl;
    destruct (Prim2SF T) as [st | st | | st mt et]; simpl;
    try destruct st; simpl; discriminate.
Qed.

Lemma snap_finite (gx gy : float) (c : XY) :
  LevelEditor.snap gx gy = Some c -> finiteXY c.
Proof.
  unfold LevelEditor.snap.
  destruct (abs (gx - Math_round gx) <? SNAP_THRESHOLD) eqn:Hx; [| discriminate].
  destruct (abs (gy - Math_round gy) <? SNAP_THRESHOLD) eqn:Hy; [| discriminate].
  cbn [andb]. intros [= <-]. split; cbn [x y].
  - apply (near_is_finite _ _ _ Hx).
  - apply (near_is_finite _ _ _ Hy).
Qed.

Lemma finite_setContents (st : LevelEditor.EditorState) ips iss gps gss drag :
  Forall (fun p : Point => finiteXY p) ips ->
  Forall (fun s : Segment => finiteXY (seg_p1 s) /\ finiteXY (seg_p2 s)) iss ->
  Forall (fun p : Point => finiteXY p) gps ->
  Forall (fun s : Segment => finiteXY (seg_p1 s) /\ finiteXY (seg_p2 s)) gss ->
  (forall p : Point, drag = Some p -> finiteXY p) ->
  finiteEditor (LevelEditor.setContents st ips iss gps gss drag).
Proof.
  intros H1 H2 H3 H4 H5. unfold finiteEditor. cbn.
  split; [exact H1 |]. split; [exact H3 |]. split; [exact H2 |]. split; [exact H4 | exact H5].
Qed.

Lemma Forall_snoc {A} (P : A -> Prop) (l : list A) (a : A) :
  Forall P l -> P a -> Forall P (l ++ [a]).
Proof. intros Hl Ha. apply Forall_app. split; [exact Hl | constructor; [exact Ha | constructor]]. Qed.

Lemma Forall_filter_keeps {A} (P : A -> Prop) (f : A -> bool) (l : list A) :
  Forall P l -> Forall P (filter f l).
Proof.
  intros Hl. apply Forall_forall. intros v Hv. apply filter_In in Hv.
  rewrite Forall_forall in Hl. apply Hl, Hv.
Qed.

Lemma editor_finite (st : LevelEditor.EditorState) :
  LevelEditor.reachable st -> finiteEditor st.
Proof.
  induction 1 as [| e st Hreach IH].
  - unfold finiteEditor. cbn. repeat (split; [constructor |]). intros q [=].
  - pose proof IH as [IHi [IHg [IHis [IHgs IHd]]]].
    destruct e as [coords now | coords | coords now | kind i | layer shp ty dflt lid];
      cbn [LevelEditor.handle].
    + unfold LevelEditor.handleMouseDown.
      destruct (LevelEditor.snap (x coords) (y coords)) as [snapped |] eqn:Hsnap;
        [| exact IH].
      apply snap_finite in Hsnap.
      destruct (LevelEditor.editShape st).
      * destruct (LevelEditor.editLayer st);
          match goal with |- context [find ?f ?l] => destruct (find f l) end;
          try exact IH; apply finite_setContents; try assumption;
          apply Forall_snoc; assumption.
      * apply finite_setContents; try assumption. intros q [= <-]. exact Hsnap.
    + exact IH.
    + unfold LevelEditor.handleMouseUp.
      assert (Hclear : forall s, finiteEditor s ->
                finiteEditor (LevelEditor.setContents s (LevelEditor.initialPoints s)
                   (LevelEditor.initialSegments s) (LevelEditor.goalPoints s)
                   (LevelEditor.goalSegments s) None)).
      { intros s [H1 [H2 [H3 [H4 _]]]]. apply finite_setContents; try assumption.
        intros q [=]. }
      apply Hclear.
      destruct (LevelEditor.editShape st); [exact IH |].
      destruct (LevelEditor.dragStart st) as [start |] eqn:Hstart; [| exact IH].
      assert (Hs : finiteXY start) by (apply IHd; reflexivity).
      destruct (LevelEditor.snap (x coords) (y coords)) as [snapped |] eqn:Hsnap;
        [| exact IH].
      apply snap_finite in Hsnap.
      destruct (negb (pointsEqual start snapped)); [| exact IH].
      destruct (LevelEditor.editLayer st); apply finite_setContents; try assumption;
        apply Forall_snoc; try assumption; split; assumption.
    + unfold LevelEditor.removeItem.
      destruct kind; apply finite_setContents; try assumption;
        apply Forall_filter_keeps; assumption.
    + exact IH.
Qed.

Lemma jsonNumber_finite (v : float) :
  isFinite v -> exists w, jsonNumber v = Some w /\ readsBackAs v w.
Proof.
  unfold isFinite, jsonNumber, readsBackAs.
  destruct (Prim2SF v) as [s | s | | s m e] eqn:Hv; try contradiction; intros _.
  - exists 0. split; [reflexivity |]. destruct s.
    + right. split; [| reflexivity]. apply Prim2SF_inj. rewrite Hv. reflexivity.
    + left. apply Prim2SF_inj. rewrite Hv. reflexivity.
  - exists v. split; [reflexivity | left; reflexivity].
Qed.

Lemma jsonXY_finite (c : XY) :
  finiteXY c -> exists c', jsonXY c = Some c' /\ readsBackAsXY c c'.
Proof.
  intros [Hx Hy]. unfold jsonXY.
  destruct (jsonNumber_finite _ Hx) as [a [-> Ha]].
  destruct (jsonNumber_finite _ Hy) as [b [-> Hb]].
  eexists. split; [reflexivity |]. split; assumption.
Qed.

Lemma allSome_map {A B} (f : A -> option B) (R : A -> B -> Prop) (l : list A) :
  Forall (fun a => exists b, f a = Some b /\ R a b) l ->
  exists l', allSome (map f l) = Some l' /\ Forall2 R l l'.
Proof.
  induction 1 as [| a l [b [Hb HR]] _ [l' [Hl' HF]]].
  - exists []. split; [reflexivity | constructor].
  - exists (b :: l'). cbn. rewrite Hb, Hl'. split; [reflexivity |].
    constructor; assumption.
Qed.

Lemma Forall2_mapi_from {A B C} (R : A -> C -> Prop) (g : B -> nat -> C)
    (l : list A) (l' : list B) :
  Forall2 (fun a b => forall k, R a (g b k)) l l' ->
  forall k, Forall2 R l (mapi_from k g l').
Proof.
  induction 1 as [| a b l l' Hab _ IH]; intros k; cbn; constructor; auto.
Qed.

Lemma readBack_config (est : LevelEditor.EditorState) :
  finiteEditor est ->
  exists ips iss g,
    readBack (LevelEditor.config est)
    = Some {| level_id := LevelEditor.levelId est;
              level_lineType := Some (LevelEditor.defaultLineType est);
              initial := {| initial_points := Some ips; initial_segments := Some iss |};
              goals := g |}
    /\ Forall2 (fun (p : Point) (ip : InitialPoint) =>
                  readsBackAsXY p ip /\ ip_label ip = None)
               (LevelEditor.initialPoints est) ips
    /\ Forall2 (fun (s : Segment) (sh : SegmentShape) => lineReadsBackAs s sh)
               (LevelEditor.initialSegments est) iss.
Proof.
  intros [Hi [Hg [His [Hgs _]]]].
  assert (Hshape : forall l : list Segment,
            Forall (fun s : Segment => finiteXY (seg_p1 s) /\ finiteXY (seg_p2 s)) l ->
            exists l', allSome (map jsonShape (map LevelEditor.exportSegment l)) = Some l'
                       /\ Forall2 (fun (s : Segment) (sh : SegmentShape) =>
                                     lineReadsBackAs s sh) l l').
  { intros l Hl. rewrite map_map. apply allSome_map.
    apply Forall_forall. intros s Hs. rewrite Forall_forall in Hl.
    destruct (Hl s Hs) as [H1 H2]. rewrite exportSegment_shape. unfold jsonShape.
    destruct (jsonXY_finite _ H1) as [a [Ha Hra]].
    destruct (jsonXY_finite _ H2) as [b [Hb Hrb]].
    cbn [shape p1 p2 type]. rewrite Ha, Hb. eexists. split; [reflexivity |].
    split; [exact Hra |]. split; [exact Hrb | reflexivity]. }
  assert (Hpoint : forall l : list Point,
            Forall (fun p : Point => finiteXY p) l ->
            exists l', allSome (map jsonXY (map (fun p : Point => {| x := x p; y := y p |}) l))
                       = Some l'
                       /\ Forall2 (fun (p : Point) (c : XY) => readsBackAsXY p c) l l').
  { intros l Hl. rewrite map_map. apply allSome_map.
    apply Forall_forall. intros p Hp. rewrite Forall_forall in Hl.
    rewrite XY_eta. apply jsonXY_finite, Hl, Hp. }
  assert (Hinit : exists l',
            allSome (map jsonInitialPoint
                       (map (fun p : Point =>
                               {| ip_xy := {| x := x p; y := y p |}; ip_label := None |})
                            (LevelEditor.initialPoints est))) = Some l'
            /\ Forall2 (fun (p : Point) (ip : InitialPoint) =>
                          readsBackAsXY p ip /\ ip_label ip = None)
                       (LevelEditor.initialPoints est) l').
  { rewrite map_map. apply allSome_map.
    apply Forall_forall. intros p Hp. rewrite Forall_forall in Hi.
    unfold jsonInitialPoint. cbn [ip_xy ip_label]. rewrite XY_eta.
    destruct (jsonXY_finite _ (Hi p Hp)) as [c [-> Hc]].
    eexists. split; [reflexivity |]. split; [exact Hc | reflexivity]. }
  destruct Hinit as [ips [Hips Hrips]].
  destruct (Hshape _ His) as [iss [Hiss Hriss]].
  destruct (Hpoint _ Hg) as [gps [Hgps _]].
  destruct (Hshape _ Hgs) as [gss [Hgss _]].
  exists ips, iss. eexists. split; [| split; assumption].
  unfold readBack, jsonList.
  cbn [LevelEditor.config initial initial_points initial_segments goals
       goals_points goals_segments level_id level_lineType].
  rewrite Hips, Hiss, Hgps, Hgss. reflexivity.
Qed.

(** X21.  A level exported by the editor loads as it was drawn.  The text of
    the level reads back as a level, and the board the play screen starts
    with on it has the points of the initial layer, in their order, marked
    as initial and without labels, and its lines, with their types; every
    coordinate is the one drawn, but for a -0, which is read back as 0.  The
    history holds this board alone. *)
Theorem exported_level_loads_as_drawn (est : LevelEditor.EditorState) (st : AppState) :
  LevelEditor.reachable est ->
  exists lvl : LevelConfig,
    readBack (LevelEditor.config est) = Some lvl
    /\ let loaded := resetLevel lvl st in
       Forall2 (fun drawn p : Point => readsBackAsXY drawn p)
               (LevelEditor.initialPoints est) (visiblePoints loaded)
       /\ Forall2 (fun drawn s : Segment => lineReadsBackAs drawn s)
                  (LevelEditor.initialSegments est) (segments loaded)
       /\ Forall (fun p : Point => isInitial p = Some true /\ label p = None)
                 (visiblePoints loaded)
       /\ history loaded = [board loaded] /\ historyIndex loaded = 0%Z.
Proof.
  intros Hreach.
  destruct (readBack_config est (editor_finite est Hreach))
    as [ips [iss [g [Hread [Hips Hiss]]]]].
  eexists. split; [exact Hread |]. cbv zeta.
  cbn [resetLevel visiblePoints segments history historyIndex board].
  unfold initPoints, initSegments, mapi.
  cbn [initial initial_points initial_segments orEmpty].
  split; [| split; [| split; [| split; reflexivity]]].
  - apply Forall2_mapi_from.
    eapply Forall2_impl; [| exact Hips]. intros p ip [Hp _] k. cbn. exact Hp.
  - apply Forall2_mapi_from.
    eapply Forall2_impl; [| exact Hiss]. intros s sh [H1 [H2 Hty]] k.
    unfold lineReadsBackAs. cbn. rewrite !XY_eta.
    split; [exact H1 |]. split; [exact H2 |].
    exact Hty.
  - assert (Hlab : Forall (fun ip : InitialPoint => ip_label ip = None) ips).
    { clear - Hips. induction Hips as [| p ip l l' [_ Hl] _ IH]; constructor; assumption. }
    clear - Hlab. generalize 0%nat.
    induction Hlab as [| ip l Hip _ IH]; intros k; cbn; constructor; auto.
Qed.

Lemma exported_level_loads_as_drawn_witness :
  LevelEditor.reachable paddingClicked
  /\ exists lvl : LevelConfig,
       readBack (LevelEditor.config paddingClicked) = Some lvl
       /\ let loaded := resetLevel lvl initialAppState in
          Forall2 (fun drawn p : Point => readsBackAsXY drawn p)
                  (LevelEditor.initialPoints paddingClicked) (visiblePoints loaded)
          /\ Forall2 (fun drawn s : Segment => lineReadsBackAs drawn s)
                     (LevelEditor.initialSegments paddingClicked) (segments loaded)
          /\ Forall (fun p : Point => isInitial p = Some true /\ label p = None)
                    (visiblePoints loaded)
          /\ history loaded = [board loaded] /\ historyIndex loaded = 0%Z.
Proof.
  split; [repeat constructor |].
  apply (exported_level_loads_as_drawn paddingClicked initialAppState).
  repeat constructor.
Defined.

(** The click in the padding: the editor holds -0, the level read back 0. *)
Example padding_click_reads_back_as_zero :
  map (fun p : Point => pt p) (LevelEditor.initialPoints paddingClicked) = [at_ (- 0) 1]
  /\ option_map (fun lvl => map (fun p : Point => pt p)
                              (visiblePoints (resetLevel lvl initialAppState)))
                (readBack (LevelEditor.config paddingClicked))
     = Some [at_ 0 1].
Proof. split; vm_compute; reflexivity. Qed.

(** X22.  What it takes to clear an exported level: the evaluation of its
    goal succeeds on a board exactly when every point of the goal layer is
    matched by a point of the board and every line of the goal layer by a
    line of the board.  Nothing more is asked, so a level exported with an
    empty goal layer is cleared by every board. *)
Theorem exported_level_goal (est : LevelEditor.EditorState)
    (vps : list Point) (segs : list Segment) :
  evaluateGoal (LevelEditor.config est) vps segs = true
  <-> (forall gp : Point, In gp (LevelEditor.goalPoints est) -> pointMatched vps gp)
      /\ (forall gs : Segment, In gs (LevelEditor.goalSegments est) -> lineMatched segs gs).
Proof.
  rewrite evaluateGoal_iff. split.
  - intros [g [Hg Hreached]]. cbn in Hg. injection Hg as <-.
    apply goalReached_iff in Hreached. cbn in Hreached.
    destruct Hreached as [Hpts [Hlines _]]. split.
    + intros gp Hin.
      specialize (Hpts {| x := x gp; y := y gp |}).
      rewrite XY_eta in Hpts. apply Hpts.
      apply (in_map (fun p : Point => {| x := x p; y := y p |})) in Hin.
      rewrite XY_eta in Hin. exact Hin.
    + intros gs Hin. specialize (Hlines (LevelEditor.exportSegment gs)).
      rewrite exportSegment_shape in Hlines. apply Hlines.
      apply (in_map LevelEditor.exportSegment) in Hin.
      rewrite exportSegment_shape in Hin. exact Hin.
  - intros [Hpts Hlines]. eexists. split; [reflexivity |].
    apply goalReached_iff. cbn. repeat split.
    + intros gp Hin. apply in_map_iff in Hin. destruct Hin as [p [<- Hp]].
      rewrite XY_eta. apply Hpts, Hp.
    + intros gs Hin. apply in_map_iff in Hin. destruct Hin as [s [<- Hs]].
      rewrite exportSegment_shape. apply Hlines, Hs.
    + left. discriminate.
Qed.

(** X23.  The editor keeps the points of a layer distinct: neither the
    initial layer nor the goal layer ever holds two points that are
    [pointsEqual], and the board of the exported level starts with distinct
    points. *)
Theorem editor_points_stay_distinct (est : LevelEditor.EditorState) :
  LevelEditor.reachable est ->
  distinctPoints (LevelEditor.initialPoints est)
  /\ distinctPoints (LevelEditor.goalPoints est)
  /\ distinctPoints (initPoints (LevelEditor.config est)).
Proof.
  intros Hreach.
  assert (Hinv : distinctPoints (LevelEditor.initialPoints est)
                 /\ distinctPoints (LevelEditor.goalPoints est)).
  { induction Hreach as [| e est Hreach [IHi IHg]].
    - split; constructor.
    - destruct e as [coords now | coords | coords now | kind i | layer shp ty dflt lid];
        cbn [LevelEditor.handle].
      + unfold LevelEditor.handleMouseDown.
        destruct (LevelEditor.snap (x coords) (y coords)) as [snapped |]; [| auto].
        destruct (LevelEditor.editShape est); [| cbn; auto].
        destruct (LevelEditor.editLayer est);
          match goal with |- context [find ?f ?l] => destruct (find f l) eqn:Hfind end;
          cbn; auto; split; auto;
          (apply distinctPoints_snoc; [assumption |]);
          intros q Hq; apply (find_none _ _ Hfind q Hq).
      + auto.
      + unfold LevelEditor.handleMouseUp.
        destruct (LevelEditor.editShape est); [cbn; auto |].
        destruct (LevelEditor.dragStart est) as [start |]; [| cbn; auto].
        destruct (LevelEditor.snap (x coords) (y coords)) as [snapped |];
          [| cbn; auto].
        destruct (negb (pointsEqual start snapped)); [| cbn; auto].
        destruct (LevelEditor.editLayer est); cbn; auto.
      + unfold LevelEditor.removeItem. cbn.
        destruct kind; split; auto; apply ForallOrdPairs_filter; assumption.
      + auto. }
  destruct Hinv as [Hi Hg]. split; [exact Hi |]. split; [exact Hg |].
  apply (distinctPoints_coordinates (LevelEditor.initialPoints est));
    [apply editor_initPoints | exact Hi].
Qed.

Lemma twoPointsAuthored_reachable : LevelEditor.reachable twoPointsAuthored.
Proof. repeat apply LevelEditor.reach_step. apply LevelEditor.reach_init. Qed.

Lemma editor_points_stay_distinct_witness :
  distinctPoints (LevelEditor.initialPoints twoPointsAuthored)
  /\ distinctPoints (LevelEditor.goalPoints twoPointsAuthored)
  /\ distinctPoints (initPoints (LevelEditor.config twoPointsAuthored)).
Proof.
  exact (editor_points_stay_distinct twoPointsAuthored twoPointsAuthored_reachable).
Defined.

(** ** Choosing the level to play *)

Lemma findIndex_from_cases {A} (f : A -> bool) (i : Z) (arr : list A) :
  (0 <= i)%Z ->
  (findIndex_from f i arr = (-1)%Z /\ forall v, In v arr -> f v = false)
  \/ (exists v, (i <= findIndex_from f i arr)%Z
                /\ nth_error arr (Z.to_nat (findIndex_from f i arr - i)) = Some v
                /\ f v = true
                /\ forall k w, (k < Z.to_nat (findIndex_from f i arr - i))%nat ->
                               nth_error arr k = Some w -> f w = false).
Proof.
  revert i. induction arr as [| a arr IH]; intros i Hi; cbn [findIndex_from].
  - left. split; [reflexivity | intros v []].
  - destruct (f a) eqn:Hfa.
    + right. exists a. rewrite Z.sub_diag. cbn. repeat split; auto; try lia.
    + destruct (IH (i + 1)%Z ltac:(lia)) as [[Hnone Hall] | [v [Hle [Hnth [Hfv Hbefore]]]]].
      * left. split; [exact Hnone |]. intros v [<- | Hin]; auto.
      * right. exists v.
        replace (Z.to_nat (findIndex_from f (i + 1) arr - i))
          with (S (Z.to_nat (findIndex_from f (i + 1) arr - (i + 1)))) by lia.
        cbn [nth_error]. repeat split; auto; try lia.
        intros [| k] w Hk Hw; cbn in Hw.
        -- injection Hw as <-. exact Hfa.
        -- apply (Hbefore k w); [lia | exact Hw].
Qed.

Lemma findIndex_cases {A} (f : A -> bool) (arr : list A) :
  (findIndex f arr = (-1)%Z /\ forall v, In v arr -> f v = false)
  \/ (exists v, (0 <= findIndex f arr)%Z
                /\ index arr (findIndex f arr) = Some v /\ f v = true
                /\ forall k w, (0 <= k < findIndex f arr)%Z ->
                               index arr k = Some w -> f w = false).
Proof.
  unfold findIndex.
  destruct (findIndex_from_cases f 0 arr ltac:(lia))
    as [Hnone | [v [Hle [Hnth [Hfv Hbefore]]]]]; [left; exact Hnone |].
  right. exists v. rewrite Z.sub_0_r in *. split; [exact Hle |].
  unfold index. destruct (Z.ltb_spec (findIndex_from f 0 arr) 0); [lia |].
  split; [exact Hnth |]. split; [exact Hfv |].
  intros k w Hk. destruct (Z.ltb_spec k 0); [lia |].
  apply Hbefore. lia.
Qed.

(** With no level loaded nothing throws, and the index is set to -1. *)
Example startGroup_without_levels (clearedLevelIds : list Z) (group : LevelGroup) :
  startGroup [] clearedLevelIds group = Some (-1)%Z.
Proof. reflexivity. Qed.

(** X24.  [startGroup], for a group of the loaded groups that has a level,
    sets the level index to an index of [allLevels], and the level there
    has the identifier of a level of the group.  No level before it is an
    unfinished level of the group; and when the level it opens is cleared
    already, every level of the group is. *)
Theorem startGroup_opens_a_level_of_the_group (levelGroups : list LevelGroup)
    (clearedLevelIds : list Z) (group : LevelGroup) :
  In group levelGroups -> group_levels group <> [] ->
  exists i lvl,
    startGroup levelGroups clearedLevelIds group = Some i
    /\ index (allLevels levelGroups) i = Some lvl
    /\ (exists gl, In gl (group_levels group) /\ level_id gl = level_id lvl)
    /\ (forall k l, (0 <= k < i)%Z -> index (allLevels levelGroups) k = Some l ->
                    unfinishedIn group clearedLevelIds l = false)
    /\ (In (level_id lvl) clearedLevelIds ->
        forall gl, In gl (group_levels group) -> In (level_id gl) clearedLevelIds).
Proof.
  intros Hgroup Hlevels. unfold startGroup. cbv zeta.
  assert (Hall : forall gl, In gl (group_levels group) -> In gl (allLevels levelGroups)).
  { intros gl Hgl. apply in_flat_map. exists group. auto. }
  assert (Hself : forall gl, In gl (group_levels group) ->
            existsb (fun g => (level_id g =? level_id gl)%Z) (group_levels group) = true).
  { intros gl Hgl. apply existsb_exists. exists gl. split; [exact Hgl | apply Z.eqb_refl]. }
  destruct (findIndex_cases (unfinishedIn group clearedLevelIds) (allLevels levelGroups))
    as [[Hnone Hfinished] | [lvl [Hle [Hnth [Hf Hbefore]]]]].
  - rewrite Hnone. cbn [Z.eqb negb].
    destruct (group_levels group) as [| first rest] eqn:Hgl; [contradiction |].
    assert (Hfirst : firstLevelIndex levelGroups group
                     = Some (findIndex (fun l => (level_id l =? level_id first)%Z)
                                       (allLevels levelGroups))).
    { unfold firstLevelIndex. rewrite Hgl.
      destruct (allLevels levelGroups) as [| l0 ls] eqn:Hall0; [| reflexivity].
      destruct (Hall first (or_introl eq_refl)). }
    rewrite Hfirst.
    assert (Hcleared : forall gl, In gl (first :: rest) -> In (level_id gl) clearedLevelIds).
    { intros gl Hin.
      specialize (Hfinished gl (Hall gl Hin)). unfold unfinishedIn in Hfinished.
      rewrite Hgl, (Hself gl Hin) in Hfinished. cbn [andb] in Hfinished.
      apply negb_false_iff in Hfinished. apply includes_In, Hfinished. }
    destruct (findIndex_cases (fun l => (level_id l =? level_id first)%Z)
                (allLevels levelGroups))
      as [[Hnone' Hnever] | [lvl [Hle [Hnth [Hf Hbefore]]]]].
    + specialize (Hnever first (Hall first ltac:(left; reflexivity))).
      rewrite Z.eqb_refl in Hnever. discriminate.
    + exists (findIndex (fun l => (level_id l =? level_id first)%Z)
                        (allLevels levelGroups)), lvl.
      apply Z.eqb_eq in Hf.
      split; [reflexivity |]. split; [exact Hnth |]. split; [| split].
      * exists first. split; [left; reflexivity | congruence].
      * intros k l Hk Hl. apply Hfinished.
        unfold index in Hl. destruct (k <? 0)%Z; [discriminate |].
        apply (nth_error_In _ _ Hl).
      * intros _. exact Hcleared.
  - destruct (Z.eqb_spec (findIndex (unfinishedIn group clearedLevelIds)
                            (allLevels levelGroups)) (-1)); [lia |].
    cbn [negb].
    exists (findIndex (unfinishedIn group clearedLevelIds) (allLevels levelGroups)), lvl.
    unfold unfinishedIn in Hf. apply andb_true_iff in Hf. destruct Hf as [Hin Hnot].
    apply existsb_exists in Hin. destruct Hin as [gl [Hgl Hid]].
    apply Z.eqb_eq in Hid.
    split; [reflexivity |]. split; [exact Hnth |]. split; [| split].
    + exists gl. auto.
    + exact Hbefore.
    + intros Hcleared. apply includes_In in Hcleared.
      rewrite Hcleared in Hnot. discriminate.
Qed.

Lemma startGroup_opens_a_level_of_the_group_witness :
  exists i lvl,
    startGroup twoChapters [1%Z] (mkGroup 1 [levelDiagonal; levelCorner]) = Some i
    /\ index (allLevels twoChapters) i = Some lvl
    /\ (exists gl, In gl (group_levels (mkGroup 1 [levelDiagonal; levelCorner]))
                   /\ level_id gl = level_id lvl)
    /\ (forall k l, (0 <= k < i)%Z -> index (allLevels twoChapters) k = Some l ->
                    unfinishedIn (mkGroup 1 [levelDiagonal; levelCorner]) [1%Z] l = false)
    /\ (In (level_id lvl) [1%Z] ->
        forall gl, In gl (group_levels (mkGroup 1 [levelDiagonal; levelCorner])) ->
                   In (level_id gl) [1%Z]).
Proof.
  apply (startGroup_opens_a_level_of_the_group twoChapters [1%Z]
           (mkGroup 1 [levelDiagonal; levelCorner])).
  - left. reflexivity.
  - discriminate.
Defined.
